(** * wheatserver: the configuration registry and loader of [src/config.c]

    A shallow embedding of [config.c]: the enum tables, [configTable], the
    validators, [getConfiguration], [handleList], [applyConfig],
    [fillServerConfig], [extraValidator], [loadConfigFile],
    [constructConfigFormat], [configCommand] and [printServerConfig]; then
    the vocabulary the
    properties are stated in; then the properties of the specification
    that concern this code, each with the lemmas that lead to it.

    Conventions.
    - A C string ([char *]) is a Rocq [string] read up to its first NUL
      character; the end of the Rocq string stands for the terminating NUL.
    - An [int] is a [Z]; the only place where the code can leave the range
      of a 32-bit [int] is [atoi], whose wrap-around is written out.
    - A pointer into an enum table is the table together with an index, so
      that a read behind the last element of the array is visible.
    - [wfree], [strdup] and [freeList] only manage storage; the model keeps
      the values and not the heap.
    - The nodes of [Server.confs] point at the elements of [configTable];
      the model has one list of entries for the array and the list.
    - [memcmp] and [atoi] have the results the C library computes, also
      where the C standard leaves a call undefined; the definitions say
      where that is. *)

From Stdlib Require Import ZArith List String Ascii Bool Lia Sorted.
Import ListNotations.

Open Scope string_scope.
Open Scope Z_scope.

(* ================================================================== *)
(** ** The C library functions used by [config.c] *)
(* ================================================================== *)

Module Libc.

(** The value of a character, as an [unsigned char]. *)
Definition code (c : ascii) : Z := Z.of_nat (nat_of_ascii c).

(** [*s]: the byte a string pointer points to; 0 at the terminator. *)
Definition peek (s : string) : Z :=
  match s with
  | EmptyString => 0
  | String c _ => code c
  end.

(** [s + 1]. *)
Definition advance (s : string) : string :=
  match s with
  | EmptyString => EmptyString
  | String _ r => r
  end.

(** [tolower] in the C locale. *)
Definition tolower (c : Z) : Z :=
  if (65 <=? c) && (c <=? 90) then c + 32 else c.

Fixpoint strlen (s : string) : nat :=
  match s with
  | EmptyString => O
  | String c r => if code c =? 0 then O else S (strlen r)
  end.

(** The bytes of a C string, without the terminator. *)
Fixpoint cstr (s : string) : string :=
  match s with
  | EmptyString => EmptyString
  | String c r => if code c =? 0 then EmptyString else String c (cstr r)
  end.

(** [strncasecmp(s1, s2, n)]: compares at most [n] characters, folded to
    lower case, and stops behind a common NUL. *)
Fixpoint strncasecmp (s1 s2 : string) (n : nat) : Z :=
  match n with
  | O => 0
  | S k =>
      let c1 := tolower (peek s1) in
      let c2 := tolower (peek s2) in
      if c1 =? c2
      then if c1 =? 0 then 0 else strncasecmp (advance s1) (advance s2) k
      else c1 - c2
  end.

(** The object a string literal or a C string occupies: its bytes and the
    terminating NUL. *)
Definition object (s : string) : list Z :=
  (map code (list_ascii_of_string (cstr s)) ++ [0])%list.

(** [memcmp(a, b, n)] over two objects.  The result is decided by the first
    byte that differs; [None] when the comparison would have to read behind
    the end of one of the objects.  The C standard asks that both objects
    hold [n] bytes whatever they contain: a call with a larger [n] that is
    decided inside the objects has here the result the C library computes,
    and no fault, although the standard leaves it undefined. *)
Fixpoint memcmp (a b : list Z) (n : nat) : option Z :=
  match n with
  | O => Some 0
  | S k =>
      match a, b with
      | x :: a', y :: b' => if x =? y then memcmp a' b' k else Some (x - y)
      | _, _ => None
      end
  end.

Definition isspace (c : Z) : bool :=
  (c =? 32) || ((9 <=? c) && (c <=? 13)).

Definition isdigit (c : Z) : bool := (48 <=? c) && (c <=? 57).

(** The digits [strtol] consumes, accumulated in base ten. *)
Fixpoint digits_value (s : string) (acc : Z) : Z :=
  match s with
  | EmptyString => acc
  | String c r =>
      if isdigit (code c) then digits_value r (acc * 10 + (code c - 48))
      else acc
  end.

Fixpoint skip_space (s : string) : string :=
  match s with
  | EmptyString => EmptyString
  | String c r => if isspace (code c) then skip_space r else s
  end.

Definition LONG_MAX : Z := 9223372036854775807.
Definition LONG_MIN : Z := - 9223372036854775808.
Definition INT_MAX : Z := 2147483647.

(** [strtol(s, NULL, 10)] with a 64-bit [long]: white space, an optional
    sign, digits, clamped to the range of [long]. *)
Definition strtol (s : string) : Z :=
  let s1 := skip_space s in
  let v :=
    if peek s1 =? 45 then - digits_value (advance s1) 0
    else if peek s1 =? 43 then digits_value (advance s1) 0
    else digits_value s1 0 in
  Z.max LONG_MIN (Z.min LONG_MAX v).

(** The conversion of a [long] to a 32-bit [int]: reduction modulo 2^32 into
    [-2^31, 2^31). *)
Definition to_int (v : Z) : Z := (v + 2 ^ 31) mod 2 ^ 32 - 2 ^ 31.

(** [atoi(s)] is [(int) strtol(s, NULL, 10)].  The C standard leaves the
    behaviour undefined when the value does not fit an [int]; the model
    has there the value the common C libraries on a 64-bit [long] compute,
    and no fault. *)
Definition atoi (s : string) : Z := to_int (strtol s).

(** The decimal digits of a non-negative number, most significant first,
    in front of [acc]. *)
Fixpoint decimal (fuel : nat) (n : Z) (acc : string) : string :=
  match fuel with
  | O => acc
  | S f =>
      let acc' := String (ascii_of_nat (Z.to_nat (48 + n mod 10))) acc in
      if n / 10 =? 0 then acc' else decimal f (n / 10) acc'
  end.

(** What [printf]'s [%d] writes for an [int]. *)
Definition fmt_d (v : Z) : string :=
  if v <? 0 then String "-" (decimal 10 (- v) "") else decimal 10 v "".

(** What [printf]'s [%s] writes: the string, or the C library's [(null)]
    for a null pointer. *)
Definition fmt_s (p : option string) : string :=
  match p with
  | None => "(null)"
  | Some s => cstr s
  end.

(** [snprintf(buf, len, ...)] for an output [out]: the buffer receives at
    most [len - 1] characters, the return value is the full length. *)
Definition snprintf (len : nat) (out : string) : Z * string :=
  (Z.of_nat (String.length out), substring 0 (len - 1) out).

End Libc.

Import Libc.

(* ================================================================== *)
(** ** The string library [wstr] *)
(* ================================================================== *)

Module Wstr.

(** Modelled from the spec: [wstr.c] is not part of the sources at hand.  A
    [wstr] is a length-counted, NUL-terminated character buffer; the text
    of a configuration never holds a NUL, so a [wstr] is a [string] and
    [wstrlen] is its length. *)
Definition wstrlen (s : string) : nat := String.length s.

Definition in_cset (cset : string) (c : ascii) : bool :=
  existsb (Ascii.eqb c) (list_ascii_of_string cset).

Fixpoint lstrip (cset s : string) : string :=
  match s with
  | EmptyString => EmptyString
  | String c r => if in_cset cset c then lstrip cset r else s
  end.

Fixpoint rstrip (cset s : string) : string :=
  match s with
  | EmptyString => EmptyString
  | String c r =>
      match rstrip cset r with
      | EmptyString => if in_cset cset c then EmptyString else String c EmptyString
      | r' => String c r'
      end
  end.

(** Modelled from the spec: [wstrStrip(s, cset)] removes the characters of
    [cset] from both ends of [s] ("leading/trailing whitespace and the
    characters tab/newline/carriage-return/space are stripped"). *)
Definition wstrStrip (s cset : string) : string := rstrip cset (lstrip cset s).

(** The first piece of [s] and the pieces behind it. *)
Fixpoint pieces (sep : ascii) (s : string) : string * list string :=
  match s with
  | EmptyString => (EmptyString, [])
  | String c r =>
      let (t, ts) := pieces sep r in
      if Ascii.eqb c sep then (EmptyString, t :: ts) else (String c t, ts)
  end.

(** Modelled from the spec: [wstrNewSplit(s, sep, 1, &count)] cuts [s] at
    every occurrence of the one-character separator ("an ordered sequence
    of lines (split on line breaks)"); [count] is the length of the result,
    which is 0 for the empty string.  [applyConfig] calls it with the same
    arguments for the lines of the text and for the tokens of a line, and
    reads [argvs[j]] for every [j] below [args]. *)
Definition wstrNewSplit (s : string) (sep : ascii) : list string :=
  match s with
  | EmptyString => []
  | _ => let (t, ts) := pieces sep s in t :: ts
  end.

(** [wstrCatLen(s, t, len)] appends the first [len] characters of [t]. *)
Definition wstrCatLen (s t : string) (len : nat) : string :=
  s ++ substring 0 len t.

(** [wstrNew(p)] copies the C string at [p]. *)
Definition wstrNew (p : string) : string := cstr p.

End Wstr.

Import Wstr.

(* ================================================================== *)
(** ** The data of [config.c] *)
(* ================================================================== *)

(** [struct enumIdName]: [name] is a [char *], null in a sentinel. *)
Record enumIdName := { id : Z; e_name : option string }.

(** A pointer to an element of an array of [struct enumIdName]. *)
Record enumPtr := { arr : list enumIdName; off : nat }.

(** The display kinds. *)
Inductive printFormat :=
  STRING_FORMAT | INT_FORMAT | ENUM_FORMAT | BOOL_FORMAT | LIST_FORMAT.

(** The union [target]: [val], [ptr] (a string, null, or a list) and
    [enum_ptr]. *)
Inductive target_t :=
| TVal (v : Z)
| TPtr (p : option string)
| TList (l : list string)
| TEnum (p : enumPtr).

(** The [void *helper]: null, an integer cast to a pointer, or the address
    of an enum table. *)
Inductive helper_t :=
| HNull
| HInt (z : Z)
| HEnum (p : enumPtr).

(** The functions a [validator] field can point to. *)
Inductive validator_t :=
  FnString | FnList | FnUnsignedInt | FnEnum | FnBool.

(** [struct configuration]. *)
Record configuration := {
  name : string;
  args : Z;
  validator : validator_t;
  target : target_t;
  helper : helper_t;
  format : printFormat
}.

Definition set_target (conf : configuration) (t : target_t) : configuration :=
  {| name := name conf; args := args conf; validator := validator conf;
     target := t; helper := helper conf; format := format conf |}.

Definition set_helper (conf : configuration) (h : helper_t) : configuration :=
  {| name := name conf; args := args conf; validator := validator conf;
     target := target conf; helper := h; format := format conf |}.

(** The cast of an integer to [void *]: 0 converts to the null pointer. *)
Definition ptr_of_int (z : Z) : helper_t := if z =? 0 then HNull else HInt z.

(** [if (conf->helper)]. *)
Definition helper_set (h : helper_t) : bool :=
  match h with
  | HNull => false
  | HInt z => negb (z =? 0)
  | HEnum _ => true
  end.

(** [if (conf->target.ptr)] for a target that holds a pointer. *)
Definition ptr_set (t : target_t) : bool :=
  match t with
  | TPtr (Some _) | TList _ | TEnum _ => true
  | TPtr None => false
  | TVal v => negb (v =? 0)
  end.

(** The constants of [wheatserver.h], which is not part of the sources at
    hand: they are parameters of the development. *)
Record constants := {
  WHEAT_PROTOCOL_DEFAULT : string;
  WHEAT_DEFAULT_ADDR : string;
  WHEAT_SERVERPORT : Z;
  WHEAT_MAX_BUFFER_SIZE : Z;
  WHEAT_BUFLIMIT : Z;
  WHEAT_STATS_ADDR : string;
  WHEAT_STATS_PORT : Z;
  WHEAT_STAT_REFRESH : Z;
  WHEATSERVER_TIMEOUT : Z;
  WHEAT_MBUF_SIZE : Z;
  WHEAT_NOTFREE : Z;
  WHEAT_ARGS_NO_LIMIT : Z;
  WHEAT_DEBUG : Z;
  WHEAT_VERBOSE : Z;
  WHEAT_NOTICE : Z;
  WHEAT_WARNING : Z
}.

(** Modelled from the spec: the macro [WHEAT_STR_NULL] of [wheatserver.h]
    is "the case-insensitive sentinel literal NULL". *)
Definition WHEAT_STR_NULL : string := "NULL".

(** [sizeof] of a string literal: its characters and the terminator. *)
Definition sizeof_literal (s : string) : nat := S (String.length s).

(** The return values of a validator. *)
Inductive status := VALIDATE_OK | VALIDATE_WRONG.

(** What the third argument of a validator points to: a token, the list
    built by [handleList], or [argvs[1]] of a line with a single token,
    which is behind the tokens of the line. *)
Inductive payload :=
| PStr (s : string)
| PList (l : list string)
| PNone.

(** The ways a call can leave the defined behaviour of the program: four
    kinds of undefined behaviour, and a failed [ASSERT].

    Modelled from the spec: the macro [ASSERT] of [wheatserver.h] is not
    part of the sources at hand; a condition that does not hold "is fatal",
    it ends the process. *)
Inductive fault :=
| ReadPastTable      (* an enum scan left its array *)
| ReadPastObject     (* [memcmp] left one of its objects *)
| BadPointer         (* a pointer of the wrong kind was used *)
| WritePastBuffer    (* [snprintf] was given more room than is left *)
| AssertFailed.      (* [ASSERT] on a false condition *)

(** The result of a validator call: the status and the entry afterwards,
    or a fault. *)
Inductive vresult :=
| Ret (s : status) (conf : configuration)
| Undef (u : fault).

(** Dereferencing an [enumPtr]; [None] behind the end of the array. *)
Definition deref (p : enumPtr) : option enumIdName := nth_error (arr p) (off p).

Section Config.

Variable K : constants.

(** [static struct enumIdName Verbose[]]. *)
Definition Verbose : list enumIdName :=
  [ {| id := WHEAT_DEBUG K; e_name := Some "DEBUG" |};
    {| id := WHEAT_VERBOSE K; e_name := Some "VERBOSE" |};
    {| id := WHEAT_NOTICE K; e_name := Some "NOTICE" |};
    {| id := WHEAT_WARNING K; e_name := Some "WARNING" |};
    {| id := -1; e_name := None |} ].

(** [static struct enumIdName Workers[]]: two elements, no sentinel. *)
Definition Workers : list enumIdName :=
  [ {| id := 0; e_name := Some "SyncWorker" |};
    {| id := 1; e_name := Some "AsyncWorker" |} ].

Definition at_ (a : list enumIdName) (i : nat) : enumPtr :=
  {| arr := a; off := i |}.

(** [struct configuration configTable[]]. *)
Definition configTable : list configuration :=
  [ {| name := "protocol"; args := 2; validator := FnString;
       target := TPtr (Some (WHEAT_PROTOCOL_DEFAULT K));
       helper := ptr_of_int (WHEAT_NOTFREE K); format := STRING_FORMAT |};
    {| name := "bind-addr"; args := 2; validator := FnString;
       target := TPtr (Some (WHEAT_DEFAULT_ADDR K));
       helper := ptr_of_int (WHEAT_NOTFREE K); format := STRING_FORMAT |};
    {| name := "port"; args := 2; validator := FnUnsignedInt;
       target := TVal (WHEAT_SERVERPORT K);
       helper := HNull; format := INT_FORMAT |};
    {| name := "worker-number"; args := 2; validator := FnUnsignedInt;
       target := TVal 2;
       helper := ptr_of_int 1024; format := INT_FORMAT |};
    {| name := "worker-type"; args := 2; validator := FnEnum;
       target := TEnum (at_ Workers 0);
       helper := HEnum (at_ Workers 0); format := ENUM_FORMAT |};
    {| name := "logfile"; args := 2; validator := FnString;
       target := TPtr None;
       helper := HNull; format := STRING_FORMAT |};
    {| name := "logfile-level"; args := 2; validator := FnEnum;
       target := TEnum (at_ Verbose 2);
       helper := HEnum (at_ Verbose 0); format := ENUM_FORMAT |};
    {| name := "daemon"; args := 2; validator := FnBool;
       target := TVal 0;
       helper := HNull; format := BOOL_FORMAT |};
    {| name := "pidfile"; args := 2; validator := FnString;
       target := TPtr None;
       helper := HNull; format := STRING_FORMAT |};
    {| name := "max-buffer-size"; args := 2; validator := FnUnsignedInt;
       target := TVal (WHEAT_MAX_BUFFER_SIZE K);
       helper := ptr_of_int (WHEAT_BUFLIMIT K); format := INT_FORMAT |};
    {| name := "stat-bind-addr"; args := 2; validator := FnString;
       target := TPtr (Some (WHEAT_STATS_ADDR K));
       helper := ptr_of_int (WHEAT_NOTFREE K); format := STRING_FORMAT |};
    {| name := "stat-port"; args := 2; validator := FnUnsignedInt;
       target := TVal (WHEAT_STATS_PORT K);
       helper := HNull; format := INT_FORMAT |};
    {| name := "stat-refresh-time"; args := 2; validator := FnUnsignedInt;
       target := TVal (WHEAT_STAT_REFRESH K);
       helper := HNull; format := INT_FORMAT |};
    {| name := "stat-file"; args := 2; validator := FnString;
       target := TPtr None;
       helper := HNull; format := STRING_FORMAT |};
    {| name := "timeout-seconds"; args := 2; validator := FnUnsignedInt;
       target := TVal (WHEATSERVER_TIMEOUT K);
       helper := ptr_of_int 300; format := INT_FORMAT |};
    {| name := "mbuf-size"; args := 2; validator := FnUnsignedInt;
       target := TVal (WHEAT_MBUF_SIZE K);
       helper := ptr_of_int (WHEAT_BUFLIMIT K); format := INT_FORMAT |} ].

(* ---------------------------------------------------------------- *)
(** *** The validators *)

(** [stringValidator].  The [wfree] of the old string has no effect on the
    values; the assignment [conf->helper = NULL] sits in the branch where
    the helper is null already. *)
Definition stringValidator (conf : configuration) (key : string)
    (val : payload) : vresult :=
  match val with
  | PStr v =>
      let conf1 :=
        if ptr_set (target conf) && negb (helper_set (helper conf))
        then set_helper conf HNull else conf in
      if strncasecmp v WHEAT_STR_NULL (sizeof_literal WHEAT_STR_NULL) =? 0
      then Ret VALIDATE_OK (set_target conf1 (TPtr None))
      else Ret VALIDATE_OK (set_target conf1 (TPtr (Some (cstr v))))
  | _ => Undef BadPointer
  end.

(** [listValidator]: the new list replaces the old one. *)
Definition listValidator (conf : configuration) (key : string)
    (val : payload) : vresult :=
  match val with
  | PList l => Ret VALIDATE_OK (set_target conf (TList l))
  | _ => Undef BadPointer
  end.

(** The [for] loop of [unsignedIntValidator] from index [i] on: [true]
    when it runs to the terminator, [false] when it returns
    [VALIDATE_WRONG]. *)
Fixpoint digits_ok (val : string) (i : nat) : bool :=
  match val with
  | EmptyString => true
  | String c r =>
      if code c =? 0 then true
      else
        let digit := code c - 48 in
        if (digit <? 0) || (digit >? 9) then false
        else if (10 <=? i)%nat then false
        else digits_ok r (S i)
  end.

(** [(intptr_t) conf->helper]; the address of an enum table is not a number
    the model knows. *)
Definition helper_int (h : helper_t) : option Z :=
  match h with
  | HNull => Some 0
  | HInt z => Some z
  | HEnum _ => None
  end.

(** [unsignedIntValidator]. *)
Definition unsignedIntValidator (conf : configuration) (key : string)
    (val : payload) : vresult :=
  match val with
  | PStr v =>
      match helper_int (helper conf) with
      | None => Undef BadPointer
      | Some h =>
          let max_limit := if helper_set (helper conf) then h else 0 in
          if negb (digits_ok v 0) then Ret VALIDATE_WRONG conf
          else
            let value := atoi v in
            if negb (max_limit =? 0) && (value >? max_limit)
            then Ret VALIDATE_WRONG conf
            else Ret VALIDATE_OK (set_target conf (TVal value))
      end
  | _ => Undef BadPointer
  end.

(** The [while] loop of [enumValidator] over the elements from the pointer
    [sentinel] on; [i] is the index of [sentinel] in the array.  The loop
    reads [sentinel->name], so it leaves the array when no element is left. *)
Fixpoint enum_scan (val : string) (rest : list enumIdName) (i : nat)
  : option (option nat) :=
  match rest with
  | [] => None
  | e :: rest' =>
      match e_name e with
      | None => Some None
      | Some n =>
          if strncasecmp val n (strlen n) =? 0 then Some (Some i)
          else enum_scan val rest' (S i)
      end
  end.

(** [enumValidator].  The branch [else if (sentinel == NULL) break] is
    behind a read of [sentinel->name] and is never taken. *)
Definition enumValidator (conf : configuration) (key : string)
    (val : payload) : vresult :=
  match val with
  | PStr v =>
      match helper conf with
      | HEnum p =>
          match enum_scan v (skipn (off p) (arr p)) (off p) with
          | None => Undef ReadPastTable
          | Some None => Ret VALIDATE_WRONG conf
          | Some (Some i) =>
              Ret VALIDATE_OK (set_target conf (TEnum (at_ (arr p) i)))
          end
      | HNull => Undef AssertFailed
      | HInt z => if z =? 0 then Undef AssertFailed else Undef BadPointer
      end
  | _ => Undef BadPointer
  end.

(** [boolValidator].  The length handed to [memcmp] is that of the token
    and its terminator, whatever the size of the literal. *)
Definition boolValidator (conf : configuration) (key : string)
    (val : payload) : vresult :=
  match val with
  | PStr v =>
      let len := S (strlen v) in
      match memcmp (object "on") (object v) len with
      | None => Undef ReadPastObject
      | Some 0 => Ret VALIDATE_OK (set_target conf (TVal 1))
      | Some _ =>
          match memcmp (object "off") (object v) len with
          | None => Undef ReadPastObject
          | Some 0 => Ret VALIDATE_OK (set_target conf (TVal 0))
          | Some _ => Ret VALIDATE_WRONG conf
          end
      end
  | _ => Undef BadPointer
  end.

(** [conf->validator(conf, key, val)]. *)
Definition call_validator (conf : configuration) (key : string)
    (val : payload) : vresult :=
  match validator conf with
  | FnString => stringValidator conf key val
  | FnList => listValidator conf key val
  | FnUnsignedInt => unsignedIntValidator conf key val
  | FnEnum => enumValidator conf key val
  | FnBool => boolValidator conf key val
  end.

(* ---------------------------------------------------------------- *)
(** *** Lookup *)

(** The loop of [getConfiguration] over the nodes of [Server.confs] from the
    [i]-th on: the first entry with
    [!strncasecmp(name, conf->name, strlen(name))], as its position in the
    list and the entry. *)
Fixpoint lookup_from (confs : list configuration) (nm : string) (i : nat)
  : option (nat * configuration) :=
  match confs with
  | [] => None
  | conf :: rest =>
      if strncasecmp nm (name conf) (strlen nm) =? 0 then Some (i, conf)
      else lookup_from rest nm (S i)
  end.

(** [initServerConfs(confs)] appends the addresses of the elements of
    [configTable] to the list, in the order of the table. *)
Definition initServerConfs (confs : list configuration) : list configuration :=
  (confs ++ configTable)%list.

(** [getConfiguration(name)], over the list [Server.confs], which
    [initServerConfs] fills with the elements of [configTable] in order. *)
Definition getConfiguration (confs : list configuration) (nm : string)
  : option (nat * configuration) :=
  lookup_from confs nm 0.

(** The assignment through the pointer a lookup returned. *)
Fixpoint store (confs : list configuration) (k : nat) (conf : configuration)
  : list configuration :=
  match confs, k with
  | [], _ => []
  | _ :: rest, O => conf :: rest
  | c :: rest, S k' => c :: store rest k' conf
  end.

(* ---------------------------------------------------------------- *)
(** *** List blocks *)

(** The characters [wstrStrip] removes in [config.c]: tab, newline,
    carriage return, space. *)
Definition blanks : string :=
  String (ascii_of_nat 9) (String (ascii_of_nat 10)
    (String (ascii_of_nat 13) (String " "%char EmptyString))).

(** The inner [while] loop of [handleList] over the rest of a stripped
    line: the list afterwards, or [None] for [goto handle_error]. *)
Fixpoint scan_line (rest : string) (line_valid : bool) (l : list string)
  : option (list string) :=
  match rest with
  | EmptyString => Some l
  | String ch r =>
      if Ascii.eqb ch " "%char then scan_line r line_valid l
      else if Ascii.eqb ch "-"%char then
        if line_valid then None else scan_line r true l
      else
        if line_valid then Some (l ++ [wstrNew rest])%list else None
  end.

(** The outer [while] loop of [handleList] over the lines from [pos] on,
    up to [handle_error]: the list and the value of [pos] there. *)
Fixpoint scan_block (rest : list string) (pos : nat) (l : list string)
  : list string * nat :=
  match rest with
  | [] => (l, pos)
  | ln :: rest' =>
      match scan_line (wstrStrip ln blanks) false l with
      | None => (l, pos)
      | Some l' => scan_block rest' (S pos) l'
      end
  end.

(** [handleList(lines, &i, count)]: the list, and the new value of [i]. *)
Definition handleList (lines : list string) (i count : nat)
  : list string * nat :=
  let (l, pos) := scan_block (skipn (S i) (firstn count lines)) (S i) [] in
  (l, (pos - 1)%nat).

(* ---------------------------------------------------------------- *)
(** *** The body of the line loop *)

(** Which way the body of the loop of [applyConfig] went. *)
Inductive branch :=
| Skipped      (* a comment or an empty line: [continue] *)
| NoEntry      (* the name did not resolve *)
| ListBlock    (* [handleList] was called *)
| Plain.       (* the [else] side *)

Inductive body_result :=
| Continue (i : nat) (confs : list configuration) (b : branch)
| LoadErr (i : nat) (err : string) (b : branch)   (* [goto loaderr] *)
| Fault (u : fault) (b : branch).

Definition is_list_format (f : printFormat) : bool :=
  match f with LIST_FORMAT => true | _ => false end.

Fixpoint set_nth (l : list string) (k : nat) (v : string) : list string :=
  match l, k with
  | [], _ => []
  | _ :: r, O => v :: r
  | x :: r, S k' => x :: set_nth r k' v
  end.

(** The loop [for (j = 2; j < args; ++j)] that appends [argvs[j]] to
    [argvs[1]]; [todo] counts the iterations that are left. *)
Fixpoint rejoin (argvs : list string) (j todo : nat) : list string :=
  match todo with
  | O => argvs
  | S t =>
      let s := nth j argvs "" in
      rejoin (set_nth argvs 1 (wstrCatLen (nth 1 argvs "") s (wstrlen s)))
             (S j) t
  end.

(** One run of the body of [for (i = 0; i < count; i++)] in [applyConfig].
    The pointer [ptr] is taken from [argvs[1]] before the tokens are
    touched. *)
Definition loop_body (lines : list string) (count i : nat)
    (confs : list configuration) : body_result :=
  let line := wstrStrip (nth i lines "") blanks in
  if (peek line =? 35) || (peek line =? 0) || (peek line =? 32)
  then Continue i confs Skipped
  else
    let argvs := wstrNewSplit line " "%char in
    let nargs := List.length argvs in
    match getConfiguration confs (nth 0 argvs "") with
    | None => LoadErr i "Unknown configuration name" NoEntry
    | Some (k, conf) =>
        let ptr0 :=
          match nth_error argvs 1 with Some s => PStr s | None => PNone end in
        let list_form := (nargs =? 1)%nat && is_list_format (format conf) in
        let '(ptr, i1, b) :=
          if list_form
          then let (l, i') := handleList lines i count in (PList l, i', ListBlock)
          else (ptr0, i, Plain) in
        let argvs1 :=
          if negb list_form && negb (Z.of_nat nargs =? args conf)
             && (nargs =? 2)%nat
          then rejoin argvs 2 (nargs - 2) else argvs in
        if negb (Z.of_nat nargs =? args conf)
           && negb (args conf =? WHEAT_ARGS_NO_LIMIT K)
        then LoadErr i1 "Incorrect args" b
        else
          match call_validator conf (nth 0 argvs1 "") ptr with
          | Undef u => Fault u b
          | Ret VALIDATE_OK conf' => Continue i1 (store confs k conf') b
          | Ret VALIDATE_WRONG _ => LoadErr i1 "Validate Failed" b
          end
    end.

(* ---------------------------------------------------------------- *)
(** *** The flat structure [Server] *)

(** The fields of the global [Server] that [config.c] assigns or reads. *)
Record globalServer := {
  bind_addr : option string;
  port : Z;
  worker_number : Z;
  worker_type : option string;
  logfile : option string;
  verbose : Z;
  daemon : Z;
  pidfile : option string;
  max_buffer_size : Z;
  stat_addr : option string;
  stat_port : Z;
  stat_refresh_seconds : Z;
  stat_file : option string;
  worker_timeout : Z;
  mbuf_size : Z
}.

(** The members of the union, read at the kind they were written with. *)
Definition target_ptr (conf : configuration) : option (option string) :=
  match target conf with TPtr p => Some p | _ => None end.

Definition target_val (conf : configuration) : option Z :=
  match target conf with TVal v => Some v | _ => None end.

Definition target_enum (conf : configuration) : option enumIdName :=
  match target conf with TEnum p => deref p | _ => None end.

Notation "x <- e ;; k" :=
  (match e with Some x => k | None => None end)
  (at level 61, e at next level, right associativity).

(** [fillServerConfig]: the pointer [conf] starts at [&configTable[1]] and
    is incremented after each assignment.  [None] when a member of the
    union is read that was not the one written, or an enum pointer does
    not point into its table.  The function reads the array [configTable],
    whose elements the nodes of [Server.confs] point at; the model has one
    list for both, so the argument stands for the array only when the
    registry is the one [initServerConfs] builds from the table, which is
    the case in every state of [registry_ok]. *)
Definition fillServerConfig (tbl : list configuration) : option globalServer :=
  c1 <- nth_error tbl 1 ;; v1 <- target_ptr c1 ;;
  c2 <- nth_error tbl 2 ;; v2 <- target_val c2 ;;
  c3 <- nth_error tbl 3 ;; v3 <- target_val c3 ;;
  c4 <- nth_error tbl 4 ;; v4 <- target_enum c4 ;;
  c5 <- nth_error tbl 5 ;; v5 <- target_ptr c5 ;;
  c6 <- nth_error tbl 6 ;; v6 <- target_enum c6 ;;
  c7 <- nth_error tbl 7 ;; v7 <- target_val c7 ;;
  c8 <- nth_error tbl 8 ;; v8 <- target_ptr c8 ;;
  c9 <- nth_error tbl 9 ;; v9 <- target_val c9 ;;
  c10 <- nth_error tbl 10 ;; v10 <- target_ptr c10 ;;
  c11 <- nth_error tbl 11 ;; v11 <- target_val c11 ;;
  c12 <- nth_error tbl 12 ;; v12 <- target_val c12 ;;
  c13 <- nth_error tbl 13 ;; v13 <- target_ptr c13 ;;
  c14 <- nth_error tbl 14 ;; v14 <- target_val c14 ;;
  c15 <- nth_error tbl 15 ;; v15 <- target_val c15 ;;
  Some {| bind_addr := v1; port := v2; worker_number := v3;
          worker_type := e_name v4; logfile := v5; verbose := id v6;
          daemon := v7; pidfile := v8; max_buffer_size := v9;
          stat_addr := v10; stat_port := v11; stat_refresh_seconds := v12;
          stat_file := v13; worker_timeout := v14; mbuf_size := v15 |}.

(** [extraValidator]: the two [ASSERT]s hold. *)
Definition extraValidator (srv : globalServer) : bool :=
  (stat_refresh_seconds srv <? worker_timeout srv)
  && (negb (port srv =? 0) && negb (stat_port srv =? 0)).

(* ---------------------------------------------------------------- *)
(** *** [applyConfig] and [loadConfigFile] *)

(** How a load ends. *)
Inductive outcome :=
| Loaded (confs : list configuration) (srv : globalServer)
| Halted (lineno : nat) (err : string) (confs : list configuration)
      (* [loaderr]: the diagnostic and [halt(1)] *)
| Aborted (u : fault) (confs : list configuration)
| Stuck.  (* the loop was given too little fuel *)

(** The loop [for (i = 0; i < count; i++)] from [i] on.  The second
    component lists, in order, the lines the loop body ran on and the way
    it took there. *)
Fixpoint line_loop (fuel : nat) (lines : list string) (count i : nat)
    (confs : list configuration) : list (nat * branch) * outcome :=
  match fuel with
  | O => ([], Stuck)
  | S fuel' =>
      if (count <=? i)%nat then
        match fillServerConfig confs with
        | Some srv => ([], Loaded confs srv)
        | None => ([], Aborted BadPointer confs)
        end
      else
        match loop_body lines count i confs with
        | Continue i1 confs1 b =>
            let (tr, o) := line_loop fuel' lines count (S i1) confs1 in
            ((i, b) :: tr, o)
        | LoadErr i1 err b => ([(i, b)], Halted (i1 + 1) err confs)
        | Fault u b => ([(i, b)], Aborted u confs)
        end
  end.

(** [applyConfig(config)] on the registry [confs]. *)
Definition applyConfig (config : string) (confs : list configuration)
  : list (nat * branch) * outcome :=
  let lines := wstrNewSplit config (ascii_of_nat 10) in
  let count := List.length lines in
  line_loop (S count) lines count 0 confs.

(** The text [loadConfigFile] assembles: [file] is the content of the
    configuration file when a file name was given, [options] the text of
    the command line, appended behind a newline. *)
Definition config_text (file options : option string) : string :=
  let config := match file with Some f => f | None => "" end in
  match options with
  | Some o => config ++ String (ascii_of_nat 10) o
  | None => config
  end.

(** [loadConfigFile]: the [ASSERT]s of [extraValidator] follow a successful
    [applyConfig]. *)
Definition loadConfigFile (file options : option string)
    (confs : list configuration) : outcome :=
  let config := config_text file options in
  match snd (applyConfig config confs) with
  | Loaded confs' srv =>
      if extraValidator srv then Loaded confs' srv
      else Aborted AssertFailed confs'
  | o => o
  end.

(* ---------------------------------------------------------------- *)
(** *** The formatter *)

Inductive fmt_result :=
| Formatted (ret : Z) (buf : string)
| FmtFault (u : fault).

Definition size_max : Z := 2 ^ 64.

(** The [while] loop of the [LIST_FORMAT] case.  Each item is written at
    [buf + pos] by an [snprintf] that is told [len]; [len - pos] is
    computed in [size_t]. *)
Fixpoint format_items (items : list string) (len : nat) (pos : Z)
    (buf : string) (ret : Z) : fmt_result :=
  match items with
  | [] => Formatted ret buf
  | line :: rest =>
      let out := cstr line ++ String (ascii_of_nat 9) EmptyString in
      let r := Z.of_nat (String.length out) in
      let stored := Z.min r (Z.of_nat len - 1) in
      if (len =? 0)%nat then
        if r >? (Z.of_nat len - pos) mod size_max then Formatted pos buf
        else format_items rest len (pos + r) buf r
      else if Z.of_nat len <? pos + stored + 1 then FmtFault WritePastBuffer
      else
        let buf' :=
          substring 0 (Z.to_nat pos) buf ++ substring 0 (Z.to_nat stored) out in
        if r >? (Z.of_nat len - pos) mod size_max then Formatted pos buf'
        else format_items rest len (pos + r) buf' r
  end.

(** [constructConfigFormat(conf, buf, len)]: the return value and the
    content of [buf]. *)
Definition constructConfigFormat (conf : configuration) (len : nat)
  : fmt_result :=
  let put out := let (ret, buf) := snprintf len out in Formatted ret buf in
  match format conf with
  | STRING_FORMAT =>
      match target_ptr conf with
      | Some p => put (cstr (name conf) ++ ": " ++ fmt_s p)
      | None => FmtFault BadPointer
      end
  | INT_FORMAT | BOOL_FORMAT =>
      match target_val conf with
      | Some v => put (cstr (name conf) ++ ": " ++ fmt_d v)
      | None => FmtFault BadPointer
      end
  | ENUM_FORMAT =>
      match target_enum conf with
      | Some e => put (cstr (name conf) ++ ": " ++ fmt_s (e_name e))
      | None => FmtFault BadPointer
      end
  | LIST_FORMAT =>
      let (ret, buf) := snprintf len (cstr (name conf) ++ ": ") in
      match target conf with
      | TPtr None => Formatted ret buf
      | TList items => format_items items len ret buf ret
      | _ => FmtFault BadPointer
      end
  end.

(** [configCommand]: the reply to a client that asks for the setting
    [arg]: what is in the buffer, and the length that is passed on. *)
Definition configCommand (confs : list configuration) (arg : string)
  : fmt_result :=
  match getConfiguration confs arg with
  | None =>
      let (len, buf) := snprintf 255 "No Correspond Configuration" in
      Formatted len buf
  | Some (_, conf) => constructConfigFormat conf 255
  end.

(** What [printServerConfig] hands to [wheatLog]: the messages in order,
    each with its level, or the fault of a formatter call. *)
Inductive log_result :=
| Logged (msgs : list (Z * string))
| LogFault (u : fault).

(** The loop of [printServerConfig] over the nodes of [Server.confs]: the
    buffer of 255 bytes is filled by [constructConfigFormat] and logged
    with the format [%s]. *)
Fixpoint log_entries (level : Z) (confs : list configuration) : log_result :=
  match confs with
  | [] => Logged []
  | conf :: rest =>
      match constructConfigFormat conf 255 with
      | FmtFault u => LogFault u
      | Formatted _ buf =>
          match log_entries level rest with
          | LogFault u => LogFault u
          | Logged msgs => Logged ((level, cstr buf) :: msgs)
          end
      end
  end.

(** [printServerConfig(test)]: the level is [WHEAT_NOTICE] under [test]
    and [WHEAT_DEBUG] otherwise; a banner, the entries, a closing line. *)
Definition printServerConfig (test : Z) (confs : list configuration)
  : log_result :=
  let level := if test =? 0 then WHEAT_DEBUG K else WHEAT_NOTICE K in
  match log_entries level confs with
  | LogFault u => LogFault u
  | Logged msgs =>
      Logged ((level, "---- Now Configuration are ----")
              :: msgs ++ [(level, "-------------------------------")])%list
  end.

(** The text behind ["name: "] in a formatted line. *)
Definition formatted_value (conf : configuration) (buf : string) : string :=
  let n := (strlen (name conf) + 2)%nat in
  substring n (String.length buf - n) buf.

End Config.

(* ================================================================== *)
(** ** The vocabulary of the properties *)
(* ================================================================== *)

(** The definitions below are what the statements of the properties are
    written in: values for the constants, the relations the loops are
    specified by, and the invariant of the registry. *)

(** One choice of the constants of [wheatserver.h], to run the model on
    concrete texts.  The lines used below name literals of [config.c]
    only, so the runs do not depend on this choice. *)
Definition sample : constants := {|
  WHEAT_PROTOCOL_DEFAULT := "Http";
  WHEAT_DEFAULT_ADDR := "127.0.0.1";
  WHEAT_SERVERPORT := 10828;
  WHEAT_MAX_BUFFER_SIZE := 4194304;
  WHEAT_BUFLIMIT := 1073741824;
  WHEAT_STATS_ADDR := "127.0.0.1";
  WHEAT_STATS_PORT := 10829;
  WHEAT_STAT_REFRESH := 10;
  WHEATSERVER_TIMEOUT := 30;
  WHEAT_MBUF_SIZE := 16384;
  WHEAT_NOTFREE := 1;
  WHEAT_ARGS_NO_LIMIT := -1;
  WHEAT_DEBUG := 0;
  WHEAT_VERBOSE := 1;
  WHEAT_NOTICE := 2;
  WHEAT_WARNING := 3
|}.

(** The line separator. *)
Definition newline : string := String (ascii_of_nat 10) EmptyString.

(** The characters of a C string, folded to lower case. *)
Definition lower (s : string) : list Z :=
  map (fun c => tolower (code c)) (list_ascii_of_string (cstr s)).

(** [p] is a case-insensitive prefix of [s]. *)
Definition ci_prefix (p s : string) : Prop :=
  exists r, lower s = (lower p ++ r)%list.

(** A table in which the first name is a prefix of the second. *)
Definition nested_names : list enumIdName :=
  [ {| id := 0; e_name := Some "Async" |};
    {| id := 1; e_name := Some "AsyncWorker" |};
    {| id := -1; e_name := None |} ].

(** An enum entry over that table. *)
Definition nested_conf : configuration :=
  {| name := "mode"; args := 2; validator := FnEnum;
     target := TEnum (at_ nested_names 1);
     helper := HEnum (at_ nested_names 0); format := ENUM_FORMAT |}.

(** The entry [worker-number] of the table with the value 7. *)
Definition seven_workers : configuration :=
  {| name := "worker-number"; args := 2; validator := FnUnsignedInt;
     target := TVal 7; helper := HInt 1024; format := INT_FORMAT |}.

(** Every character of the C string is an ASCII digit. *)
Definition all_digits (s : string) : bool :=
  forallb (fun c => isdigit (code c)) (list_ascii_of_string (cstr s)).

(** The number a string of digits denotes. *)
Definition numeric (s : string) : Z := digits_value (cstr s) 0.

(** A run of [n] spaces. *)
Fixpoint spaces (n : nat) : string :=
  match n with
  | O => EmptyString
  | S k => String " "%char (spaces k)
  end.

(** The lines [handleList] consumes, with the items they add: a line of
    spaces only, a marker without text, and a marker followed by text that
    begins with a character other than a space and [-]. *)
Inductive item_line : string -> list string -> Prop :=
| item_blank (n : nat) :
    item_line (spaces n) []
| item_marker (n m : nat) :
    item_line (spaces n ++ String "-"%char (spaces m)) []
| item_text (n m : nat) (c : ascii) (r : string) :
    c <> " "%char -> c <> "-"%char ->
    item_line (spaces n ++ String "-"%char (spaces m ++ String c r))
              [wstrNew (String c r)].

(** The lines that end a block: content in front of the marker, or a
    second marker in front of any content. *)
Definition malformed (s : string) : Prop :=
  (exists n c r, s = spaces n ++ String c r /\
                 c <> " "%char /\ c <> "-"%char)
  \/ (exists n m r,
        s = spaces n ++ String "-"%char (spaces m ++ String "-"%char r)).

(** The item pattern in the words of the specification: zero or more
    spaces, the marker, the text of the item. *)
Definition marker_then_text (s : string) : Prop :=
  exists n text, s = spaces n ++ String "-"%char text.

(** The lines of a block and the items they add, in the order of the
    lines. *)
Inductive block : list string -> list string -> Prop :=
| block_nil : block [] []
| block_cons (ln : string) (rest : list string) (it its : list string) :
    item_line (wstrStrip ln blanks) it ->
    block rest its ->
    block (ln :: rest) (it ++ its)%list.

(** A list entry, as a module can register it: the shipped table has
    none. *)
Definition list_entry : configuration :=
  {| name := "mylist"; args := WHEAT_ARGS_NO_LIMIT sample;
     validator := FnList; target := TPtr None; helper := HNull;
     format := LIST_FORMAT |}.

(** What an entry declares: everything but its value. *)
Definition decl (c : configuration)
  : string * Z * validator_t * helper_t * printFormat :=
  (name c, args c, validator c, helper c, format c).

(** The validator, the helper and the display kind of an entry fit
    together. *)
Definition consistent (c : configuration) : Prop :=
  match validator c, format c with
  | FnString, STRING_FORMAT => helper c = HNull \/ helper_set (helper c) = true
  | FnUnsignedInt, INT_FORMAT => helper_int (helper c) <> None
  | FnBool, BOOL_FORMAT => True
  | FnEnum, ENUM_FORMAT => exists tbl, helper c = HEnum (at_ tbl 0)
  | _, _ => False
  end.

(** The value of an entry is of the kind its display kind names; an enum
    value points at a named element of the table of its helper. *)
Definition kind_ok (c : configuration) : Prop :=
  match format c, target c with
  | STRING_FORMAT, TPtr _ => True
  | INT_FORMAT, TVal _ => True
  | BOOL_FORMAT, TVal _ => True
  | ENUM_FORMAT, TEnum p =>
      helper c = HEnum (at_ (arr p) 0) /\
      exists e n, deref p = Some e /\ e_name e = Some n
  | _, _ => False
  end.

(** A state of the registry that [initServerConfs] builds from
    [configTable]: the declarations of the table, with values of the
    declared kinds. *)
Definition registry_ok (K : constants) (confs : list configuration) : Prop :=
  map decl confs = map decl (configTable K)
  /\ Forall consistent confs /\ Forall kind_ok confs.

(** The registry an outcome leaves behind. *)
Definition registry_of (o : outcome) : option (list configuration) :=
  match o with
  | Loaded confs _ | Halted _ _ confs | Aborted _ confs => Some confs
  | Stuck => None
  end.

(** The value the registry holds under a name. *)
Definition value_of (confs : list configuration) (nm : string)
  : option target_t :=
  match getConfiguration confs nm with
  | Some (_, c) => Some (target c)
  | None => None
  end.

(** The lookup, on the names alone. *)
Fixpoint index_of (names : list string) (q : string) (i : nat) : option nat :=
  match names with
  | [] => None
  | n :: rest =>
      if strncasecmp q n (strlen q) =? 0 then Some i
      else index_of rest q (S i)
  end.

(** A refresh interval of 400 seconds with a worker timeout of 300. *)
Definition refresh_above_timeout : string :=
  "stat-refresh-time 400" ++ newline ++ "timeout-seconds 300".

(** The registry after the load of that text. *)
Definition refresh_above_timeout_registry : list configuration :=
  Eval vm_compute in
    match snd (applyConfig sample refresh_above_timeout (configTable sample))
    with
    | Loaded confs _ => confs
    | _ => []
    end.

(** The flat structure filled from it. *)
Definition refresh_above_timeout_server : globalServer :=
  {| bind_addr := Some "127.0.0.1"; port := 10828; worker_number := 2;
     worker_type := Some "SyncWorker"; logfile := None; verbose := 2;
     daemon := 0; pidfile := None; max_buffer_size := 4194304;
     stat_addr := Some "127.0.0.1"; stat_port := 10829;
     stat_refresh_seconds := 400; stat_file := None; worker_timeout := 300;
     mbuf_size := 16384 |}.

(** No character of [s] is [c]. *)
Definition no_char (c : ascii) (s : string) : bool :=
  forallb (fun x => negb (Ascii.eqb x c)) (list_ascii_of_string s).

(** No character of [s] is NUL. *)
Definition nul_free (s : string) : bool :=
  forallb (fun x => negb (code x =? 0)) (list_ascii_of_string s).

(** The string holds a character. *)
Definition nonempty (s : string) : bool :=
  match s with EmptyString => false | _ => true end.

(** A name as the shipped table has them: it begins with a character that
    is neither blank nor [#], and holds no space, newline or NUL. *)
Definition name_ok (nm : string) : bool :=
  match nm with
  | EmptyString => false
  | String c _ => negb (in_cset blanks c) && negb (code c =? 35)
  end
  && no_char " " nm && no_char (ascii_of_nat 10) nm && nul_free nm.

(** A value token as a line can carry it: not empty, without space and
    newline, and not ending in a blank. *)
Definition token_ok (v : string) : bool :=
  nonempty v && no_char " " v && no_char (ascii_of_nat 10) v
  && String.eqb (rstrip blanks v) v.

(** Every character of the string is an ASCII digit. *)
Definition digit_string (s : string) : bool :=
  forallb (fun c => isdigit (code c)) (list_ascii_of_string s).

(** The values whose formatted text the loader takes back: a string that
    is not null, equal to the token that committed it; a number in the
    non-negative range of [int] and under the ceiling of its entry; an
    enum value. *)
Definition reparsable (conf : configuration) : Prop :=
  match format conf, target conf with
  | STRING_FORMAT, TPtr (Some s) =>
      token_ok s = true /\ nul_free s = true /\
      strncasecmp s WHEAT_STR_NULL (sizeof_literal WHEAT_STR_NULL) <> 0
  | INT_FORMAT, TVal x =>
      0 <= x <= INT_MAX /\
      forall h, helper_int (helper conf) = Some h -> h = 0 \/ x <= h
  | ENUM_FORMAT, TEnum _ => True
  | _, _ => False
  end.

(** The names of an enum table are value tokens, and the scan of the table
    for a name ends at that name. *)
Definition names_distinct (conf : configuration) : Prop :=
  match target conf with
  | TEnum p =>
      forall e n, deref p = Some e -> e_name e = Some n ->
        token_ok n = true /\ nul_free n = true /\
        enum_scan n (arr p) 0 = Some (Some (off p))
  | _ => True
  end.

(** A line the loop of [applyConfig] passes over: after stripping it is
    empty or begins with [#]. *)
Definition skipped_line (ln : string) : Prop :=
  peek (wstrStrip ln blanks) = 35 \/ peek (wstrStrip ln blanks) = 0.

(** The three reasons the model of [applyConfig] can halt with. *)
Definition load_error (err : string) : Prop :=
  err = "Unknown configuration name" \/ err = "Incorrect args"
  \/ err = "Validate Failed".


(** The lines of a text, the empty text counted as one empty line. *)
Definition all_pieces (sep : ascii) (s : string) : list string :=
  let (t, ts) := pieces sep s in t :: ts.

(** An outcome with the line number of its diagnostic moved on by [n]
    lines. *)
Definition shift_outcome (n : nat) (o : outcome) : outcome :=
  match o with
  | Halted k err confs => Halted (n + k) err confs
  | _ => o
  end.

(** The items of a list as the formatter writes them: each one followed
    by a tab. *)
Fixpoint tabbed (items : list string) : string :=
  match items with
  | [] => EmptyString
  | it :: rest => cstr it ++ String (ascii_of_nat 9) (tabbed rest)
  end.

(** The value the list formatter returns when every item fits: the length
    of what its last [snprintf] wrote, the header when there is no item. *)
Fixpoint last_written (ret : Z) (items : list string) : Z :=
  match items with
  | [] => ret
  | it :: rest => last_written (Z.of_nat (S (String.length (cstr it)))) rest
  end.

(* ================================================================== *)
(** * Properties *)
(* ================================================================== *)

(* ================================================================== *)
(** ** Case-insensitive prefixes *)
(* ================================================================== *)

Lemma tolower_zero (c : Z) : tolower c = 0 <-> c = 0.
Proof.
  unfold tolower.
  destruct ((65 <=? c) && (c <=? 90)) eqn:E; [| tauto].
  apply andb_true_iff in E. destruct E as [E1 E2].
  apply Z.leb_le in E1. lia.
Qed.

Lemma lower_nil : lower "" = [].
Proof. reflexivity. Qed.

Lemma lower_cons (c : ascii) (s : string) :
  code c <> 0 -> lower (String c s) = tolower (code c) :: lower s.
Proof.
  intros H. unfold lower. simpl.
  destruct (code c =? 0) eqn:E; [apply Z.eqb_eq in E; contradiction |].
  reflexivity.
Qed.

Lemma lower_nul (c : ascii) (s : string) :
  code c = 0 -> lower (String c s) = [].
Proof.
  intros H. unfold lower. simpl. rewrite H. reflexivity.
Qed.

Lemma lower_peek_nil (s : string) : peek s = 0 -> lower s = [].
Proof.
  destruct s as [| c r]; simpl; intros H; [reflexivity |].
  now apply lower_nul.
Qed.

Lemma lower_peek_cons (s : string) :
  peek s <> 0 -> lower s = tolower (peek s) :: lower (advance s).
Proof.
  destruct s as [| c r]; simpl; intros H; [contradiction |].
  now apply lower_cons.
Qed.

(** [strncasecmp(a, b, strlen(b)) == 0] says that [b] is a
    case-insensitive prefix of [a]. *)
Lemma strncasecmp_strlen_r (b a : string) :
  strncasecmp a b (strlen b) = 0 <-> ci_prefix b a.
Proof.
  revert a. induction b as [| c b IH]; intros a.
  - simpl. split; [| reflexivity]. intros _. exists (lower a). reflexivity.
  - simpl strlen. destruct (code c =? 0) eqn:Ec.
    + apply Z.eqb_eq in Ec. simpl. split; [| reflexivity].
      intros _. exists (lower a). now rewrite (lower_nul c b Ec).
    + apply Z.eqb_neq in Ec.
      cbn [strncasecmp peek advance].
      unfold ci_prefix. rewrite (lower_cons c b Ec).
      destruct (tolower (peek a) =? tolower (code c)) eqn:E1.
      * apply Z.eqb_eq in E1.
        assert (Ha : peek a <> 0).
        { intros H0. rewrite H0 in E1. change (tolower 0) with 0 in E1.
          symmetry in E1. apply (proj1 (tolower_zero _)) in E1.
          contradiction. }
        assert (Ht : tolower (peek a) <> 0)
          by (intros H0; apply (proj1 (tolower_zero _)) in H0; contradiction).
        apply Z.eqb_neq in Ht. rewrite Ht.
        rewrite (lower_peek_cons a Ha). rewrite IH. unfold ci_prefix.
        split.
        -- intros [r Hr]. exists r. simpl. now rewrite Hr, E1.
        -- intros [r Hr]. exists r. simpl in Hr. now inversion Hr.
      * apply Z.eqb_neq in E1. split.
        -- intros H. exfalso. lia.
        -- intros [r Hr]. exfalso.
           destruct (Z.eq_dec (peek a) 0) as [H0 | H0].
           ++ rewrite (lower_peek_nil a H0) in Hr. discriminate.
           ++ rewrite (lower_peek_cons a H0) in Hr. simpl in Hr.
              inversion Hr. contradiction.
Qed.

Lemma strncasecmp_sym (a b : string) (n : nat) :
  strncasecmp a b n = 0 <-> strncasecmp b a n = 0.
Proof.
  revert a b. induction n as [| n IH]; intros a b; simpl; [tauto |].
  rewrite (Z.eqb_sym (tolower (peek b))).
  destruct (tolower (peek a) =? tolower (peek b)) eqn:E.
  - apply Z.eqb_eq in E. rewrite <- E.
    destruct (tolower (peek a) =? 0); [tauto | apply IH].
  - apply Z.eqb_neq in E. lia.
Qed.

(** [strncasecmp(a, b, strlen(a)) == 0] says that [a] is a
    case-insensitive prefix of [b]. *)
Lemma strncasecmp_strlen_l (a b : string) :
  strncasecmp a b (strlen a) = 0 <-> ci_prefix a b.
Proof.
  rewrite strncasecmp_sym. apply strncasecmp_strlen_r.
Qed.

Lemma ci_prefix_dec (p s : string) : {ci_prefix p s} + {~ ci_prefix p s}.
Proof.
  destruct (Z.eq_dec (strncasecmp p s (strlen p)) 0) as [H | H].
  - left. now apply strncasecmp_strlen_l.
  - right. intros Hp. apply H. now apply strncasecmp_strlen_l.
Qed.

(* ================================================================== *)
(** ** Lookup in the registry *)
(* ================================================================== *)

Lemma lookup_from_some (confs : list configuration) (q : string)
    (i k : nat) (conf : configuration) :
  lookup_from confs q i = Some (k, conf) <->
  exists j, k = (i + j)%nat /\ nth_error confs j = Some conf /\
    ci_prefix q (name conf) /\
    forall j' c, (j' < j)%nat -> nth_error confs j' = Some c ->
                 ~ ci_prefix q (name c).
Proof.
  revert i. induction confs as [| c0 rest IH]; intros i; simpl.
  - split; [discriminate |]. intros [j [_ [H _]]]. destruct j; discriminate.
  - destruct (strncasecmp q (name c0) (strlen q) =? 0) eqn:E.
    + apply Z.eqb_eq in E. apply strncasecmp_strlen_l in E. split.
      * intros H. inversion H; subst. exists O. repeat split; auto.
        intros j' c Hj. lia.
      * intros [j [Hk [Hn [Hp Hmin]]]]. destruct j as [| j].
        -- simpl in Hn. inversion Hn; subst. f_equal. f_equal. lia.
        -- exfalso. apply (Hmin O c0); [lia | reflexivity | exact E].
    + apply Z.eqb_neq in E.
      assert (E' : ~ ci_prefix q (name c0))
        by (intros Hp; apply E; now apply strncasecmp_strlen_l).
      rewrite IH. split.
      * intros [j [Hk [Hn [Hp Hmin]]]]. exists (S j). repeat split; auto.
        -- lia.
        -- intros j' c Hj Hc. destruct j' as [| j'].
           ++ simpl in Hc. inversion Hc; subst. exact E'.
           ++ simpl in Hc. apply (Hmin j' c); [lia | exact Hc].
      * intros [j [Hk [Hn [Hp Hmin]]]]. destruct j as [| j].
        -- simpl in Hn. inversion Hn; subst. contradiction.
        -- exists j. repeat split; auto.
           ++ lia.
           ++ intros j' c Hj Hc. apply (Hmin (S j') c); [lia | exact Hc].
Qed.

Lemma lookup_from_none (confs : list configuration) (q : string) (i : nat) :
  lookup_from confs q i = None <->
  forall c, In c confs -> ~ ci_prefix q (name c).
Proof.
  revert i. induction confs as [| c0 rest IH]; intros i; simpl.
  - split; [intros _ c [] | reflexivity].
  - destruct (strncasecmp q (name c0) (strlen q) =? 0) eqn:E.
    + apply Z.eqb_eq in E. apply strncasecmp_strlen_l in E. split.
      * discriminate.
      * intros H. exfalso. apply (H c0); auto.
    + apply Z.eqb_neq in E. rewrite IH. split.
      * intros H c [Hc | Hc]; [subst c | now apply H].
        intros Hp. apply E. now apply strncasecmp_strlen_l.
      * intros H c Hc. apply H. now right.
Qed.

(** C7.  [getConfiguration] matches the query, ignoring case, as a prefix
    of the stored names: it returns the first entry in registration order
    whose name begins with the query, and no entry exactly when no stored
    name begins with it; in the shipped table the query [time] resolves to
    the entry [timeout-seconds]. *)
Theorem getConfiguration_first_prefix_match :
  (forall confs q k conf,
      getConfiguration confs q = Some (k, conf) <->
      (nth_error confs k = Some conf /\ ci_prefix q (name conf) /\
       forall j c, (j < k)%nat -> nth_error confs j = Some c ->
                   ~ ci_prefix q (name c))) /\
  (forall confs q,
      getConfiguration confs q = None <->
      forall c, In c confs -> ~ ci_prefix q (name c)) /\
  (forall K, exists conf,
      getConfiguration (configTable K) "time" = Some (14%nat, conf) /\
      name conf = "timeout-seconds").
Proof.
  split; [| split].
  - intros confs q k conf. unfold getConfiguration.
    rewrite lookup_from_some. split.
    + intros [j [Hk H]]. simpl in Hk. now subst j.
    + intros H. exists k. split; [reflexivity | exact H].
  - intros confs q. apply lookup_from_none.
  - intros K. eexists. split; reflexivity.
Qed.

(* ================================================================== *)
(** ** The enum validator *)
(* ================================================================== *)

(** The scan finds the index [i + k] exactly when the [k]-th element from
    the start is the first one whose name the input begins with, and every
    element before it has a name. *)
Lemma enum_scan_found (val : string) (rest : list enumIdName) (i r : nat) :
  enum_scan val rest i = Some (Some r) <->
  exists k e n, r = (i + k)%nat /\ nth_error rest k = Some e /\
    e_name e = Some n /\ ci_prefix n val /\
    forall j, (j < k)%nat ->
      exists e' n', nth_error rest j = Some e' /\ e_name e' = Some n' /\
                    ~ ci_prefix n' val.
Proof.
  revert i. induction rest as [| e0 rest IH]; intros i; simpl.
  - split; [discriminate |]. intros [k [e [n [_ [H _]]]]].
    destruct k; discriminate.
  - destruct (e_name e0) as [n0 |] eqn:En.
    + destruct (strncasecmp val n0 (strlen n0) =? 0) eqn:E.
      * apply Z.eqb_eq in E. apply strncasecmp_strlen_r in E. split.
        -- intros H. inversion H; subst. exists O, e0, n0.
           repeat split; auto. intros j Hj. lia.
        -- intros [k [e [n [Hr [Hn [Hen [Hp Hmin]]]]]]].
           destruct k as [| k].
           ++ f_equal. f_equal. lia.
           ++ exfalso. destruct (Hmin O) as [e' [n' [H1 [H2 H3]]]]; [lia |].
              simpl in H1. inversion H1; subst. rewrite En in H2.
              inversion H2; subst. contradiction.
      * apply Z.eqb_neq in E.
        assert (E' : ~ ci_prefix n0 val)
          by (intros Hp; apply E; now apply strncasecmp_strlen_r).
        rewrite IH. split.
        -- intros [k [e [n [Hr [Hn [Hen [Hp Hmin]]]]]]].
           exists (S k), e, n. repeat split; auto; [lia |].
           intros j Hj. destruct j as [| j].
           ++ exists e0, n0. auto.
           ++ simpl. apply Hmin. lia.
        -- intros [k [e [n [Hr [Hn [Hen [Hp Hmin]]]]]]].
           destruct k as [| k].
           ++ simpl in Hn. inversion Hn; subst. rewrite En in Hen.
              inversion Hen; subst. contradiction.
           ++ exists k, e, n. repeat split; auto; [lia |].
              intros j Hj. apply (Hmin (S j)). lia.
    + split; [discriminate |].
      intros [k [e [n [Hr [Hn [Hen [Hp Hmin]]]]]]]. destruct k as [| k].
      * simpl in Hn. inversion Hn; subst. rewrite En in Hen. discriminate.
      * destruct (Hmin O) as [e' [n' [H1 [H2 H3]]]]; [lia |].
        simpl in H1. inversion H1; subst. rewrite En in H2. discriminate.
Qed.

(** The scan leaves the array exactly when every element has a name and
    the input begins with none of them. *)
Lemma enum_scan_overrun (val : string) (rest : list enumIdName) (i : nat) :
  enum_scan val rest i = None <->
  forall e, In e rest -> exists n, e_name e = Some n /\ ~ ci_prefix n val.
Proof.
  revert i. induction rest as [| e0 rest IH]; intros i; simpl.
  - split; [intros _ e [] | reflexivity].
  - destruct (e_name e0) as [n0 |] eqn:En.
    + destruct (strncasecmp val n0 (strlen n0) =? 0) eqn:E.
      * apply Z.eqb_eq in E. apply strncasecmp_strlen_r in E.
        split; [discriminate |]. intros H. exfalso.
        destruct (H e0) as [n [H1 H2]]; [now left |].
        rewrite En in H1. inversion H1; subst. contradiction.
      * apply Z.eqb_neq in E. rewrite IH. split.
        -- intros H e [He | He]; [subst e | now apply H].
           exists n0. split; [exact En |].
           intros Hp. apply E. now apply strncasecmp_strlen_r.
        -- intros H e He. apply H. now right.
    + split; [discriminate |]. intros H. exfalso.
      destruct (H e0) as [n [H1 _]]; [now left |].
      rewrite En in H1. discriminate.
Qed.

Lemma enum_scan_accepts (val : string) (rest : list enumIdName) (i : nat) :
  (exists r, enum_scan val rest i = Some (Some r)) <->
  exists k e n, nth_error rest k = Some e /\ e_name e = Some n /\
    ci_prefix n val /\
    forall j, (j < k)%nat ->
      exists e' n', nth_error rest j = Some e' /\ e_name e' = Some n'.
Proof.
  split.
  - intros [r Hr]. apply enum_scan_found in Hr.
    destruct Hr as [k [e [n [_ [Hn [He [Hp Hmin]]]]]]].
    exists k, e, n. repeat split; auto.
    intros j Hj. destruct (Hmin j Hj) as [e' [n' [H1 [H2 _]]]]. eauto.
  - revert i. induction rest as [| e0 rest IH]; intros i.
    + intros [k [e [n [H _]]]]. destruct k; discriminate.
    + intros [k [e [n [Hn [He [Hp Hnamed]]]]]]. simpl.
      destruct k as [| k].
      * simpl in Hn. inversion Hn; subst. rewrite He.
        apply strncasecmp_strlen_r in Hp. rewrite Hp. simpl. eauto.
      * destruct (Hnamed O) as [e' [n' [H1 H2]]]; [lia |].
        simpl in H1. inversion H1; subst. rewrite H2.
        destruct (strncasecmp val n' (strlen n') =? 0); [eauto |].
        apply IH. exists k, e, n. repeat split; auto.
        intros j Hj. apply (Hnamed (S j)). lia.
Qed.

(** C8.  The enum validator scans the table in order from the helper
    pointer and commits the first entry whose name the input begins with,
    ignoring case and comparing over the length of that name only: when
    the entry at [k] matches and no entry before it does, the entry at [k]
    is committed, whatever entries follow it. *)
Theorem enumValidator_first_entry_wins (conf : configuration)
    (key val : string) (tbl : list enumIdName) (start k : nat)
    (e : enumIdName) (n : string) :
  helper conf = HEnum (at_ tbl start) ->
  (start <= k)%nat ->
  nth_error tbl k = Some e ->
  e_name e = Some n ->
  ci_prefix n val ->
  (forall j, (start <= j < k)%nat ->
     exists e' n', nth_error tbl j = Some e' /\ e_name e' = Some n' /\
                   ~ ci_prefix n' val) ->
  enumValidator conf key (PStr val)
  = Ret VALIDATE_OK (set_target conf (TEnum (at_ tbl k))).
Proof.
  intros Hh Hk Hn He Hp Hmin. unfold enumValidator. rewrite Hh. simpl.
  assert (H : enum_scan val (skipn start tbl) start = Some (Some k)).
  { apply enum_scan_found. exists (k - start)%nat, e, n.
    repeat split; auto.
    - lia.
    - rewrite nth_error_skipn. replace (start + (k - start))%nat with k by lia.
      exact Hn.
    - intros j Hj. rewrite nth_error_skipn. apply Hmin. lia. }
  rewrite H. reflexivity.
Qed.

Lemma enumValidator_first_entry_wins_witness :
  enumValidator nested_conf "mode" (PStr "asyncworker")
  = Ret VALIDATE_OK (set_target nested_conf (TEnum (at_ nested_names 0))).
Proof.
  apply (enumValidator_first_entry_wins nested_conf "mode" "asyncworker"
           nested_names 0 0 {| id := 0; e_name := Some "Async" |} "Async").
  - reflexivity.
  - lia.
  - reflexivity.
  - reflexivity.
  - exists (skipn 5 (lower "asyncworker")). reflexivity.
  - intros j Hj. lia.
Defined.

(** C2, as the code has it.  The enum validator accepts an input exactly
    when some option name of the table, reached before any sentinel, is a
    case-insensitive prefix of the input: the input has to begin with the
    whole option name. *)
Theorem enumValidator_accepts_iff (conf : configuration) (key val : string)
    (tbl : list enumIdName) (start : nat) :
  helper conf = HEnum (at_ tbl start) ->
  ((exists conf', enumValidator conf key (PStr val) = Ret VALIDATE_OK conf')
   <->
   exists k e n, (start <= k)%nat /\ nth_error tbl k = Some e /\
     e_name e = Some n /\ ci_prefix n val /\
     forall j, (start <= j < k)%nat ->
       exists e' n', nth_error tbl j = Some e' /\ e_name e' = Some n').
Proof.
  intros Hh. unfold enumValidator. rewrite Hh. simpl.
  pose proof (enum_scan_accepts val (skipn start tbl) start) as Hacc.
  split.
  - intros [conf' H].
    destruct (enum_scan val (skipn start tbl) start) as [[r |] |] eqn:E;
      try discriminate.
    destruct (proj1 Hacc (ex_intro _ r eq_refl))
      as [k [e [n [Hn [He [Hp Hnamed]]]]]].
    rewrite nth_error_skipn in Hn.
    exists (start + k)%nat, e, n. repeat split; auto; [lia |].
    intros j Hj. destruct (Hnamed (j - start)%nat) as [e' [n' [H1 H2]]];
      [lia |].
    rewrite nth_error_skipn in H1.
    replace (start + (j - start))%nat with j in H1 by lia. eauto.
  - intros [k [e [n [Hk [Hn [He [Hp Hnamed]]]]]]].
    destruct (proj2 Hacc) as [r Hr].
    { exists (k - start)%nat, e, n. repeat split; auto.
      - rewrite nth_error_skipn.
        replace (start + (k - start))%nat with k by lia. exact Hn.
      - intros j Hj. rewrite nth_error_skipn. apply Hnamed. lia. }
    rewrite Hr. eauto.
Qed.

Lemma enumValidator_accepts_iff_witness :
  exists conf',
    enumValidator (nth 6 (configTable sample) nested_conf) "logfile-level"
      (PStr "debugging")
    = Ret VALIDATE_OK conf'.
Proof.
  apply (proj2 (enumValidator_accepts_iff
                  (nth 6 (configTable sample) nested_conf) "logfile-level"
                  "debugging" (Verbose sample) 0 eq_refl)).
  exists 0%nat, {| id := 0; e_name := Some "DEBUG" |}, "DEBUG".
  split; [lia |]. split; [reflexivity |]. split; [reflexivity |].
  split; [exists (skipn 5 (lower "debugging")); reflexivity |].
  intros j Hj. lia.
Defined.

(** C2, counterexample.  [DEB] is a non-empty case-insensitive prefix of
    the option name [DEBUG] of [logfile-level], and the line
    [logfile-level DEB] is refused by the validator. *)
Lemma enum_prefix_of_name_refused :
  ci_prefix "DEB" "DEBUG" /\ "DEB" <> "" /\
  snd (applyConfig sample "logfile-level DEB" (configTable sample))
  = Halted 1 "Validate Failed" (configTable sample).
Proof.
  split; [| split].
  - exists (skipn 3 (lower "DEBUG")). reflexivity.
  - discriminate.
  - vm_compute. reflexivity.
Qed.

(** C4.  [Workers] has no sentinel: for an input that begins with neither
    of its two names the scan of the enum validator leaves the array. *)
Theorem Workers_scan_leaves_table (conf : configuration) (key val : string) :
  helper conf = HEnum (at_ Workers 0) ->
  ~ ci_prefix "SyncWorker" val ->
  ~ ci_prefix "AsyncWorker" val ->
  enumValidator conf key (PStr val) = Undef ReadPastTable.
Proof.
  intros Hh H1 H2. unfold enumValidator. rewrite Hh. simpl skipn.
  assert (H : enum_scan val Workers 0 = None).
  { apply enum_scan_overrun. intros e [He | [He | []]]; subst e; simpl; eauto. }
  cbn [arr off at_]. rewrite H. reflexivity.
Qed.

Lemma Workers_scan_leaves_table_witness :
  enumValidator (nth 4 (configTable sample) nested_conf) "worker-type"
    (PStr "Foo")
  = Undef ReadPastTable.
Proof.
  apply (Workers_scan_leaves_table
           (nth 4 (configTable sample) nested_conf) "worker-type" "Foo").
  - reflexivity.
  - intros [r Hr]. vm_compute in Hr. discriminate.
  - intros [r Hr]. vm_compute in Hr. discriminate.
Defined.

(** With the sentinel of [Verbose], the same scan ends in
    [VALIDATE_WRONG]. *)
Lemma Verbose_scan_reaches_sentinel (K : constants) (conf : configuration)
    (key val : string) :
  helper conf = HEnum (at_ (Verbose K) 0) ->
  ~ ci_prefix "DEBUG" val -> ~ ci_prefix "VERBOSE" val ->
  ~ ci_prefix "NOTICE" val -> ~ ci_prefix "WARNING" val ->
  enumValidator conf key (PStr val) = Ret VALIDATE_WRONG conf.
Proof.
  intros Hh H1 H2 H3 H4. unfold enumValidator. rewrite Hh.
  cbn [arr off at_ skipn Verbose enum_scan e_name].
  repeat match goal with
  | |- context [strncasecmp val ?n (strlen ?n) =? 0] =>
      let E := fresh "E" in
      destruct (strncasecmp val n (strlen n) =? 0) eqn:E;
      [ apply Z.eqb_eq in E; apply strncasecmp_strlen_r in E; contradiction | ]
  end.
  reflexivity.
Qed.

Example worker_type_unknown_value :
  snd (applyConfig sample "worker-type Foo" (configTable sample))
  = Aborted ReadPastTable (configTable sample).
Proof. vm_compute. reflexivity. Qed.

(* ================================================================== *)
(** ** The integer validator *)
(* ================================================================== *)

Lemma isdigit_range (c : Z) : isdigit c = true <-> 48 <= c <= 57.
Proof.
  unfold isdigit. rewrite andb_true_iff, !Z.leb_le. tauto.
Qed.

Lemma digit_test (c : Z) :
  ((c - 48 <? 0) || (c - 48 >? 9)) = negb (isdigit c).
Proof.
  unfold isdigit.
  destruct (c - 48 <? 0) eqn:E1, (c - 48 >? 9) eqn:E2,
           (48 <=? c) eqn:E3, (c <=? 57) eqn:E4; simpl; try reflexivity;
    rewrite ?Z.ltb_lt, ?Z.ltb_ge, ?Z.gtb_ltb, ?Z.leb_le, ?Z.leb_gt in *;
    lia.
Qed.

(** The loop of the validator accepts exactly the strings of at most ten
    characters, all of them digits. *)
Lemma digits_ok_spec (val : string) (i : nat) :
  digits_ok val i = true <->
  all_digits val = true /\ (strlen val = 0 \/ i + strlen val <= 10)%nat.
Proof.
  revert i. unfold all_digits.
  induction val as [| c r IH]; intros i.
  - simpl. split; auto.
  - cbn [digits_ok cstr strlen].
    destruct (code c =? 0) eqn:E0; cbn [list_ascii_of_string forallb].
    + split; auto.
    + cbv zeta. rewrite digit_test.
      destruct (isdigit (code c)); cbn [negb andb].
      * destruct (Nat.leb 10 i) eqn:E10.
        -- apply Nat.leb_le in E10. split; [discriminate |].
           intros [_ [H | H]]; [discriminate | lia].
        -- apply Nat.leb_gt in E10. rewrite IH. split.
           ++ intros [H1 [H2 | H2]]; (split; [exact H1 | right; lia]).
           ++ intros [H1 [H2 | H2]]; [discriminate |].
              split; [exact H1 | right; lia].
      * split; [discriminate | intros [H _]; discriminate].
Qed.

Lemma digits_value_cstr (s : string) (acc : Z) :
  digits_value (cstr s) acc = digits_value s acc.
Proof.
  revert acc. induction s as [| c r IH]; intros acc; simpl; [reflexivity |].
  destruct (code c =? 0) eqn:E.
  - apply Z.eqb_eq in E. rewrite E. reflexivity.
  - simpl. destruct (isdigit (code c)); [apply IH | reflexivity].
Qed.

Lemma digits_value_bound (s : string) (acc : Z) :
  0 <= acc ->
  acc <= digits_value s acc
  /\ digits_value s acc < (acc + 1) * 10 ^ Z.of_nat (strlen s).
Proof.
  revert acc. induction s as [| c r IH]; intros acc Hacc; simpl.
  - lia.
  - destruct (isdigit (code c)) eqn:Ed.
    + apply isdigit_range in Ed.
      destruct (code c =? 0) eqn:E0; [apply Z.eqb_eq in E0; lia |].
      destruct (IH (acc * 10 + (code c - 48))) as [H1 H2]; [lia |].
      rewrite Nat2Z.inj_succ, Z.pow_succ_r by lia. split; [lia |].
      assert (0 < 10 ^ Z.of_nat (strlen r)) by (apply Z.pow_pos_nonneg; lia).
      nia.
    + assert (0 < 10 ^ Z.of_nat (if code c =? 0 then 0%nat else S (strlen r)))
        by (apply Z.pow_pos_nonneg; lia).
      nia.
Qed.

Lemma to_int_small (v : Z) : - 2 ^ 31 <= v < 2 ^ 31 -> to_int v = v.
Proof.
  intros H. unfold to_int. rewrite Z.mod_small; lia.
Qed.

(** On an accepted token, [atoi] yields the number it denotes, reduced to
    an [int]. *)
Lemma atoi_accepted (val : string) :
  digits_ok val 0 = true -> atoi val = to_int (numeric val).
Proof.
  intros H. apply digits_ok_spec in H. destruct H as [Hd Hl].
  unfold atoi, strtol, numeric. rewrite digits_value_cstr.
  assert (Hs : skip_space val = val /\ peek val <> 45 /\ peek val <> 43).
  { destruct val as [| c r]; simpl; [repeat split; discriminate |].
    unfold all_digits in Hd. simpl in Hd.
    destruct (code c =? 0) eqn:E0.
    - apply Z.eqb_eq in E0. rewrite E0. simpl. repeat split; discriminate.
    - simpl in Hd. apply andb_true_iff in Hd. destruct Hd as [Hd _].
      apply isdigit_range in Hd. unfold isspace.
      replace (code c =? 32) with false by (symmetry; apply Z.eqb_neq; lia).
      replace (code c <=? 13) with false by (symmetry; apply Z.leb_gt; lia).
      rewrite andb_false_r. simpl. repeat split; lia. }
  destruct Hs as [Hs [H45 H43]]. rewrite Hs.
  apply Z.eqb_neq in H45, H43. rewrite H45, H43.
  destruct (digits_value_bound val 0) as [H1 H2]; [lia |].
  assert (H10 : digits_value val 0 < 10 ^ 10).
  { eapply Z.lt_le_trans; [exact H2 |]. rewrite Z.mul_1_l.
    apply Z.pow_le_mono_r; lia. }
  f_equal. unfold LONG_MAX, LONG_MIN. lia.
Qed.

(** What [unsignedIntValidator] does on a token: it refuses a token with a
    character that is no digit or with more than ten characters; otherwise
    it compares the number, reduced to an [int], with a non-zero ceiling
    and commits it. *)
Lemma unsignedIntValidator_spec (conf : configuration) (key val : string)
    (h : Z) :
  helper_int (helper conf) = Some h ->
  unsignedIntValidator conf key (PStr val)
  = if all_digits val && (strlen val <=? 10)%nat
    then if negb (h =? 0) && (to_int (numeric val) >? h)
         then Ret VALIDATE_WRONG conf
         else Ret VALIDATE_OK (set_target conf (TVal (to_int (numeric val))))
    else Ret VALIDATE_WRONG conf.
Proof.
  intros Hh. unfold unsignedIntValidator. rewrite Hh.
  assert (Hm : (if helper_set (helper conf) then h else 0) = h).
  { destruct (helper conf) as [| z | p]; simpl in *; inversion Hh; subst;
      try reflexivity.
    destruct (h =? 0) eqn:E; simpl; [apply Z.eqb_eq in E; lia | reflexivity]. }
  rewrite Hm.
  destruct (digits_ok val 0) eqn:Ed; simpl.
  - rewrite (atoi_accepted val Ed).
    apply digits_ok_spec in Ed. destruct Ed as [Ha Hl]. rewrite Ha. simpl.
    replace (strlen val <=? 10)%nat with true
      by (symmetry; apply Nat.leb_le; lia).
    reflexivity.
  - destruct (all_digits val) eqn:Ha; simpl; [| reflexivity].
    destruct (strlen val <=? 10)%nat eqn:El; [| reflexivity].
    apply Nat.leb_le in El.
    assert (digits_ok val 0 = true)
      by (apply digits_ok_spec; split; [exact Ha | right; lia]).
    congruence.
Qed.

(** In the range of [int] the committed value is the number itself. *)
Lemma unsignedIntValidator_in_range (conf : configuration)
    (key val : string) (h : Z) :
  helper_int (helper conf) = Some h ->
  all_digits val = true -> (strlen val <= 10)%nat ->
  numeric val <= INT_MAX ->
  unsignedIntValidator conf key (PStr val)
  = if negb (h =? 0) && (numeric val >? h)
    then Ret VALIDATE_WRONG conf
    else Ret VALIDATE_OK (set_target conf (TVal (numeric val))).
Proof.
  intros Hh Ha Hl Hv. rewrite (unsignedIntValidator_spec conf key val h Hh).
  rewrite Ha. replace (strlen val <=? 10)%nat with true
    by (symmetry; now apply Nat.leb_le).
  simpl. rewrite to_int_small; [reflexivity |].
  unfold numeric. destruct (digits_value_bound (cstr val) 0); [lia |].
  unfold INT_MAX in Hv. unfold numeric in Hv. lia.
Qed.

(** C6.  The token [4294967297] has ten digits and passes the loop of the
    validator; [atoi] reduces it to the [int] 1, which is below the
    ceiling 1024 of [worker-number], and 1 is committed although the
    number the token denotes exceeds the ceiling. *)
Theorem unsignedIntValidator_ten_digits_wrap :
  exists conf,
    nth_error (configTable sample) 3 = Some conf /\
    name conf = "worker-number" /\ helper conf = HInt 1024 /\
    numeric "4294967297" = 4294967297 /\
    unsignedIntValidator conf "worker-number" (PStr "4294967297")
    = Ret VALIDATE_OK (set_target conf (TVal 1)).
Proof.
  eexists. split; [reflexivity |]. repeat split.
Qed.

Example worker_number_within_ceiling :
  exists conf,
    getConfiguration
      (match snd (applyConfig sample "worker-number 5" (configTable sample))
       with Loaded confs _ => confs | _ => [] end) "worker-number"
    = Some (3%nat, conf) /\ target conf = TVal 5.
Proof. eexists. split; vm_compute; reflexivity. Qed.

Example worker_number_above_ceiling :
  snd (applyConfig sample "worker-number 5000" (configTable sample))
  = Halted 1 "Validate Failed" (configTable sample).
Proof. vm_compute. reflexivity. Qed.

Example port_above_int_max :
  exists conf,
    getConfiguration
      (match snd (applyConfig sample "port 3000000000" (configTable sample))
       with Loaded confs _ => confs | _ => [] end) "port"
    = Some (2%nat, conf) /\ target conf = TVal (-1294967296).
Proof. eexists. split; vm_compute; reflexivity. Qed.

(* ================================================================== *)
(** ** Tokens and arity *)
(* ================================================================== *)

(** The guard [args == 2] leaves the loop [for (j = 2; j < args; ++j)]
    without an iteration: the tokens are never re-joined. *)
Lemma rejoin_never_runs (argvs : list string) (nargs : nat) :
  (nargs =? 2)%nat = true -> rejoin argvs 2 (nargs - 2) = argvs.
Proof.
  intros H. apply Nat.eqb_eq in H. subst nargs. reflexivity.
Qed.

(** C1.  A line of three or more tokens whose name resolves to an entry of
    another arity is not repaired: the body of the loop ends in the error
    [Incorrect args], and the validator is not called. *)
Theorem extra_tokens_incorrect_args (K : constants) (lines : list string)
    (count i : nat) (confs : list configuration) (k : nat)
    (conf : configuration) :
  let line := wstrStrip (nth i lines "") blanks in
  let argvs := wstrNewSplit line " "%char in
  peek line <> 35 -> peek line <> 0 -> peek line <> 32 ->
  getConfiguration confs (nth 0 argvs "") = Some (k, conf) ->
  (3 <= List.length argvs)%nat ->
  Z.of_nat (List.length argvs) <> args conf ->
  args conf <> WHEAT_ARGS_NO_LIMIT K ->
  loop_body K lines count i confs = LoadErr i "Incorrect args" Plain.
Proof.
  intros line argvs H35 H0 H32 Hget Hlen Hne Hlim. unfold loop_body.
  fold line. apply Z.eqb_neq in H35, H0, H32. rewrite H35, H0, H32.
  cbn [orb]. fold argvs. rewrite Hget.
  replace (List.length argvs =? 1)%nat with false
    by (symmetry; apply Nat.eqb_neq; lia).
  cbn [andb]. apply Z.eqb_neq in Hne, Hlim. rewrite Hne, Hlim. reflexivity.
Qed.

Lemma extra_tokens_incorrect_args_witness :
  loop_body sample ["protocol Http v2"] 1 0 (configTable sample)
  = LoadErr 0 "Incorrect args" Plain.
Proof.
  apply (extra_tokens_incorrect_args sample ["protocol Http v2"] 1 0
           (configTable sample) 0 (nth 0 (configTable sample) nested_conf)).
  - vm_compute. discriminate.
  - vm_compute. discriminate.
  - vm_compute. discriminate.
  - reflexivity.
  - vm_compute. lia.
  - vm_compute. discriminate.
  - vm_compute. discriminate.
Defined.

Example value_with_space_refused :
  snd (applyConfig sample "protocol Http v2" (configTable sample))
  = Halted 1 "Incorrect args" (configTable sample).
Proof. vm_compute. reflexivity. Qed.

(* ================================================================== *)
(** ** List blocks *)
(* ================================================================== *)

Lemma scan_line_spaces (n : nat) (s : string) (v : bool) (l : list string) :
  scan_line (spaces n ++ s) v l = scan_line s v l.
Proof.
  induction n as [| n IH]; simpl; [reflexivity | exact IH].
Qed.

Lemma scan_line_end (n : nat) (v : bool) (l : list string) :
  scan_line (spaces n) v l = Some l.
Proof.
  induction n as [| n IH]; simpl; [reflexivity | exact IH].
Qed.

Lemma scan_line_content (c : ascii) (r : string) (v : bool)
    (l : list string) :
  c <> " "%char -> c <> "-"%char ->
  scan_line (String c r) v l
  = if v then Some (l ++ [wstrNew (String c r)])%list else None.
Proof.
  intros H1 H2. cbn [scan_line].
  apply Ascii.eqb_neq in H1, H2. rewrite H1, H2. reflexivity.
Qed.

Lemma scan_line_marker (r : string) (l : list string) :
  scan_line (String "-"%char r) false l = scan_line r true l.
Proof. reflexivity. Qed.

Lemma scan_line_second_marker (r : string) (l : list string) :
  scan_line (String "-"%char r) true l = None.
Proof. reflexivity. Qed.

Lemma scan_line_item (s : string) (it l : list string) :
  item_line s it -> scan_line s false l = Some (l ++ it)%list.
Proof.
  intros H. destruct H as [n | n m | n m c r Hc1 Hc2].
  - rewrite scan_line_end, app_nil_r. reflexivity.
  - rewrite scan_line_spaces, scan_line_marker.
    rewrite scan_line_end, app_nil_r. reflexivity.
  - rewrite scan_line_spaces, scan_line_marker.
    rewrite scan_line_spaces. now rewrite scan_line_content.
Qed.

Lemma scan_line_malformed (s : string) (l : list string) :
  malformed s -> scan_line s false l = None.
Proof.
  intros [[n [c [r [Hs [H1 H2]]]]] | [n [m [r Hs]]]]; subst s.
  - rewrite scan_line_spaces. now rewrite scan_line_content.
  - rewrite scan_line_spaces, scan_line_marker, scan_line_spaces.
    apply scan_line_second_marker.
Qed.

(** A string is a run of spaces, possibly followed by a character that is
    not a space. *)
Lemma leading_spaces (s : string) :
  exists n, s = spaces n \/
            exists c r, s = spaces n ++ String c r /\ c <> " "%char.
Proof.
  induction s as [| c r [n IH]].
  - exists O. now left.
  - destruct (Ascii.eqb_spec c " "%char) as [E | E].
    + subst c. exists (S n). destruct IH as [IH | [c' [r' [IH Hc]]]].
      * left. simpl. now rewrite IH.
      * right. exists c', r'. simpl. now rewrite IH.
    + exists O. right. exists c, r. auto.
Qed.

(** Every line is either consumed by the block or ends it. *)
Lemma item_or_malformed (s : string) :
  malformed s \/ exists it, item_line s it.
Proof.
  destruct (leading_spaces s) as [n [Hs | [c [r [Hs Hc]]]]]; subst s.
  - right. eexists. apply item_blank.
  - destruct (Ascii.eqb_spec c "-"%char) as [E | E].
    + subst c.
      destruct (leading_spaces r) as [m [Hr | [c' [r' [Hr Hc']]]]]; subst r.
      * right. eexists. apply item_marker.
      * destruct (Ascii.eqb_spec c' "-"%char) as [E' | E'].
        -- subst c'. left. right. now exists n, m, r'.
        -- right. eexists. now apply item_text.
    + left. left. now exists n, c, r.
Qed.

(** The scan of a line fails exactly on the malformed lines. *)
Lemma scan_line_none_iff (s : string) (l : list string) :
  scan_line s false l = None <-> malformed s.
Proof.
  split; [| apply scan_line_malformed].
  intros H. destruct (item_or_malformed s) as [Hm | [it Hi]]; [exact Hm |].
  rewrite (scan_line_item s it l Hi) in H. discriminate.
Qed.

Lemma scan_block_spec (body tail : list string) (items l : list string)
    (pos : nat) :
  block body items ->
  match tail with
  | [] => True
  | t :: _ => malformed (wstrStrip t blanks)
  end ->
  scan_block (body ++ tail) pos l
  = ((l ++ items)%list, (pos + List.length body)%nat).
Proof.
  intros Hb Ht. revert l pos.
  induction Hb as [| ln rest it its Hi Hb IH]; intros l pos.
  - simpl. rewrite app_nil_r, Nat.add_0_r.
    destruct tail as [| t tl]; [reflexivity |].
    simpl. now rewrite (scan_line_malformed _ l Ht).
  - simpl. rewrite (scan_line_item _ it l Hi), IH.
    rewrite <- app_assoc. f_equal. lia.
Qed.

Lemma skipn_past (A : Type) (pre : list A) (x : A) (rest : list A) :
  skipn (S (List.length pre)) (pre ++ x :: rest) = rest.
Proof.
  induction pre as [| y pre IH]; simpl; [reflexivity | exact IH].
Qed.

(** [handleList] on a block: the head line at [i], the lines [body] it
    consumes, and what follows them. *)
Lemma handleList_block (pre : list string) (head : string)
    (body tail items : list string) :
  block body items ->
  match tail with
  | [] => True
  | t :: _ => malformed (wstrStrip t blanks)
  end ->
  let lines := (pre ++ head :: body ++ tail)%list in
  handleList lines (List.length pre) (List.length lines)
  = (items, (List.length pre + List.length body)%nat).
Proof.
  intros Hb Ht lines. unfold handleList.
  rewrite firstn_all. unfold lines. rewrite skipn_past.
  rewrite (scan_block_spec body tail items [] _ Hb Ht). simpl. f_equal. lia.
Qed.

(* ---------------------------------------------------------------- *)
(** *** The position of the line loop *)

Lemma scan_block_pos (rest : list string) (pos : nat) (l : list string) :
  (pos <= snd (scan_block rest pos l))%nat.
Proof.
  revert pos l. induction rest as [| ln rest IH]; intros pos l; simpl.
  - lia.
  - destruct (scan_line (wstrStrip ln blanks) false l) as [l' |]; simpl.
    + specialize (IH (S pos) l'). lia.
    + lia.
Qed.

Lemma handleList_index (lines : list string) (i count : nat) :
  (i <= snd (handleList lines i count))%nat.
Proof.
  unfold handleList.
  pose proof (scan_block_pos (skipn (S i) (firstn count lines)) (S i) []) as H.
  destruct (scan_block (skipn (S i) (firstn count lines)) (S i) [])
    as [l pos].
  simpl in *. lia.
Qed.

(** The body of the loop never moves the position backwards. *)
Lemma loop_body_index (K : constants) (lines : list string) (count i : nat)
    (confs confs1 : list configuration) (i1 : nat) (b : branch) :
  loop_body K lines count i confs = Continue i1 confs1 b -> (i <= i1)%nat.
Proof.
  unfold loop_body.
  destruct ((peek (wstrStrip (nth i lines "") blanks) =? 35)
            || (peek (wstrStrip (nth i lines "") blanks) =? 0)
            || (peek (wstrStrip (nth i lines "") blanks) =? 32)).
  - intros H. inversion H. lia.
  - destruct (getConfiguration confs _) as [[k conf] |]; [| discriminate].
    pose proof (handleList_index lines i count) as Hh.
    destruct (handleList lines i count) as [l i'].
    destruct ((_ =? 1)%nat && is_list_format (format conf)); simpl in *.
    + destruct (_ && _); [discriminate |].
      destruct (call_validator _ _ _) as [[|] c' | u]; try discriminate.
      intros H. inversion H. subst. exact Hh.
    + destruct (negb (_ =? args conf) && _); [discriminate |].
      destruct (call_validator _ _ _) as [[|] c' | u]; try discriminate.
      intros H. inversion H. lia.
Qed.

(** The lines the body runs on lie at or behind the start of the loop. *)
Lemma line_loop_trace_from (K : constants) (fuel : nat)
    (lines : list string) (count i : nat) (confs : list configuration) :
  Forall (fun e => (i <= fst e)%nat)
         (fst (line_loop K fuel lines count i confs)).
Proof.
  revert i confs. induction fuel as [| fuel IH]; intros i confs; simpl.
  - constructor.
  - destruct (count <=? i)%nat.
    + destruct (fillServerConfig confs); constructor.
    + destruct (loop_body K lines count i confs) as [i1 c1 b | i1 e b | u b]
        eqn:E.
      * apply loop_body_index in E. specialize (IH (S i1) c1).
        destruct (line_loop K fuel lines count (S i1) c1) as [tr o].
        simpl in *. constructor; [simpl; lia |].
        eapply Forall_impl; [| exact IH]. simpl. intros a Ha. lia.
      * simpl. constructor; [simpl; lia | constructor].
      * simpl. constructor; [simpl; lia | constructor].
Qed.

(** The loop runs its body on strictly increasing lines: no line is
    handled twice. *)
Lemma line_loop_trace_increasing (K : constants) (fuel : nat)
    (lines : list string) (count i : nat) (confs : list configuration) :
  StronglySorted (fun a b => (fst a < fst b)%nat)
                 (fst (line_loop K fuel lines count i confs)).
Proof.
  revert i confs. induction fuel as [| fuel IH]; intros i confs; simpl.
  - constructor.
  - destruct (count <=? i)%nat.
    + destruct (fillServerConfig confs); constructor.
    + destruct (loop_body K lines count i confs) as [i1 c1 b | i1 e b | u b]
        eqn:E.
      * apply loop_body_index in E.
        pose proof (line_loop_trace_from K fuel lines count (S i1) c1) as Hge.
        specialize (IH (S i1) c1).
        destruct (line_loop K fuel lines count (S i1) c1) as [tr o].
        simpl in *. constructor; [exact IH |].
        eapply Forall_impl; [| exact Hge]. simpl. intros a Ha. lia.
      * simpl. repeat constructor.
      * simpl. repeat constructor.
Qed.

(** Inside the text the loop runs its body on the current line first. *)
Lemma line_loop_head (K : constants) (fuel : nat) (lines : list string)
    (count i : nat) (confs : list configuration) :
  (i < count)%nat ->
  exists b tr o,
    line_loop K (S fuel) lines count i confs = ((i, b) :: tr, o) /\
    Forall (fun e => (i < fst e)%nat) tr.
Proof.
  intros Hi. simpl.
  replace (count <=? i)%nat with false by (symmetry; apply Nat.leb_gt; lia).
  destruct (loop_body K lines count i confs) as [i1 c1 b | i1 e b | u b] eqn:E.
  - apply loop_body_index in E.
    pose proof (line_loop_trace_from K fuel lines count (S i1) c1) as Hge.
    destruct (line_loop K fuel lines count (S i1) c1) as [tr o].
    exists b, tr, o. split; [reflexivity |].
    eapply Forall_impl; [| exact Hge]. simpl. intros a Ha. lia.
  - exists b, [], (Halted (i1 + 1) e confs). split; [reflexivity | constructor].
  - exists b, [], (Aborted u confs). split; [reflexivity | constructor].
Qed.

(** With one unit of fuel per remaining line, and one for the exit, the
    loop comes to an end. *)
Lemma line_loop_terminates (K : constants) (fuel : nat)
    (lines : list string) (count i : nat) (confs : list configuration) :
  (count - i < fuel)%nat ->
  snd (line_loop K fuel lines count i confs) <> Stuck.
Proof.
  revert i confs. induction fuel as [| fuel IH]; intros i confs Hf; [lia |].
  simpl. destruct (count <=? i)%nat eqn:Ec.
  - destruct (fillServerConfig confs); discriminate.
  - apply Nat.leb_gt in Ec.
    destruct (loop_body K lines count i confs) as [i1 c1 b | i1 e b | u b]
      eqn:E; try discriminate.
    apply loop_body_index in E.
    specialize (IH (S i1) c1).
    destruct (line_loop K fuel lines count (S i1) c1) as [tr o].
    simpl in *. apply IH. lia.
Qed.

(** [applyConfig] returns on every text. *)
Lemma applyConfig_terminates (K : constants) (config : string)
    (confs : list configuration) :
  snd (applyConfig K config confs) <> Stuck.
Proof.
  unfold applyConfig. apply line_loop_terminates. lia.
Qed.

(* ---------------------------------------------------------------- *)
(** *** The boundary of a list block *)

Lemma nth_middle_line (pre : list string) (x : string) (rest : list string) :
  nth (List.length pre) (pre ++ x :: rest) "" = x.
Proof.
  induction pre as [| y pre IH]; simpl; [reflexivity | exact IH].
Qed.

(** C5, as the code has it.  A list block is opened by a line [head] that
    holds the name of a list entry only.  When the lines [body] behind it
    are lines of the block with the items [items], and the line [term]
    that follows them is malformed (content in front of the marker, or a
    second marker in front of any content), then [handleList] collects
    [items] in the order of the lines and leaves the position on the last
    line of [body]; the entry receives the list; and the loop runs its
    body next on [term], and behind that only on later lines. *)
Theorem list_block_boundary (K : constants) (pre : list string)
    (head : string) (body : list string) (term : string)
    (post items : list string) (confs : list configuration) (tok : string)
    (k : nat) (conf : configuration) :
  let lines := (pre ++ head :: body ++ term :: post)%list in
  let i := List.length pre in
  let p := (List.length pre + List.length body + 1)%nat in
  let count := List.length lines in
  let line := wstrStrip head blanks in
  peek line <> 35 -> peek line <> 0 -> peek line <> 32 ->
  wstrNewSplit line " "%char = [tok] ->
  getConfiguration confs tok = Some (k, conf) ->
  format conf = LIST_FORMAT ->
  validator conf = FnList ->
  args conf = 1 \/ args conf = WHEAT_ARGS_NO_LIMIT K ->
  block body items ->
  malformed (wstrStrip term blanks) ->
  handleList lines i count = (items, (p - 1)%nat)
  /\ loop_body K lines count i confs
     = Continue (p - 1) (store confs k (set_target conf (TList items)))
                ListBlock
  /\ forall fuel, exists b tr o,
       line_loop K (S (S fuel)) lines count i confs
       = ((i, ListBlock) :: (p, b) :: tr, o)
       /\ Forall (fun e => (p < fst e)%nat) tr.
Proof.
  intros lines i p count line H35 H0 H32 Hsplit Hget Hfmt Hval Hargs
         Hblock Hterm.
  subst line.
  assert (Hn : nth i lines "" = head)
    by (unfold i, lines; apply nth_middle_line).
  assert (Hh : handleList lines i count = (items, (p - 1)%nat)).
  { unfold count, i, p, lines.
    rewrite (handleList_block pre head body (term :: post) items Hblock Hterm).
    f_equal. lia. }
  assert (Hb : loop_body K lines count i confs
               = Continue (p - 1)
                   (store confs k (set_target conf (TList items))) ListBlock).
  { unfold loop_body. cbv zeta. rewrite Hn.
    apply Z.eqb_neq in H35, H0, H32. rewrite H35, H0, H32.
    cbn [orb]. rewrite Hsplit. cbn [List.length nth]. rewrite Hget, Hfmt.
    cbn [Nat.eqb is_list_format andb negb]. rewrite Hh.
    unfold call_validator. rewrite Hval. cbn [listValidator].
    destruct Hargs as [Ha | Ha]; rewrite Ha.
    - reflexivity.
    - rewrite Z.eqb_refl. cbn [negb andb].
      destruct (Z.of_nat 1 =? WHEAT_ARGS_NO_LIMIT K); reflexivity. }
  split; [exact Hh | split; [exact Hb |]].
  intros fuel.
  assert (Hp : (p < count)%nat).
  { unfold p, count, lines. rewrite length_app. simpl.
    rewrite length_app. simpl. lia. }
  destruct (line_loop_head K fuel lines count p
              (store confs k (set_target conf (TList items))) Hp)
    as [b [tr [o [Hl Htr]]]].
  exists b, tr, o. split; [| exact Htr].
  change (line_loop K (S (S fuel)) lines count i confs)
    with (if (count <=? i)%nat
          then match fillServerConfig confs with
               | Some srv => ([], Loaded confs srv)
               | None => ([], Aborted BadPointer confs)
               end
          else match loop_body K lines count i confs with
               | Continue i1 confs1 b1 =>
                   let (tr1, o1) :=
                     line_loop K (S fuel) lines count (S i1) confs1 in
                   ((i, b1) :: tr1, o1)
               | LoadErr i1 err b1 => ([(i, b1)], Halted (i1 + 1) err confs)
               | Fault u b1 => ([(i, b1)], Aborted u confs)
               end).
  replace (count <=? i)%nat with false
    by (symmetry; apply Nat.leb_gt; unfold i, p in *; lia).
  rewrite Hb. replace (S (p - 1)) with p by (unfold p; lia).
  rewrite Hl. reflexivity.
Qed.

Lemma list_block_boundary_witness :
  handleList ["mylist"; "- alpha"; "- beta"; "port 80"] 0 4
  = (["alpha"; "beta"], 2%nat)
  /\ loop_body sample ["mylist"; "- alpha"; "- beta"; "port 80"] 4 0
       (list_entry :: configTable sample)
     = Continue 2
         (store (list_entry :: configTable sample) 0
                (set_target list_entry (TList ["alpha"; "beta"])))
         ListBlock
  /\ forall fuel, exists b tr o,
       line_loop sample (S (S fuel))
         ["mylist"; "- alpha"; "- beta"; "port 80"] 4 0
         (list_entry :: configTable sample)
       = ((0%nat, ListBlock) :: (3%nat, b) :: tr, o)
       /\ Forall (fun e => (3 < fst e)%nat) tr.
Proof.
  apply (list_block_boundary sample [] "mylist" ["- alpha"; "- beta"]
           "port 80" [] ["alpha"; "beta"] (list_entry :: configTable sample)
           "mylist" 0 list_entry).
  - vm_compute. discriminate.
  - vm_compute. discriminate.
  - vm_compute. discriminate.
  - reflexivity.
  - reflexivity.
  - reflexivity.
  - reflexivity.
  - right. reflexivity.
  - exact (block_cons "- alpha" ["- beta"] ["alpha"] ["beta"]
             (item_text 0 1 "a" "lpha" ltac:(discriminate) ltac:(discriminate))
             (block_cons "- beta" [] ["beta"] []
                (item_text 0 1 "b" "eta" ltac:(discriminate)
                   ltac:(discriminate))
                block_nil)).
  - left. exists 0%nat, "p"%char, "ort 80". repeat split; discriminate.
Defined.

(** C5, counterexample.  In the block below the empty third line has no
    marker, so it is the first line behind the head that does not consist
    of spaces, a marker and text; [handleList] consumes it all the same,
    goes on to collect [b], and the loop runs its body next on the fifth
    line: the empty line is not handed back to the line loop. *)
Lemma blank_line_inside_block :
  marker_then_text (wstrStrip "- a" blanks)
  /\ ~ marker_then_text (wstrStrip "" blanks)
  /\ handleList ["mylist"; "- a"; ""; "- b"; "port 80"] 0 5
     = (["a"; "b"], 3%nat)
  /\ fst (applyConfig sample
            ("mylist" ++ newline ++ "- a" ++ newline ++ newline
                      ++ "- b" ++ newline ++ "port 80")
            (list_entry :: configTable sample))
     = [(0%nat, ListBlock); (4%nat, Plain)].
Proof.
  split; [| split; [| split]].
  - exists 0%nat, " a". reflexivity.
  - intros [n [text H]]. destruct n; discriminate.
  - vm_compute. reflexivity.
  - vm_compute. reflexivity.
Qed.

(* ================================================================== *)
(** ** The invariant of the shipped registry *)
(* ================================================================== *)

Lemma ptr_of_int_cases (z : Z) :
  ptr_of_int z = HNull \/ (ptr_of_int z = HInt z /\ z <> 0).
Proof.
  unfold ptr_of_int. destruct (z =? 0) eqn:E; [now left |].
  right. apply Z.eqb_neq in E. auto.
Qed.

Lemma ptr_of_int_string_helper (z : Z) :
  ptr_of_int z = HNull \/ helper_set (ptr_of_int z) = true.
Proof.
  destruct (ptr_of_int_cases z) as [H | [H Hz]]; rewrite H; [now left |].
  right. simpl. apply Z.eqb_neq in Hz. now rewrite Hz.
Qed.

Lemma ptr_of_int_int_helper (z : Z) : helper_int (ptr_of_int z) <> None.
Proof.
  destruct (ptr_of_int_cases z) as [H | [H Hz]]; rewrite H; discriminate.
Qed.

Lemma configTable_ok (K : constants) : registry_ok K (configTable K).
Proof.
  split; [reflexivity | split].
  - unfold configTable.
    repeat (apply Forall_cons;
            [ unfold consistent; cbn [validator format helper];
              first [ apply ptr_of_int_string_helper
                    | apply ptr_of_int_int_helper
                    | now left | discriminate | exact I
                    | eexists; reflexivity ]
            | ]).
    apply Forall_nil.
  - unfold configTable.
    repeat (apply Forall_cons;
            [ unfold kind_ok; cbn [format target helper];
              first [ exact I
                    | split; [reflexivity | do 2 eexists; split; reflexivity] ]
            | ]).
    apply Forall_nil.
Qed.

Lemma set_target_decl (c : configuration) (t : target_t) :
  decl (set_target c t) = decl c.
Proof. reflexivity. Qed.

Lemma set_helper_same (c : configuration) :
  set_helper c (helper c) = c.
Proof. destruct c. reflexivity. Qed.

(** A validator that returns [VALIDATE_OK] leaves the declaration of a
    consistent entry as it is and commits a value of its kind. *)
Lemma call_validator_preserves (conf conf' : configuration) (key : string)
    (val : payload) :
  consistent conf ->
  call_validator conf key val = Ret VALIDATE_OK conf' ->
  decl conf' = decl conf /\ consistent conf' /\ kind_ok conf'.
Proof.
  intros Hc. unfold call_validator, consistent in *.
  destruct (validator conf) eqn:Ev; destruct (format conf) eqn:Ef;
    try contradiction.
  - (* stringValidator *)
    unfold stringValidator. destruct val as [v | l |]; try discriminate.
    assert (H1 : (if ptr_set (target conf) && negb (helper_set (helper conf))
                  then set_helper conf HNull else conf) = conf).
    { destruct Hc as [Hn | Hs].
      - rewrite <- Hn at 1. rewrite set_helper_same.
        now destruct (ptr_set (target conf) && negb (helper_set (helper conf))).
      - rewrite Hs. now rewrite andb_false_r. }
    rewrite H1.
    destruct (_ =? 0); intros H; inversion H; subst;
      (split; [reflexivity |]); unfold consistent, kind_ok; simpl;
      rewrite Ev, Ef; auto.
  - (* unsignedIntValidator *)
    unfold unsignedIntValidator. destruct val as [v | l |]; try discriminate.
    destruct (helper_int (helper conf)) as [h |] eqn:Eh; [| contradiction].
    destruct (negb (digits_ok v 0)); [discriminate |].
    destruct (_ && _); [discriminate |].
    intros H; inversion H; subst.
    split; [reflexivity |]. unfold consistent, kind_ok; simpl.
    rewrite Ev, Ef, Eh. split; [discriminate | exact I].
  - (* enumValidator *)
    unfold enumValidator. destruct val as [v | l |]; try discriminate.
    destruct Hc as [tbl Hh]. rewrite Hh. cbn [arr off at_ skipn].
    destruct (enum_scan v tbl 0) as [[r |] |] eqn:Es; try discriminate.
    intros H; inversion H; subst.
    split; [reflexivity |]. unfold consistent, kind_ok; simpl.
    rewrite Ev, Ef, Hh. split; [eauto |]. split; [reflexivity |].
    apply enum_scan_found in Es.
    destruct Es as [k [e [n [Hr [Hn [He _]]]]]]. simpl in Hr. subst r.
    exists e, n. split; [exact Hn | exact He].
  - (* boolValidator *)
    unfold boolValidator. destruct val as [v | l |]; try discriminate.
    destruct (memcmp (object "on") (object v) (S (strlen v))) as [[| q | q] |];
      try discriminate.
    + intros H; inversion H; subst. split; [reflexivity |].
      unfold consistent, kind_ok; simpl. rewrite Ev, Ef. auto.
    + destruct (memcmp (object "off") (object v) (S (strlen v)))
        as [[| q' | q'] |]; try discriminate.
      intros H; inversion H; subst. split; [reflexivity |].
      unfold consistent, kind_ok; simpl. rewrite Ev, Ef. auto.
    + destruct (memcmp (object "off") (object v) (S (strlen v)))
        as [[| q' | q'] |]; try discriminate.
      intros H; inversion H; subst. split; [reflexivity |].
      unfold consistent, kind_ok; simpl. rewrite Ev, Ef. auto.
Qed.

Lemma getConfiguration_nth (confs : list configuration) (q : string)
    (k : nat) (conf : configuration) :
  getConfiguration confs q = Some (k, conf) -> nth_error confs k = Some conf.
Proof.
  unfold getConfiguration. intros H. apply lookup_from_some in H.
  destruct H as [j [Hk [Hn _]]]. simpl in Hk. now subst j.
Qed.

Lemma store_decl (confs : list configuration) (k : nat)
    (conf conf' : configuration) :
  nth_error confs k = Some conf -> decl conf' = decl conf ->
  map decl (store confs k conf') = map decl confs.
Proof.
  revert k. induction confs as [| c rest IH]; intros k Hn Hd.
  - destruct k; discriminate.
  - destruct k as [| k]; simpl in *.
    + inversion Hn; subst. now rewrite Hd.
    + f_equal. now apply IH.
Qed.

Lemma store_Forall (P : configuration -> Prop) (confs : list configuration)
    (k : nat) (conf' : configuration) :
  Forall P confs -> P conf' -> Forall P (store confs k conf').
Proof.
  intros H Hc. revert k. induction H as [| c rest Hp Hr IH]; intros k.
  - destruct k; constructor.
  - destruct k as [| k]; simpl; constructor; auto.
Qed.

Lemma store_same (confs : list configuration) (k : nat)
    (conf : configuration) :
  nth_error confs k = Some conf -> store confs k conf = confs.
Proof.
  revert k. induction confs as [| c rest IH]; intros k Hn.
  - destruct k; reflexivity.
  - destruct k as [| k]; simpl in *.
    + now inversion Hn.
    + f_equal. now apply IH.
Qed.

Lemma consistent_not_list (c : configuration) :
  consistent c -> is_list_format (format c) = false.
Proof.
  unfold consistent.
  destruct (validator c), (format c); try contradiction; reflexivity.
Qed.

(** On the shipped registry the body of the loop keeps the invariant and
    never takes the way of a list block. *)
Lemma loop_body_registry (K : constants) (lines : list string)
    (count i : nat) (confs : list configuration) :
  registry_ok K confs ->
  match loop_body K lines count i confs with
  | Continue i1 confs1 b => registry_ok K confs1 /\ i1 = i /\ b <> ListBlock
  | LoadErr _ _ b => b <> ListBlock
  | Fault _ b => b <> ListBlock
  end.
Proof.
  intros [Hd [Hc Hk]]. unfold loop_body.
  destruct ((peek (wstrStrip (nth i lines "") blanks) =? 35)
            || (peek (wstrStrip (nth i lines "") blanks) =? 0)
            || (peek (wstrStrip (nth i lines "") blanks) =? 32)).
  - repeat split; auto. discriminate.
  - destruct (getConfiguration confs _) as [[k conf] |] eqn:Eg; [| discriminate].
    apply getConfiguration_nth in Eg.
    assert (Hconf : consistent conf).
    { rewrite Forall_forall in Hc. apply Hc. eapply nth_error_In; eauto. }
    rewrite (consistent_not_list conf Hconf), andb_false_r. cbn [negb andb].
    destruct (negb (_ =? args conf) && negb (_ =? _)); [discriminate |].
    destruct (call_validator conf _ _) as [[|] conf' | u] eqn:Ev;
      try discriminate.
    destruct (call_validator_preserves conf conf' _ _ Hconf Ev)
      as [Hd' [Hc' Hk']].
    split; [| split; [reflexivity | discriminate]].
    split; [| split].
    + rewrite (store_decl confs k conf conf' Eg Hd'). exact Hd.
    + now apply store_Forall.
    + now apply store_Forall.
Qed.

Lemma line_loop_registry (K : constants) (fuel : nat) (lines : list string)
    (count i : nat) (confs : list configuration) :
  registry_ok K confs ->
  Forall (fun e => snd e <> ListBlock)
         (fst (line_loop K fuel lines count i confs))
  /\ forall confs',
       registry_of (snd (line_loop K fuel lines count i confs)) = Some confs' ->
       registry_ok K confs'.
Proof.
  revert i confs. induction fuel as [| fuel IH]; intros i confs Hok; simpl.
  - split; [constructor | discriminate].
  - destruct (count <=? i)%nat.
    + destruct (fillServerConfig confs); simpl;
        (split; [constructor | intros c H; inversion H; subst; exact Hok]).
    + pose proof (loop_body_registry K lines count i confs Hok) as Hb.
      destruct (loop_body K lines count i confs) as [i1 c1 b | i1 e b | u b].
      * destruct Hb as [Hok1 [_ Hb]]. specialize (IH (S i1) c1 Hok1).
        destruct (line_loop K fuel lines count (S i1) c1) as [tr o].
        simpl in *. destruct IH as [IH1 IH2].
        split; [constructor; [exact Hb | exact IH1] | exact IH2].
      * simpl. split; [repeat constructor; exact Hb |].
        intros c H; inversion H; subst; exact Hok.
      * simpl. split; [repeat constructor; exact Hb |].
        intros c H; inversion H; subst; exact Hok.
Qed.

Lemma kind_ok_not_list (c : configuration) (l : list string) :
  consistent c -> kind_ok c -> target c <> TList l.
Proof.
  unfold consistent, kind_ok. intros Hc Hk Ht. rewrite Ht in Hk.
  destruct (validator c), (format c); contradiction.
Qed.

(** C10.  No entry of the shipped table has the list display kind, and on
    every configuration text the loop of [applyConfig] over the shipped
    registry never takes the way of a list block: every line it runs on is
    skipped, fails to resolve, or is handled as a normal line, and the
    registry it leaves behind holds no list value. *)
Theorem shipped_registry_has_no_list_block (K : constants) (config : string) :
  Forall (fun c => format c <> LIST_FORMAT) (configTable K)
  /\ Forall (fun e => snd e <> ListBlock)
            (fst (applyConfig K config (configTable K)))
  /\ exists confs',
       registry_of (snd (applyConfig K config (configTable K))) = Some confs'
       /\ Forall (fun c => forall l, target c <> TList l) confs'.
Proof.
  split; [| split].
  - unfold configTable. repeat (apply Forall_cons; [discriminate |]).
    apply Forall_nil.
  - apply (line_loop_registry K _ _ _ _ _ (configTable_ok K)).
  - pose proof (applyConfig_terminates K config (configTable K)) as Ht.
    destruct (line_loop_registry K
                (S (List.length (wstrNewSplit config (ascii_of_nat 10))))
                (wstrNewSplit config (ascii_of_nat 10))
                (List.length (wstrNewSplit config (ascii_of_nat 10)))
                0 (configTable K) (configTable_ok K)) as [_ H].
    unfold applyConfig in *.
    destruct (snd (line_loop K _ _ _ 0 (configTable K))) as [c s | n e c | u c |]
      eqn:Eo; [| | | contradiction];
      (exists c; split; [reflexivity |]);
      destruct (H c eq_refl) as [_ [Hc Hk]];
      rewrite Forall_forall in *; intros x Hx l;
      apply kind_ok_not_list; auto.
Qed.

(* ================================================================== *)
(** ** The flat structure and the check behind the load *)
(* ================================================================== *)

Lemma index_of_from (names : list string) (q : string) (i k : nat) :
  index_of names q i = Some k -> (i <= k)%nat.
Proof.
  revert i. induction names as [| n rest IH]; intros i; simpl.
  - discriminate.
  - destruct (_ =? 0).
    + intros H. inversion H. lia.
    + intros H. apply IH in H. lia.
Qed.

Lemma lookup_from_index (confs : list configuration) (q : string) (i : nat) :
  lookup_from confs q i
  = match index_of (map name confs) q i with
    | Some k =>
        match nth_error confs (k - i) with
        | Some c => Some (k, c)
        | None => None
        end
    | None => None
    end.
Proof.
  revert i. induction confs as [| c rest IH]; intros i; simpl.
  - reflexivity.
  - destruct (_ =? 0).
    + now rewrite Nat.sub_diag.
    + rewrite IH. destruct (index_of (map name rest) q (S i)) as [k |] eqn:E;
        [| reflexivity].
      apply index_of_from in E.
      replace (k - i)%nat with (S (k - S i)) by lia. reflexivity.
Qed.

Lemma registry_names (K : constants) (confs : list configuration) :
  registry_ok K confs -> map name confs = map name (configTable K).
Proof.
  intros [Hd _].
  assert (H : forall l, map name l
                        = map (fun d => fst (fst (fst (fst d)))) (map decl l)).
  { intros l. rewrite map_map. reflexivity. }
  rewrite (H confs), (H (configTable K)), Hd. reflexivity.
Qed.

Lemma line_loop_loaded (K : constants) (fuel : nat) (lines : list string)
    (count i : nat) (confs confs' : list configuration) (srv : globalServer) :
  snd (line_loop K fuel lines count i confs) = Loaded confs' srv ->
  fillServerConfig confs' = Some srv.
Proof.
  revert i confs. induction fuel as [| fuel IH]; intros i confs; simpl.
  - discriminate.
  - destruct (count <=? i)%nat.
    + destruct (fillServerConfig confs) eqn:E; simpl; [| discriminate].
      intros H. inversion H; subst. exact E.
    + destruct (loop_body K lines count i confs) as [i1 c1 b | i1 e b | u b];
        try discriminate.
      specialize (IH (S i1) c1).
      destruct (line_loop K fuel lines count (S i1) c1) as [tr o].
      exact IH.
Qed.

Lemma target_ptr_some (c : configuration) (p : option string) :
  target_ptr c = Some p -> target c = TPtr p.
Proof.
  unfold target_ptr. destruct (target c); intros H; inversion H. reflexivity.
Qed.

Lemma target_val_some (c : configuration) (v : Z) :
  target_val c = Some v -> target c = TVal v.
Proof.
  unfold target_val. destruct (target c); intros H; inversion H. reflexivity.
Qed.

Lemma target_enum_some (c : configuration) (e : enumIdName) :
  target_enum c = Some e -> exists p, target c = TEnum p /\ deref p = Some e.
Proof.
  unfold target_enum. destruct (target c); intros H; try discriminate. eauto.
Qed.

(** The lookup of a name of the shipped table in a state of the registry
    whose names are those of the table. *)
Ltac lookup_name Hnames :=
  unfold value_of, getConfiguration;
  rewrite lookup_from_index, Hnames;
  match goal with
  | |- context [index_of ?l ?q 0] =>
      let r := eval vm_compute in (index_of l q 0) in
      change (index_of l q 0) with r
  end;
  cbv beta iota; cbn [Nat.sub].

(** C9, as the code has it.  After a successful [applyConfig] on the
    shipped registry, every field that [fillServerConfig] assigns holds
    the value the registry has under the name of its entry (these are the
    entries behind [protocol]), and [loadConfigFile] goes on exactly when
    the refresh interval is below the worker timeout and both ports are
    non-zero; otherwise the [ASSERT] ends the process. *)
Theorem server_filled_and_checked (K : constants)
    (file options : option string) (confs0 confs : list configuration)
    (srv : globalServer) :
  registry_ok K confs0 ->
  snd (applyConfig K (config_text file options) confs0) = Loaded confs srv ->
  (value_of confs "bind-addr" = Some (TPtr (bind_addr srv))
   /\ value_of confs "port" = Some (TVal (port srv))
   /\ value_of confs "worker-number" = Some (TVal (worker_number srv))
   /\ (exists p e, value_of confs "worker-type" = Some (TEnum p)
                   /\ deref p = Some e /\ worker_type srv = e_name e)
   /\ value_of confs "logfile" = Some (TPtr (logfile srv))
   /\ (exists p e, value_of confs "logfile-level" = Some (TEnum p)
                   /\ deref p = Some e /\ verbose srv = id e)
   /\ value_of confs "daemon" = Some (TVal (daemon srv))
   /\ value_of confs "pidfile" = Some (TPtr (pidfile srv))
   /\ value_of confs "max-buffer-size" = Some (TVal (max_buffer_size srv))
   /\ value_of confs "stat-bind-addr" = Some (TPtr (stat_addr srv))
   /\ value_of confs "stat-port" = Some (TVal (stat_port srv))
   /\ value_of confs "stat-refresh-time"
      = Some (TVal (stat_refresh_seconds srv))
   /\ value_of confs "stat-file" = Some (TPtr (stat_file srv))
   /\ value_of confs "timeout-seconds" = Some (TVal (worker_timeout srv))
   /\ value_of confs "mbuf-size" = Some (TVal (mbuf_size srv)))
  /\ ((stat_refresh_seconds srv < worker_timeout srv
       /\ port srv <> 0 /\ stat_port srv <> 0) ->
      loadConfigFile K file options confs0 = Loaded confs srv)
  /\ (~ (stat_refresh_seconds srv < worker_timeout srv
         /\ port srv <> 0 /\ stat_port srv <> 0) ->
      loadConfigFile K file options confs0 = Aborted AssertFailed confs).
Proof.
  intros Hok Hload.
  assert (Hok' : registry_ok K confs).
  { unfold applyConfig in Hload.
    eapply (proj2 (line_loop_registry K _ _ _ _ _ Hok)).
    rewrite Hload. reflexivity. }
  pose proof (registry_names K confs Hok') as Hnames.
  change (map name (configTable K))
    with ["protocol"; "bind-addr"; "port"; "worker-number"; "worker-type";
          "logfile"; "logfile-level"; "daemon"; "pidfile"; "max-buffer-size";
          "stat-bind-addr"; "stat-port"; "stat-refresh-time"; "stat-file";
          "timeout-seconds"; "mbuf-size"] in Hnames.
  assert (Hfill : fillServerConfig confs = Some srv)
    by (unfold applyConfig in Hload; eapply line_loop_loaded; eauto).
  split; [| split].
  - unfold fillServerConfig in Hfill.
    repeat match type of Hfill with
    | match ?e with Some _ => _ | None => None end = Some _ =>
        let E := fresh "E" in destruct e eqn:E; [| discriminate Hfill]
    end.
    inversion Hfill; subst srv; clear Hfill. cbn [bind_addr port worker_number
      worker_type logfile verbose daemon pidfile max_buffer_size stat_addr
      stat_port stat_refresh_seconds stat_file worker_timeout mbuf_size].
    repeat match goal with
    | H : target_ptr _ = Some _ |- _ => apply target_ptr_some in H
    | H : target_val _ = Some _ |- _ => apply target_val_some in H
    | H : target_enum _ = Some _ |- _ =>
        apply target_enum_some in H; destruct H as [? [? ?]]
    end.
    repeat split;
      try (lookup_name Hnames;
           match goal with
           | H : nth_error confs ?k = Some ?c |- context [nth_error confs ?k] =>
               rewrite H
           end; congruence).
    + eexists _, _.
      split;
        [ lookup_name Hnames;
          match goal with
          | H : nth_error confs ?k = Some ?c
            |- context [nth_error confs ?k] => rewrite H
          end; f_equal; eassumption
        | split; [eassumption | reflexivity] ].
    + eexists _, _.
      split;
        [ lookup_name Hnames;
          match goal with
          | H : nth_error confs ?k = Some ?c
            |- context [nth_error confs ?k] => rewrite H
          end; f_equal; eassumption
        | split; [eassumption | reflexivity] ].
  - intros [H1 [H2 H3]]. unfold loadConfigFile. cbv zeta. rewrite Hload.
    unfold extraValidator.
    apply Z.ltb_lt in H1. apply Z.eqb_neq in H2, H3. rewrite H1, H2, H3.
    reflexivity.
  - intros Hn. unfold loadConfigFile. cbv zeta. rewrite Hload.
    unfold extraValidator.
    destruct (stat_refresh_seconds srv <? worker_timeout srv) eqn:E1;
      [| reflexivity].
    destruct (port srv =? 0) eqn:E2; [reflexivity |].
    destruct (stat_port srv =? 0) eqn:E3; [reflexivity |].
    exfalso. apply Hn. apply Z.ltb_lt in E1. apply Z.eqb_neq in E2, E3. auto.
Qed.

Lemma server_filled_and_checked_witness :
  loadConfigFile sample (Some refresh_above_timeout) None (configTable sample)
  = Aborted AssertFailed refresh_above_timeout_registry.
Proof.
  refine (proj2 (proj2 (server_filled_and_checked sample
            (Some refresh_above_timeout) None (configTable sample)
            refresh_above_timeout_registry refresh_above_timeout_server
            (configTable_ok sample) _)) _).
  - vm_compute. reflexivity.
  - vm_compute. intros [H _]. discriminate H.
Defined.

(** C9, counterexample.  Two loads that commit different values for
    [protocol] fill the same flat structure: the value of [protocol] is
    not copied. *)
Lemma protocol_value_not_copied :
  exists confs1 confs2 srv,
    snd (applyConfig sample "protocol Foo" (configTable sample))
    = Loaded confs1 srv
    /\ snd (applyConfig sample "protocol Bar" (configTable sample))
       = Loaded confs2 srv
    /\ value_of confs1 "protocol" = Some (TPtr (Some "Foo"))
    /\ value_of confs2 "protocol" = Some (TPtr (Some "Bar")).
Proof.
  do 3 eexists.
  split; [vm_compute; reflexivity |].
  split; [vm_compute; reflexivity |].
  split; vm_compute; reflexivity.
Qed.

(* ================================================================== *)
(** ** A text of one line *)
(* ================================================================== *)

Lemma string_length_app (a b : string) :
  String.length (a ++ b) = (String.length a + String.length b)%nat.
Proof.
  induction a as [| c a IH]; simpl; [reflexivity | now rewrite IH].
Qed.

Lemma string_app_assoc (a b c : string) : (a ++ b) ++ c = a ++ (b ++ c).
Proof.
  induction a as [| x a IH]; simpl; [reflexivity | now rewrite IH].
Qed.

Lemma substring_whole (s : string) (n : nat) :
  (String.length s <= n)%nat -> substring 0 n s = s.
Proof.
  revert n. induction s as [| c s IH]; intros n H; simpl.
  - destruct n; reflexivity.
  - destruct n as [| n]; simpl in *; [lia |]. f_equal. apply IH. lia.
Qed.

Lemma substring_behind (a b : string) :
  substring (String.length a) (String.length b) (a ++ b) = b.
Proof.
  induction a as [| c a IH]; simpl.
  - apply substring_whole. lia.
  - exact IH.
Qed.

Lemma strlen_cstr (s : string) : strlen s = String.length (cstr s).
Proof.
  induction s as [| c s IH]; simpl; [reflexivity |].
  destruct (code c =? 0); simpl; [reflexivity | now rewrite IH].
Qed.

Lemma cstr_nul_free (s : string) : nul_free s = true -> cstr s = s.
Proof.
  unfold nul_free. induction s as [| c s IH]; simpl; [reflexivity |].
  intros H. apply andb_true_iff in H. destruct H as [H1 H2].
  destruct (code c =? 0); [discriminate |]. now rewrite IH.
Qed.

(** The value behind the name in a formatted line. *)
Lemma formatted_value_behind (conf : configuration) (v : string) :
  formatted_value conf (cstr (name conf) ++ ": " ++ v) = v.
Proof.
  unfold formatted_value. rewrite strlen_cstr.
  rewrite <- string_app_assoc.
  replace (String.length (cstr (name conf)) + 2)%nat
    with (String.length (cstr (name conf) ++ ": "))
    by (rewrite string_length_app; reflexivity).
  rewrite (string_length_app (cstr (name conf) ++ ": ") v).
  replace (String.length (cstr (name conf) ++ ": ") + String.length v
           - String.length (cstr (name conf) ++ ": "))%nat
    with (String.length v) by lia.
  apply substring_behind.
Qed.

Lemma pieces_no_sep (sep : ascii) (s : string) :
  no_char sep s = true -> pieces sep s = (s, []).
Proof.
  unfold no_char. induction s as [| c s IH]; simpl; [reflexivity |].
  intros H. apply andb_true_iff in H. destruct H as [H1 H2].
  rewrite (IH H2). destruct (Ascii.eqb c sep); [discriminate | reflexivity].
Qed.

Lemma pieces_app_sep (sep : ascii) (a b : string) :
  no_char sep a = true ->
  pieces sep (a ++ String sep b)
  = (a, fst (pieces sep b) :: snd (pieces sep b)).
Proof.
  unfold no_char. induction a as [| c a IH]; simpl.
  - intros _. destruct (pieces sep b) as [t ts]. now rewrite Ascii.eqb_refl.
  - intros H. apply andb_true_iff in H. destruct H as [H1 H2].
    rewrite (IH H2). destruct (Ascii.eqb c sep); [discriminate | reflexivity].
Qed.

Lemma no_char_app (c : ascii) (a b : string) :
  no_char c (a ++ b) = no_char c a && no_char c b.
Proof.
  unfold no_char. induction a as [| x a IH]; simpl; [reflexivity |].
  now rewrite IH, andb_assoc.
Qed.

Lemma rstrip_app (cset a b : string) :
  nonempty b = true -> rstrip cset b = b -> rstrip cset (a ++ b) = a ++ b.
Proof.
  intros Hn Hb. induction a as [| c a IH]; simpl; [exact Hb |].
  rewrite IH. destruct (a ++ b) eqn:E; [| reflexivity].
  destruct a; simpl in E; [subst b; discriminate | discriminate].
Qed.

(** The text [nm v] of one line splits into that line, and the line into
    its two tokens. *)
Lemma one_line_tokens (nm v : string) :
  name_ok nm = true -> token_ok v = true ->
  let line := nm ++ String " "%char v in
  wstrNewSplit line (ascii_of_nat 10) = [line]
  /\ wstrStrip line blanks = line
  /\ peek line <> 35 /\ peek line <> 0 /\ peek line <> 32
  /\ wstrNewSplit line " "%char = [nm; v].
Proof.
  intros Hn Hv line. unfold name_ok in Hn. unfold token_ok in Hv.
  apply andb_true_iff in Hn. destruct Hn as [Hn Hnul].
  apply andb_true_iff in Hn. destruct Hn as [Hn Hnnl].
  apply andb_true_iff in Hn. destruct Hn as [Hn Hnsp].
  apply andb_true_iff in Hv. destruct Hv as [Hv Hvr].
  apply andb_true_iff in Hv. destruct Hv as [Hv Hvnl].
  apply andb_true_iff in Hv. destruct Hv as [Hvne Hvsp].
  destruct nm as [| c nm]; [discriminate |].
  apply andb_true_iff in Hn. destruct Hn as [Hb H35].
  apply negb_true_iff in Hb, H35.
  apply String.eqb_eq in Hvr.
  assert (Hnl : no_char (ascii_of_nat 10) line = true).
  { unfold line. rewrite no_char_app.
    change (String " "%char v) with (" " ++ v). rewrite no_char_app.
    rewrite Hnnl, Hvnl. reflexivity. }
  split; [| split; [| split; [| split; [| split]]]].
  - unfold wstrNewSplit. unfold line at 1. cbn [append].
    fold (append (String c nm) (String " "%char v)). fold line.
    now rewrite (pieces_no_sep _ line Hnl).
  - unfold wstrStrip. unfold line. cbn [append lstrip]. rewrite Hb.
    change (String c (nm ++ String " "%char v))
      with (String c nm ++ (" " ++ v)).
    rewrite <- string_app_assoc. apply rstrip_app; assumption.
  - unfold line. simpl. now apply Z.eqb_neq.
  - unfold line. simpl. unfold nul_free in Hnul. simpl in Hnul.
    apply andb_true_iff in Hnul. destruct Hnul as [H _].
    apply negb_true_iff in H. now apply Z.eqb_neq.
  - unfold line. simpl. unfold no_char in Hnsp. simpl in Hnsp.
    apply andb_true_iff in Hnsp. destruct Hnsp as [H _].
    apply negb_true_iff in H. apply Ascii.eqb_neq in H.
    intros Hc. apply H.
    rewrite <- (ascii_nat_embedding c), <- (ascii_nat_embedding " "%char).
    f_equal. unfold code in Hc.
    change (nat_of_ascii " "%char) with 32%nat. lia.
  - unfold wstrNewSplit. unfold line at 1. cbn [append]. unfold line.
    rewrite (pieces_app_sep _ (String c nm) v Hnsp).
    now rewrite (pieces_no_sep _ v Hvsp).
Qed.

Lemma line_loop_unfold (K : constants) (fuel : nat) (lines : list string)
    (count i : nat) (confs : list configuration) :
  line_loop K (S fuel) lines count i confs
  = if (count <=? i)%nat then
      match fillServerConfig confs with
      | Some srv => ([], Loaded confs srv)
      | None => ([], Aborted BadPointer confs)
      end
    else
      match loop_body K lines count i confs with
      | Continue i1 confs1 b =>
          let (tr, o) := line_loop K fuel lines count (S i1) confs1 in
          ((i, b) :: tr, o)
      | LoadErr i1 err b => ([(i, b)], Halted (i1 + 1) err confs)
      | Fault u b => ([(i, b)], Aborted u confs)
      end.
Proof. reflexivity. Qed.

(** The load of a text of one line [nm v] whose name resolves to an entry
    of arity 2: the validator of the entry decides. *)
Lemma apply_one_line (K : constants) (confs : list configuration)
    (nm v : string) (k : nat) (conf : configuration) :
  name_ok nm = true -> token_ok v = true ->
  getConfiguration confs nm = Some (k, conf) ->
  args conf = 2 ->
  applyConfig K (nm ++ String " "%char v) confs
  = match call_validator conf nm (PStr v) with
    | Ret VALIDATE_OK conf' =>
        ([(0%nat, Plain)],
         match fillServerConfig (store confs k conf') with
         | Some srv => Loaded (store confs k conf') srv
         | None => Aborted BadPointer (store confs k conf')
         end)
    | Ret VALIDATE_WRONG _ => ([(0%nat, Plain)], Halted 1 "Validate Failed" confs)
    | Undef u => ([(0%nat, Plain)], Aborted u confs)
    end.
Proof.
  intros Hn Hv Hget Hargs.
  destruct (one_line_tokens nm v Hn Hv) as [Hl [Hs [H35 [H0 [H32 Ht]]]]].
  unfold applyConfig. rewrite Hl. cbn [List.length].
  rewrite line_loop_unfold. cbn [Nat.leb].
  assert (Hb : loop_body K [nm ++ String " "%char v] 1 0 confs
               = match call_validator conf nm (PStr v) with
                 | Ret VALIDATE_OK conf' => Continue 0 (store confs k conf') Plain
                 | Ret VALIDATE_WRONG _ => LoadErr 0 "Validate Failed" Plain
                 | Undef u => Fault u Plain
                 end).
  { unfold loop_body. cbv zeta. cbn [nth]. rewrite Hs.
    apply Z.eqb_neq in H35, H0, H32. rewrite H35, H0, H32. cbn [orb].
    rewrite Ht. cbn [List.length nth nth_error]. rewrite Hget.
    cbn [Nat.eqb andb negb]. rewrite Hargs.
    change (Z.of_nat 2 =? 2) with true. cbn [negb andb]. reflexivity. }
  rewrite Hb.
  destruct (call_validator conf nm (PStr v)) as [[|] conf' | u];
    try reflexivity.
  rewrite line_loop_unfold. cbn [Nat.leb].
  destruct (fillServerConfig (store confs k conf')); reflexivity.
Qed.

Lemma set_target_same (c : configuration) : set_target c (target c) = c.
Proof. destruct c. reflexivity. Qed.

(** The string validator on the string an entry holds. *)
Lemma stringValidator_same (conf : configuration) (key s : string) :
  helper conf = HNull \/ helper_set (helper conf) = true ->
  target conf = TPtr (Some s) ->
  nul_free s = true ->
  strncasecmp s WHEAT_STR_NULL (sizeof_literal WHEAT_STR_NULL) <> 0 ->
  stringValidator conf key (PStr s) = Ret VALIDATE_OK conf.
Proof.
  intros Hh Ht Hs Hnull. unfold stringValidator.
  assert (H1 : (if ptr_set (target conf) && negb (helper_set (helper conf))
                then set_helper conf HNull else conf) = conf).
  { destruct Hh as [Hn | Hset].
    - rewrite <- Hn at 1. rewrite set_helper_same.
      now destruct (ptr_set (target conf) && negb (helper_set (helper conf))).
    - rewrite Hset. now rewrite andb_false_r. }
  rewrite H1. apply Z.eqb_neq in Hnull. rewrite Hnull.
  rewrite (cstr_nul_free s Hs), <- Ht, set_target_same. reflexivity.
Qed.

(** The enum validator on the name of the entry an enum value points at. *)
Lemma enumValidator_same (conf : configuration) (key n : string)
    (tbl : list enumIdName) (i : nat) :
  helper conf = HEnum (at_ tbl 0) ->
  target conf = TEnum (at_ tbl i) ->
  enum_scan n tbl 0 = Some (Some i) ->
  enumValidator conf key (PStr n) = Ret VALIDATE_OK conf.
Proof.
  intros Hh Ht Hs. unfold enumValidator. rewrite Hh.
  cbn [arr off at_ skipn]. rewrite Hs, <- Ht, set_target_same. reflexivity.
Qed.

(* ---------------------------------------------------------------- *)
(** *** Decimal digits *)

Lemma code_digit (n : Z) :
  code (ascii_of_nat (Z.to_nat (48 + n mod 10))) = 48 + n mod 10.
Proof.
  pose proof (Z.mod_pos_bound n 10 ltac:(lia)) as H.
  unfold code. rewrite nat_ascii_embedding; lia.
Qed.

Lemma decimal_app (fuel : nat) (n : Z) (acc : string) :
  decimal fuel n acc = decimal fuel n "" ++ acc.
Proof.
  revert n acc. induction fuel as [| f IH]; intros n acc; simpl.
  - reflexivity.
  - destruct (n / 10 =? 0); [reflexivity |].
    rewrite (IH (n / 10) (String _ acc)), (IH (n / 10) (String _ "")).
    rewrite string_app_assoc. reflexivity.
Qed.

Lemma list_ascii_app (a b : string) :
  list_ascii_of_string (a ++ b)
  = (list_ascii_of_string a ++ list_ascii_of_string b)%list.
Proof.
  induction a as [| c a IH]; simpl; [reflexivity | now rewrite IH].
Qed.

Lemma digit_string_app (a b : string) :
  digit_string (a ++ b) = digit_string a && digit_string b.
Proof.
  unfold digit_string. rewrite list_ascii_app. apply forallb_app.
Qed.

Lemma decimal_digits (fuel : nat) (n : Z) :
  digit_string (decimal fuel n "") = true.
Proof.
  revert n. induction fuel as [| f IH]; intros n; [reflexivity |].
  cbn [decimal]. cbv zeta.
  assert (Hd : isdigit (code (ascii_of_nat (Z.to_nat (48 + n mod 10)))) = true).
  { rewrite code_digit. apply isdigit_range.
    pose proof (Z.mod_pos_bound n 10 ltac:(lia)). lia. }
  destruct (n / 10 =? 0).
  - unfold digit_string. cbn [list_ascii_of_string forallb]. now rewrite Hd.
  - rewrite decimal_app, digit_string_app, IH.
    unfold digit_string. cbn [list_ascii_of_string forallb]. now rewrite Hd.
Qed.

Lemma decimal_nonempty (fuel : nat) (n : Z) :
  nonempty (decimal (S fuel) n "") = true.
Proof.
  cbn [decimal]. cbv zeta. destruct (n / 10 =? 0); [reflexivity |].
  rewrite decimal_app. destruct (decimal fuel (n / 10) ""); reflexivity.
Qed.

Lemma decimal_length (fuel : nat) (n : Z) :
  (String.length (decimal fuel n "") <= fuel)%nat.
Proof.
  revert n. induction fuel as [| f IH]; intros n; [simpl; lia |].
  cbn [decimal]. cbv zeta. destruct (n / 10 =? 0); [simpl; lia |].
  rewrite decimal_app, string_length_app. cbn [String.length].
  specialize (IH (n / 10)). lia.
Qed.

Lemma digits_value_app (a b : string) (acc : Z) :
  digit_string a = true ->
  digits_value (a ++ b) acc = digits_value b (digits_value a acc).
Proof.
  unfold digit_string. revert acc.
  induction a as [| c a IH]; intros acc H; simpl in *; [reflexivity |].
  apply andb_true_iff in H. destruct H as [H1 H2]. rewrite H1. now apply IH.
Qed.

(** Reading the decimal digits of a number gives the number back. *)
Lemma decimal_value (fuel : nat) (n : Z) :
  0 <= n < 10 ^ Z.of_nat fuel ->
  digits_value (decimal fuel n "") 0 = n.
Proof.
  revert n. induction fuel as [| f IH]; intros n Hn.
  - simpl in *. lia.
  - rewrite Nat2Z.inj_succ, Z.pow_succ_r in Hn by lia.
    cbn [decimal]. cbv zeta.
    pose proof (Z.div_mod n 10 ltac:(lia)) as Hdm.
    pose proof (Z.mod_pos_bound n 10 ltac:(lia)) as Hm.
    assert (Hd : isdigit (code (ascii_of_nat (Z.to_nat (48 + n mod 10)))) = true)
      by (rewrite code_digit; apply isdigit_range; lia).
    destruct (n / 10 =? 0) eqn:E.
    + apply Z.eqb_eq in E. cbn [digits_value]. rewrite Hd, code_digit. lia.
    + rewrite decimal_app, digits_value_app by apply decimal_digits.
      rewrite IH. 2:{ split; [apply Z.div_pos; lia |].
                      apply Z.div_lt_upper_bound; lia. }
      cbn [digits_value]. rewrite Hd, code_digit. lia.
Qed.

Lemma digit_plain (c : ascii) :
  isdigit (code c) = true ->
  in_cset blanks c = false /\ Ascii.eqb c " "%char = false
  /\ Ascii.eqb c (ascii_of_nat 10) = false /\ (code c =? 0) = false.
Proof.
  intros H.
  assert (Hx : forall x, isdigit (code x) = false -> Ascii.eqb c x = false).
  { intros x Hx. apply Ascii.eqb_neq. intros E. subst x. congruence. }
  repeat split.
  - unfold in_cset, blanks. cbn [list_ascii_of_string existsb].
    rewrite !Hx by reflexivity. reflexivity.
  - now apply Hx.
  - now apply Hx.
  - apply isdigit_range in H. apply Z.eqb_neq. lia.
Qed.

Lemma digit_string_rstrip (s : string) :
  digit_string s = true -> rstrip blanks s = s.
Proof.
  unfold digit_string. induction s as [| c s IH]; [reflexivity |].
  cbn [list_ascii_of_string forallb rstrip]. intros H.
  apply andb_true_iff in H. destruct H as [H1 H2].
  rewrite (IH H2). destruct (digit_plain c H1) as [Hb _]. rewrite Hb.
  destruct s; reflexivity.
Qed.

(** A non-empty string of digits is a value token without NUL. *)
Lemma digit_string_token (s : string) :
  digit_string s = true -> nonempty s = true ->
  token_ok s = true /\ nul_free s = true.
Proof.
  intros Hd Hn.
  assert (H : no_char " " s = true /\ no_char (ascii_of_nat 10) s = true
              /\ nul_free s = true).
  { clear Hn. unfold digit_string, no_char, nul_free in *.
    induction s as [| c s IH]; [repeat split |].
    cbn [list_ascii_of_string forallb] in *.
    apply andb_true_iff in Hd. destruct Hd as [H1 H2].
    destruct (IH H2) as [I1 [I2 I3]].
    destruct (digit_plain c H1) as [_ [E1 [E2 E3]]].
    rewrite E1, E2, E3, I1, I2, I3. repeat split. }
  destruct H as [H1 [H2 H3]]. split; [| exact H3].
  unfold token_ok. rewrite Hn, H1, H2, (digit_string_rstrip s Hd).
  now rewrite String.eqb_refl.
Qed.

Lemma fmt_d_nonneg (x : Z) : 0 <= x -> fmt_d x = decimal 10 x "".
Proof.
  intros H. unfold fmt_d.
  destruct (x <? 0) eqn:E; [apply Z.ltb_lt in E; lia | reflexivity].
Qed.

(** The integer validator on the decimal text of the number an entry
    holds. *)
Lemma unsignedIntValidator_same (conf : configuration) (key : string)
    (x h : Z) :
  helper_int (helper conf) = Some h ->
  target conf = TVal x ->
  0 <= x <= INT_MAX ->
  h = 0 \/ x <= h ->
  unsignedIntValidator conf key (PStr (fmt_d x)) = Ret VALIDATE_OK conf.
Proof.
  intros Hh Ht Hx Hc. rewrite (fmt_d_nonneg x) by lia.
  pose proof (decimal_digits 10 x) as Hd.
  destruct (digit_string_token _ Hd (decimal_nonempty 9 x)) as [_ Hnul].
  pose proof (cstr_nul_free _ Hnul) as Hcs.
  assert (Hv : numeric (decimal 10 x "") = x).
  { unfold numeric. rewrite Hcs. apply decimal_value.
    unfold INT_MAX in Hx. simpl. lia. }
  rewrite (unsignedIntValidator_in_range conf key _ h Hh).
  - rewrite Hv.
    replace (negb (h =? 0) && (x >? h)) with false.
    + rewrite <- Ht, set_target_same. reflexivity.
    + symmetry. destruct Hc as [Hc | Hc].
      * subst h. reflexivity.
      * apply andb_false_iff. right. rewrite Z.gtb_ltb. apply Z.ltb_ge. lia.
  - unfold all_digits. rewrite Hcs. exact Hd.
  - rewrite strlen_cstr, Hcs. apply decimal_length.
  - rewrite Hv. lia.
Qed.

Lemma snprintf_fits (len : nat) (out : string) (ret : Z) (buf : string) :
  snprintf len out = (ret, buf) -> ret < Z.of_nat len -> buf = out.
Proof.
  unfold snprintf. intros H Hr. inversion H; subst.
  apply substring_whole. lia.
Qed.

(* ================================================================== *)
(** ** Formatting a value and loading it again *)
(* ================================================================== *)

Lemma registry_entry (K : constants) (confs : list configuration) (k : nat)
    (conf : configuration) :
  registry_ok K confs -> nth_error confs k = Some conf ->
  exists c0, nth_error (configTable K) k = Some c0 /\ decl conf = decl c0
             /\ consistent conf /\ kind_ok conf.
Proof.
  intros [Hd [Hc Hk]] Hn.
  assert (H : nth_error (map decl (configTable K)) k = Some (decl conf))
    by (rewrite <- Hd; now apply map_nth_error).
  rewrite nth_error_map in H.
  destruct (nth_error (configTable K) k) as [c0 |]; [| discriminate].
  simpl in H. assert (Hdecl : decl conf = decl c0) by congruence.
  exists c0. rewrite Forall_forall in Hc, Hk.
  split; [reflexivity |]. split; [exact Hdecl |].
  split; [apply Hc | apply Hk]; eapply nth_error_In; eauto.
Qed.

Lemma registry_has_entry (K : constants) (confs : list configuration)
    (k : nat) (c0 : configuration) :
  registry_ok K confs -> nth_error (configTable K) k = Some c0 ->
  exists conf, nth_error confs k = Some conf /\ decl conf = decl c0
               /\ kind_ok conf.
Proof.
  intros Hok Hn. pose proof Hok as [Hd _].
  assert (H : nth_error (map decl confs) k = Some (decl c0))
    by (rewrite Hd; now apply map_nth_error).
  rewrite nth_error_map in H.
  destruct (nth_error confs k) as [conf |] eqn:E; [| discriminate].
  simpl in H. assert (Hdecl : decl conf = decl c0) by congruence.
  exists conf.
  destruct (registry_entry K confs k conf Hok E) as [c1 [_ [_ [_ Hk]]]].
  auto.
Qed.

(** The declared fields of an entry, from the equation of its
    declaration with that of an entry of the table. *)
Ltac declared H :=
  unfold decl in H; cbn [name args validator helper format] in H;
  injection H as ? ? ? ? ?.

Lemma Workers_names (i : nat) (e : enumIdName) (n : string) :
  nth_error Workers i = Some e -> e_name e = Some n ->
  token_ok n = true /\ nul_free n = true /\
  enum_scan n Workers 0 = Some (Some i).
Proof.
  intros Hi He.
  destruct i as [| [| i]]; cbn [nth_error Workers] in Hi.
  - inversion Hi; subst e. inversion He; subst n. repeat split; reflexivity.
  - inversion Hi; subst e. inversion He; subst n. repeat split; reflexivity.
  - destruct i; discriminate Hi.
Qed.

Lemma Verbose_names (K : constants) (i : nat) (e : enumIdName) (n : string) :
  nth_error (Verbose K) i = Some e -> e_name e = Some n ->
  token_ok n = true /\ nul_free n = true /\
  enum_scan n (Verbose K) 0 = Some (Some i).
Proof.
  intros Hi He.
  destruct i as [| [| [| [| [| i]]]]]; cbn [nth_error Verbose] in Hi.
  - inversion Hi; subst e. inversion He; subst n. repeat split; reflexivity.
  - inversion Hi; subst e. inversion He; subst n. repeat split; reflexivity.
  - inversion Hi; subst e. inversion He; subst n. repeat split; reflexivity.
  - inversion Hi; subst e. inversion He; subst n. repeat split; reflexivity.
  - inversion Hi; subst e. discriminate He.
  - destruct i; discriminate Hi.
Qed.

Lemma registry_entry_facts (K : constants) (confs : list configuration)
    (k : nat) (conf : configuration) :
  registry_ok K confs -> nth_error confs k = Some conf ->
  name_ok (name conf) = true /\ args conf = 2 /\ names_distinct conf.
Proof.
  intros Hok Hn.
  destruct (registry_entry K confs k conf Hok Hn) as [c0 [H0 [Hd [Hc Hk]]]].
  assert (Henum : forall tbl,
             helper conf = HEnum (at_ tbl 0) ->
             (forall i e n, nth_error tbl i = Some e -> e_name e = Some n ->
                token_ok n = true /\ nul_free n = true /\
                enum_scan n tbl 0 = Some (Some i)) ->
             names_distinct conf).
  { intros tbl Hh Ht. unfold names_distinct, kind_ok in *.
    destruct (target conf) as [| | | p]; try exact I.
    destruct (format conf); try contradiction.
    destruct Hk as [Hp _]. rewrite Hh in Hp. inversion Hp as [Ha].
    intros e n He Hen. rewrite <- Ha. apply (Ht (off p) e n); [| exact Hen].
    unfold deref in He. now rewrite <- Ha in He. }
  assert (Hother : format conf <> ENUM_FORMAT -> names_distinct conf).
  { intros Hf. unfold names_distinct, kind_ok in *.
    destruct (format conf), (target conf); try exact I; try contradiction;
      congruence. }
  do 16 (destruct k as [| k];
         [ cbn [nth_error configTable] in H0; inversion H0; subst c0;
           declared Hd;
           match goal with Hnm : name conf = _ |- _ => rewrite Hnm end;
           (split; [reflexivity | split; [assumption |]]);
           first
             [ apply Hother; congruence
             | apply (Henum Workers); [assumption | apply Workers_names]
             | apply (Henum (Verbose K)); [assumption | apply Verbose_names] ]
         | ]).
  cbn [nth_error configTable] in H0. destruct k; discriminate H0.
Qed.

(** In a state of the shipped registry every name resolves to its own
    entry. *)
Lemma own_name_lookup (K : constants) (confs : list configuration) (k : nat)
    (conf : configuration) :
  registry_ok K confs -> nth_error confs k = Some conf ->
  getConfiguration confs (name conf) = Some (k, conf).
Proof.
  intros Hok Hn.
  destruct (registry_entry K confs k conf Hok Hn) as [c0 [H0 [Hd _]]].
  pose proof (registry_names K confs Hok) as Hnames.
  change (map name (configTable K))
    with ["protocol"; "bind-addr"; "port"; "worker-number"; "worker-type";
          "logfile"; "logfile-level"; "daemon"; "pidfile"; "max-buffer-size";
          "stat-bind-addr"; "stat-port"; "stat-refresh-time"; "stat-file";
          "timeout-seconds"; "mbuf-size"] in Hnames.
  unfold getConfiguration. rewrite lookup_from_index, Hnames.
  do 16 (destruct k as [| k];
         [ cbn [nth_error configTable] in H0; inversion H0; subst c0;
           declared Hd;
           match goal with Hnm : name conf = _ |- _ => rewrite Hnm end;
           match goal with
           | |- context [index_of ?l ?q 0] =>
               let r := eval vm_compute in (index_of l q 0) in
               change (index_of l q 0) with r
           end;
           cbv beta iota; cbn [Nat.sub]; rewrite Hn; reflexivity
         | ]).
  cbn [nth_error configTable] in H0. destruct k; discriminate H0.
Qed.

(** In a state of the shipped registry [fillServerConfig] reads every
    value at its kind. *)
Lemma registry_filled (K : constants) (confs : list configuration) :
  registry_ok K confs -> exists srv, fillServerConfig confs = Some srv.
Proof.
  intros Hok. unfold fillServerConfig.
  repeat match goal with
  | |- context [nth_error confs ?i] =>
      let c := fresh "c" in
      let Hn := fresh "Hn" in
      let Hd := fresh "Hd" in
      let Hk := fresh "Hk" in
      destruct (registry_has_entry K confs i _ Hok eq_refl)
        as [c [Hn [Hd Hk]]];
      rewrite Hn; declared Hd;
      unfold kind_ok in Hk;
      match goal with Hf : format c = _ |- _ => rewrite Hf in Hk end;
      unfold target_ptr, target_val, target_enum;
      destruct (target c); try contradiction;
      match type of Hk with
      | _ /\ _ =>
          let Hde := fresh "Hde" in
          destruct Hk as [_ [? [? [Hde _]]]]; rewrite Hde
      | _ => idtac
      end
  end.
  eexists. reflexivity.
Qed.

(** The assignment through a pointer changes the entry it points at and
    no other. *)
Lemma store_nth_same (confs : list configuration) (k : nat)
    (c conf : configuration) :
  nth_error confs k = Some c -> nth_error (store confs k conf) k = Some conf.
Proof.
  revert k. induction confs as [| x rest IH]; intros k Hn.
  - destruct k; discriminate.
  - destruct k as [| k]; [reflexivity |]. cbn [store nth_error] in *.
    now apply IH.
Qed.

Lemma store_nth_other (confs : list configuration) (k j : nat)
    (conf : configuration) :
  j <> k -> nth_error (store confs k conf) j = nth_error confs j.
Proof.
  revert k j. induction confs as [| x rest IH]; intros k j Hj.
  - destruct k; reflexivity.
  - destruct k as [| k], j as [| j]; try reflexivity; [contradiction |].
    cbn [store nth_error]. apply IH. congruence.
Qed.

(** What a validator commits does not depend on the value the entry held:
    on an entry of the same declaration it commits the same entry. *)
Lemma call_validator_other_value (conf conf0 conf' : configuration)
    (key : string) (val : payload) :
  decl conf0 = decl conf ->
  consistent conf ->
  call_validator conf key val = Ret VALIDATE_OK conf' ->
  call_validator conf0 key val = Ret VALIDATE_OK conf'.
Proof.
  destruct conf as [n a v t h f], conf0 as [n0 a0 v0 t0 h0 f0].
  unfold decl. cbn [name args validator helper format].
  intros Hd. injection Hd as -> -> -> -> ->.
  unfold consistent, call_validator. cbn [validator format helper].
  destruct v, f; try contradiction; intros Hc.
  - (* stringValidator *)
    unfold stringValidator. destruct val as [s | |]; try discriminate.
    cbn [target helper].
    assert (Hfree : forall x,
               (if ptr_set x && negb (helper_set h)
                then set_helper
                       {| name := n; args := a; validator := FnString;
                          target := x; helper := h; format := STRING_FORMAT |}
                       HNull
                else {| name := n; args := a; validator := FnString;
                        target := x; helper := h; format := STRING_FORMAT |})
               = {| name := n; args := a; validator := FnString;
                    target := x; helper := h; format := STRING_FORMAT |}).
    { intros x. destruct Hc as [Hc | Hc].
      - subst h. destruct (ptr_set x && negb (helper_set HNull)); reflexivity.
      - rewrite Hc, andb_false_r. reflexivity. }
    rewrite !Hfree. unfold set_target. cbn [name args validator helper format].
    exact (fun H => H).
  - (* unsignedIntValidator *)
    unfold unsignedIntValidator. destruct val as [s | |]; try discriminate.
    cbn [helper].
    destruct (helper_int h); [| discriminate].
    destruct (negb (digits_ok s 0)); [discriminate |].
    destruct (_ && _); [discriminate |].
    unfold set_target. cbn [name args validator helper format].
    exact (fun H => H).
  - (* enumValidator *)
    unfold enumValidator. destruct val as [s | |]; try discriminate.
    cbn [helper]. destruct h as [| z | p]; try discriminate.
    + destruct (z =? 0); discriminate.
    + destruct (enum_scan s _ _) as [[i |] |]; try discriminate.
      unfold set_target. cbn [name args validator helper format].
      exact (fun H => H).
  - (* boolValidator *)
    unfold boolValidator. destruct val as [s | |]; try discriminate.
    cbv zeta.
    destruct (memcmp (object "on") (object s) (S (strlen s)))
      as [[| q | q] |]; try discriminate;
      try (unfold set_target; cbn [name args validator helper format];
           exact (fun H => H));
      destruct (memcmp (object "off") (object s) (S (strlen s)))
        as [[| q' | q'] |]; try discriminate;
      unfold set_target; cbn [name args validator helper format];
      exact (fun H => H).
Qed.

(** C3, as the code has it.  In a state of the shipped registry, take an
    entry whose value is a string that is not null, a number in the
    non-negative range of [int], or an enum value.  When the formatter's
    line fits the buffer, the text behind the name in that line, put
    behind the name in a configuration line, loads without error into
    every state of the shipped registry, whatever that state holds for
    the entry: the load commits the formatted entry, value included, at
    its place and leaves every other entry as it was. *)
Theorem format_then_parse (K : constants) (confs confs0 : list configuration)
    (k : nat) (conf : configuration) (len : nat) (ret : Z) (buf : string) :
  registry_ok K confs ->
  nth_error confs k = Some conf ->
  reparsable conf ->
  constructConfigFormat conf len = Formatted ret buf ->
  ret < Z.of_nat len ->
  registry_ok K confs0 ->
  exists srv,
    applyConfig K (name conf ++ String " "%char (formatted_value conf buf))
                confs0
    = ([(0%nat, Plain)], Loaded (store confs0 k conf) srv)
    /\ nth_error (store confs0 k conf) k = Some conf
    /\ (forall j, j <> k ->
          nth_error (store confs0 k conf) j = nth_error confs0 j).
Proof.
  intros Hok Hn Hr Hfmt Hfit Hok0.
  destruct (registry_entry K confs k conf Hok Hn) as [c0 [H0 [Hd [Hc Hk]]]].
  destruct (registry_entry_facts K confs k conf Hok Hn)
    as [Hname [Hargs Hdist]].
  destruct (registry_has_entry K confs0 k c0 Hok0 H0)
    as [conf0 [Hn0 [Hd0 _]]].
  assert (Hdecl : decl conf0 = decl conf) by congruence.
  assert (Hnm : name conf0 = name conf /\ args conf0 = args conf)
    by (unfold decl in Hdecl; split; congruence).
  destruct Hnm as [Hnm Har]. rewrite Hargs in Har.
  pose proof (own_name_lookup K confs0 k conf0 Hok0 Hn0) as Hget.
  rewrite Hnm in Hget.
  assert (Hok1 : registry_ok K (store confs0 k conf)).
  { destruct Hok0 as [Hd1 [Hc1 Hk1]]. split; [| split].
    - rewrite (store_decl confs0 k conf0 conf Hn0); [exact Hd1 | congruence].
    - now apply store_Forall.
    - now apply store_Forall. }
  destruct (registry_filled K _ Hok1) as [srv Hfill].
  exists srv.
  assert (Hv : token_ok (formatted_value conf buf) = true
               /\ call_validator conf (name conf)
                    (PStr (formatted_value conf buf))
                  = Ret VALIDATE_OK conf).
  { unfold constructConfigFormat in Hfmt.
    unfold reparsable in Hr. pose proof Hc as Hc'. unfold consistent in Hc'.
    unfold kind_ok in Hk. unfold names_distinct in Hdist.
    unfold call_validator.
    destruct (validator conf) eqn:Ev; destruct (format conf) eqn:Ef;
      try contradiction.
    - (* a string *)
      unfold target_ptr in Hfmt.
      destruct (target conf) as [| [s |] | |] eqn:Et; try contradiction.
      destruct Hr as [Htok [Hnul Hnot]].
      destruct (snprintf len _) as [r b] eqn:Es.
      inversion Hfmt; subst r b.
      rewrite (snprintf_fits _ _ _ _ Es Hfit), formatted_value_behind.
      cbn [fmt_s]. rewrite (cstr_nul_free s Hnul).
      split; [exact Htok |]. now apply stringValidator_same.
    - (* a number *)
      unfold target_val in Hfmt.
      destruct (target conf) as [x | | |] eqn:Et; try contradiction.
      destruct Hr as [Hx Hceil].
      destruct (snprintf len _) as [r b] eqn:Es.
      inversion Hfmt; subst r b.
      rewrite (snprintf_fits _ _ _ _ Es Hfit), formatted_value_behind.
      destruct (helper_int (helper conf)) as [h |] eqn:Eh; [| contradiction].
      split.
      + rewrite (fmt_d_nonneg x) by lia.
        apply digit_string_token;
          [apply decimal_digits | apply (decimal_nonempty 9)].
      + apply (unsignedIntValidator_same conf _ x h); auto.
    - (* an enum value *)
      unfold target_enum in Hfmt.
      destruct (target conf) as [| | | p] eqn:Et; try contradiction.
      destruct Hk as [Hh [e [n [He Hen]]]].
      rewrite He in Hfmt.
      destruct (snprintf len _) as [r b] eqn:Es.
      inversion Hfmt; subst r b.
      rewrite (snprintf_fits _ _ _ _ Es Hfit), formatted_value_behind.
      rewrite Hen. cbn [fmt_s].
      destruct (Hdist e n He Hen) as [Htok [Hnul Hscan]].
      rewrite (cstr_nul_free n Hnul).
      split; [exact Htok |].
      apply (enumValidator_same conf _ n (arr p) (off p)); auto.
      rewrite Et. destruct p. reflexivity. }
  destruct Hv as [Htok Hval].
  split; [| split].
  - rewrite (apply_one_line K confs0 _ _ k conf0 Hname Htok Hget Har).
    rewrite (call_validator_other_value conf conf0 conf _ _ Hdecl Hc Hval).
    rewrite Hfill. reflexivity.
  - exact (store_nth_same confs0 k conf0 conf Hn0).
  - intros j Hj. now apply store_nth_other.
Qed.

Lemma format_then_parse_witness :
  exists srv,
    applyConfig sample
      (name seven_workers
       ++ String " "%char (formatted_value seven_workers "worker-number: 7"))
      (configTable sample)
    = ([(0%nat, Plain)],
       Loaded (store (configTable sample) 3 seven_workers) srv)
    /\ nth_error (store (configTable sample) 3 seven_workers) 3
       = Some seven_workers
    /\ (forall j, j <> 3%nat ->
          nth_error (store (configTable sample) 3 seven_workers) j
          = nth_error (configTable sample) j).
Proof.
  apply (format_then_parse sample
           (store (configTable sample) 3 seven_workers)
           (configTable sample) 3 seven_workers 255 16 "worker-number: 7").
  - destruct (configTable_ok sample) as [Hd [Hc Hk]].
    split; [reflexivity | split].
    + apply store_Forall; [exact Hc |].
      unfold consistent. cbn. discriminate.
    + apply store_Forall; [exact Hk | exact I].
  - reflexivity.
  - split; [vm_compute; split; discriminate |].
    intros h H. vm_compute in H. inversion H. right. lia.
  - reflexivity.
  - reflexivity.
  - apply configTable_ok.
Defined.

(** C3, counterexample.  The line [daemon on] commits the boolean 1; the
    formatter renders it as [daemon: 1]; the value [1] of that line, put
    behind the name, is refused by the boolean validator. *)
Lemma boolean_format_not_reparsed :
  exists confs srv conf,
    snd (applyConfig sample "daemon on" (configTable sample))
    = Loaded confs srv
    /\ nth_error confs 7 = Some conf
    /\ format conf = BOOL_FORMAT /\ target conf = TVal 1
    /\ constructConfigFormat conf 255 = Formatted 9 "daemon: 1"
    /\ formatted_value conf "daemon: 1" = "1"
    /\ snd (applyConfig sample
              (name conf ++ String " "%char (formatted_value conf "daemon: 1"))
              confs)
       = Halted 1 "Validate Failed" confs.
Proof.
  do 3 eexists.
  split; [vm_compute; reflexivity |].
  split; [vm_compute; reflexivity |].
  repeat split; vm_compute; reflexivity.
Qed.

(** A null string is rendered as [(null)], which loads as a string. *)
Example null_string_not_reparsed :
  exists conf conf',
    nth_error (configTable sample) 5 = Some conf
    /\ target conf = TPtr None
    /\ constructConfigFormat conf 255 = Formatted 15 "logfile: (null)"
    /\ stringValidator conf "logfile"
         (PStr (formatted_value conf "logfile: (null)"))
       = Ret VALIDATE_OK conf'
    /\ target conf' = TPtr (Some "(null)").
Proof.
  do 2 eexists. repeat split; vm_compute; reflexivity.
Qed.

(** The formatter's whole line does not load: its first token ends in a
    colon and resolves to no entry. *)
Example formatted_line_not_loadable :
  snd (applyConfig sample "worker-number: 2" (configTable sample))
  = Halted 1 "Unknown configuration name" (configTable sample).
Proof. vm_compute. reflexivity. Qed.

(* ================================================================== *)
(** ** The boolean validator *)
(* ================================================================== *)

Lemma code_inj (a b : ascii) : code a = code b -> a = b.
Proof.
  unfold code. intros H. apply Nat2Z.inj in H.
  rewrite <- (ascii_nat_embedding a), <- (ascii_nat_embedding b).
  now rewrite H.
Qed.

Lemma object_nil : object "" = [0].
Proof. reflexivity. Qed.

Lemma object_nul (c : ascii) (s : string) :
  code c = 0 -> object (String c s) = [0].
Proof.
  intros H. unfold object. simpl. rewrite H. reflexivity.
Qed.

Lemma object_cons (c : ascii) (s : string) :
  code c <> 0 -> object (String c s) = code c :: object s.
Proof.
  intros H. unfold object. simpl.
  destruct (code c =? 0) eqn:E; [apply Z.eqb_eq in E; contradiction |].
  reflexivity.
Qed.

(** [memcmp] over the length of the second string and its terminator
    stays inside both objects, and yields 0 exactly for equal strings. *)
Lemma memcmp_objects (a b : string) :
  exists z, memcmp (object a) (object b) (S (strlen b)) = Some z
            /\ (z = 0 <-> cstr a = cstr b).
Proof.
  revert a. induction b as [| c b IH]; intros a.
  - rewrite object_nil. cbn [strlen].
    destruct a as [| x a]; [exists 0; split; [reflexivity | tauto] |].
    destruct (Z.eq_dec (code x) 0) as [E | E].
    + rewrite (object_nul x a E). exists 0. simpl. rewrite E.
      split; [reflexivity | tauto].
    + rewrite (object_cons x a E). exists (code x - 0). simpl.
      apply Z.eqb_neq in E. rewrite E. split; [reflexivity |].
      apply Z.eqb_neq in E. split; [lia | discriminate].
  - destruct (Z.eq_dec (code c) 0) as [Ec | Ec].
    + rewrite (object_nul c b Ec). cbn [strlen cstr].
      replace (code c =? 0) with true by (symmetry; now apply Z.eqb_eq).
      destruct a as [| x a]; [exists 0; split; [reflexivity | tauto] |].
      destruct (Z.eq_dec (code x) 0) as [E | E].
      * rewrite (object_nul x a E). exists 0. simpl. rewrite E.
        split; [reflexivity | tauto].
      * rewrite (object_cons x a E). exists (code x - 0). simpl.
        apply Z.eqb_neq in E. rewrite E. split; [reflexivity |].
        apply Z.eqb_neq in E. split; [lia | discriminate].
    + rewrite (object_cons c b Ec). cbn [strlen cstr].
      replace (code c =? 0) with false by (symmetry; now apply Z.eqb_neq).
      destruct a as [| x a].
      * exists (0 - code c). rewrite object_nil. cbn [memcmp].
        replace (0 =? code c) with false by (symmetry; apply Z.eqb_neq; lia).
        split; [reflexivity |]. split; [lia | discriminate].
      * destruct (Z.eq_dec (code x) 0) as [E | E].
        -- exists (0 - code c). rewrite (object_nul x a E). cbn [memcmp cstr].
           replace (0 =? code c) with false
             by (symmetry; apply Z.eqb_neq; lia).
           replace (code x =? 0) with true by (symmetry; now apply Z.eqb_eq).
           split; [reflexivity |]. split; [lia | discriminate].
        -- rewrite (object_cons x a E). cbn [memcmp cstr].
           replace (code x =? 0) with false by (symmetry; now apply Z.eqb_neq).
           destruct (code x =? code c) eqn:Exc.
           ++ apply Z.eqb_eq in Exc. apply code_inj in Exc. subst x.
              destruct (IH a) as [z [Hz Hiff]]. exists z.
              split; [exact Hz |]. rewrite Hiff. split.
              ** intros H. now rewrite H.
              ** intros H. now inversion H.
           ++ apply Z.eqb_neq in Exc. exists (code x - code c).
              split; [reflexivity |]. split; [lia |].
              intros H. inversion H. subst. contradiction.
Qed.

(** [boolValidator] accepts exactly [on] and [off], and its comparisons
    stay inside the literals. *)
Lemma boolValidator_spec (conf : configuration) (key v : string) :
  boolValidator conf key (PStr v)
  = if String.eqb (cstr v) "on"
    then Ret VALIDATE_OK (set_target conf (TVal 1))
    else if String.eqb (cstr v) "off"
         then Ret VALIDATE_OK (set_target conf (TVal 0))
         else Ret VALIDATE_WRONG conf.
Proof.
  unfold boolValidator.
  destruct (memcmp_objects "on" v) as [z1 [H1 I1]].
  destruct (memcmp_objects "off" v) as [z2 [H2 I2]].
  rewrite H1, H2.
  change (cstr "on") with "on" in I1. change (cstr "off") with "off" in I2.
  destruct (String.eqb_spec (cstr v) "on") as [E1 | E1].
  - assert (z1 = 0) by (apply I1; now symmetry). subst z1. reflexivity.
  - assert (N1 : z1 <> 0) by (intros H; apply E1; symmetry; now apply I1).
    destruct (String.eqb_spec (cstr v) "off") as [E2 | E2].
    + assert (z2 = 0) by (apply I2; now symmetry). subst z2.
      destruct z1; [contradiction | reflexivity | reflexivity].
    + assert (N2 : z2 <> 0) by (intros H; apply E2; symmetry; now apply I2).
      destruct z1; [contradiction | |]; destruct z2; try contradiction;
        reflexivity.
Qed.

(* ================================================================== *)
(** ** Stripping a line twice *)
(* ================================================================== *)

Lemma rstrip_idempotent (cset s : string) :
  rstrip cset (rstrip cset s) = rstrip cset s.
Proof.
  induction s as [| c s IH]; [reflexivity |].
  cbn [rstrip]. destruct (rstrip cset s) as [| c' r'] eqn:E.
  - destruct (in_cset cset c) eqn:Ec; [reflexivity |].
    cbn [rstrip]. now rewrite Ec.
  - cbn [rstrip] in *. fold (rstrip cset (String c' r')) in *.
    rewrite IH. reflexivity.
Qed.

Lemma lstrip_head (cset s : string) :
  lstrip cset s = EmptyString
  \/ exists c r, lstrip cset s = String c r /\ in_cset cset c = false.
Proof.
  induction s as [| c s IH]; [now left |].
  cbn [lstrip]. destruct (in_cset cset c) eqn:E; [exact IH |].
  right. exists c, s. auto.
Qed.

Lemma rstrip_head (cset : string) (c : ascii) (r : string) :
  in_cset cset c = false -> exists r', rstrip cset (String c r) = String c r'.
Proof.
  intros H. cbn [rstrip]. destruct (rstrip cset r).
  - rewrite H. eauto.
  - eauto.
Qed.

(** [handleList] strips the lines it looks at in place, the line that ends
    the block included, and the line loop strips that line again: the
    second strip changes nothing, so the loop can be read on the lines as
    they were. *)
Lemma wstrStrip_idempotent (s cset : string) :
  wstrStrip (wstrStrip s cset) cset = wstrStrip s cset.
Proof.
  unfold wstrStrip.
  destruct (lstrip_head cset s) as [E | [c [r [E Hc]]]]; rewrite E.
  - reflexivity.
  - destruct (rstrip_head cset c r Hc) as [r' Hr]. rewrite Hr.
    cbn [lstrip]. rewrite Hc, <- Hr. apply rstrip_idempotent.
Qed.

(* ================================================================== *)
(** ** The values a validator commits *)
(* ================================================================== *)

(** What a validator of the string, integer or enum kind commits from a
    token is a null string or a value the loader takes back, as long as
    the number a token denotes is in the range of [int]. *)
Lemma committed_value_reparsable (conf conf' : configuration)
    (key v : string) :
  consistent conf ->
  format conf <> BOOL_FORMAT ->
  token_ok v = true -> nul_free v = true ->
  (format conf = INT_FORMAT -> numeric v <= INT_MAX) ->
  call_validator conf key (PStr v) = Ret VALIDATE_OK conf' ->
  target conf' = TPtr None \/ reparsable conf'.
Proof.
  intros Hc Hb Htok Hnul Hrange. unfold call_validator, consistent in *.
  destruct (validator conf) eqn:Ev; destruct (format conf) eqn:Ef;
    try contradiction; try congruence.
  - (* stringValidator *)
    unfold stringValidator.
    destruct (ptr_set (target conf) && negb (helper_set (helper conf)));
      destruct (strncasecmp v WHEAT_STR_NULL (sizeof_literal WHEAT_STR_NULL)
                =? 0) eqn:En;
      intros H; inversion H; subst; cbn [target set_target set_helper];
      try (now left);
      right; unfold reparsable; cbn [format target set_target set_helper];
      rewrite Ef, (cstr_nul_free v Hnul);
      apply Z.eqb_neq in En; auto.
  - (* unsignedIntValidator *)
    destruct (helper_int (helper conf)) as [h |] eqn:Eh; [| contradiction].
    intros H.
    assert (Hd : all_digits v = true /\ (strlen v <= 10)%nat).
    { rewrite (unsignedIntValidator_spec conf key v h Eh) in H.
      destruct (all_digits v); [| discriminate].
      destruct (strlen v <=? 10)%nat eqn:El; [| discriminate].
      apply Nat.leb_le in El. auto. }
    destruct Hd as [Hd Hl].
    rewrite (unsignedIntValidator_in_range conf key v h Eh Hd Hl
               (Hrange eq_refl)) in H.
    destruct (negb (h =? 0) && (numeric v >? h)) eqn:Ec; [discriminate |].
    inversion H; subst. right. unfold reparsable.
    cbn [format target helper set_target]. rewrite Ef.
    unfold numeric in *.
    destruct (digits_value_bound (cstr v) 0) as [Hlo _]; [lia |].
    split; [split; [exact Hlo | now apply Hrange] |].
    intros h' Hh'. rewrite Eh in Hh'. inversion Hh'; subst h'.
    apply andb_false_iff in Ec. destruct Ec as [Ec | Ec].
    + left. apply negb_false_iff in Ec. now apply Z.eqb_eq.
    + right. rewrite Z.gtb_ltb in Ec. now apply Z.ltb_ge.
  - (* enumValidator *)
    unfold enumValidator. destruct Hc as [tbl Hh]. rewrite Hh.
    destruct (enum_scan v _ _) as [[r |] |]; try discriminate.
    intros H; inversion H; subst. right. unfold reparsable.
    cbn [format target set_target]. now rewrite Ef.
Qed.

(* ================================================================== *)
(** ** The validators on every input *)
(* ================================================================== *)

Lemma lower_unfold (a : string) :
  lower a = if peek a =? 0 then [] else tolower (peek a) :: lower (advance a).
Proof.
  destruct (peek a =? 0) eqn:E.
  - apply Z.eqb_eq in E. now apply lower_peek_nil.
  - apply Z.eqb_neq in E. now apply lower_peek_cons.
Qed.

Lemma lower_eq_head (a a' : string) :
  lower a = lower a' ->
  tolower (peek a) = tolower (peek a')
  /\ (tolower (peek a) <> 0 -> lower (advance a) = lower (advance a')).
Proof.
  rewrite (lower_unfold a), (lower_unfold a').
  destruct (peek a =? 0) eqn:E, (peek a' =? 0) eqn:E'; intros H;
    try discriminate.
  - apply Z.eqb_eq in E, E'. rewrite E, E'. split; [reflexivity |].
    intros Hn. exfalso. apply Hn. reflexivity.
  - inversion H. split; auto.
Qed.

(** [strncasecmp] does not see the case of the letters of its first
    argument. *)
Lemma strncasecmp_lower (a a' b : string) (n : nat) :
  lower a = lower a' -> strncasecmp a b n = strncasecmp a' b n.
Proof.
  revert a a' b. induction n as [| n IH]; intros a a' b H; [reflexivity |].
  cbn [strncasecmp]. destruct (lower_eq_head a a' H) as [Hh Ht].
  rewrite <- Hh. destruct (tolower (peek a) =? tolower (peek b)); [| reflexivity].
  destruct (tolower (peek a) =? 0) eqn:E; [reflexivity |].
  apply Z.eqb_neq in E. apply IH. now apply Ht.
Qed.

Lemma strlen_lower (s : string) : strlen s = List.length (lower s).
Proof.
  unfold lower. rewrite length_map, strlen_cstr.
  induction (cstr s) as [| c r IH]; simpl; [reflexivity | now rewrite IH].
Qed.

Lemma lookup_from_lower (confs : list configuration) (q q' : string)
    (i : nat) :
  lower q = lower q' -> lookup_from confs q i = lookup_from confs q' i.
Proof.
  intros H. revert i. induction confs as [| c rest IH]; intros i; simpl.
  - reflexivity.
  - rewrite (strlen_lower q), (strlen_lower q'), <- H.
    rewrite (strncasecmp_lower q q' _ _ H), IH. reflexivity.
Qed.

Lemma enum_scan_lower (v v' : string) (rest : list enumIdName) (i : nat) :
  lower v = lower v' -> enum_scan v rest i = enum_scan v' rest i.
Proof.
  intros H. revert i. induction rest as [| e rest IH]; intros i; simpl.
  - reflexivity.
  - destruct (e_name e) as [n |]; [| reflexivity].
    rewrite (strncasecmp_lower v v' _ _ H), IH. reflexivity.
Qed.

(** [strncasecmp(a, b, strlen(b) + 1)] compares the terminator of [b] as
    well: it is 0 exactly when the two strings are equal up to the case
    of their letters. *)
Lemma strncasecmp_whole (b a : string) :
  strncasecmp a b (S (strlen b)) = 0 <-> lower a = lower b.
Proof.
  revert a. induction b as [| c b IH]; intros a.
  - cbn [strlen strncasecmp peek]. change (tolower 0) with 0.
    rewrite lower_nil, (lower_unfold a).
    destruct (Z.eq_dec (peek a) 0) as [E | E].
    + rewrite E. simpl. tauto.
    + assert (Ht : tolower (peek a) <> 0)
        by (intros H; apply (proj1 (tolower_zero _)) in H; contradiction).
      apply Z.eqb_neq in Ht. rewrite Ht.
      apply Z.eqb_neq in E. rewrite E.
      apply Z.eqb_neq in Ht. split; [lia | discriminate].
  - cbn [strlen]. destruct (code c =? 0) eqn:Ec.
    + apply Z.eqb_eq in Ec. rewrite (lower_nul c b Ec).
      cbn [strncasecmp peek]. rewrite Ec. change (tolower 0) with 0.
      rewrite (lower_unfold a).
      destruct (Z.eq_dec (peek a) 0) as [E | E].
      * rewrite E. simpl. tauto.
      * assert (Ht : tolower (peek a) <> 0)
          by (intros H; apply (proj1 (tolower_zero _)) in H; contradiction).
        apply Z.eqb_neq in Ht. rewrite Ht.
        apply Z.eqb_neq in E. rewrite E.
        apply Z.eqb_neq in Ht. split; [lia | discriminate].
    + apply Z.eqb_neq in Ec. rewrite (lower_cons c b Ec).
      change (strncasecmp a (String c b) (S (S (strlen b))))
        with (if tolower (peek a) =? tolower (code c)
              then if tolower (peek a) =? 0 then 0
                   else strncasecmp (advance a) b (S (strlen b))
              else tolower (peek a) - tolower (code c)).
      assert (Hc : tolower (code c) <> 0)
        by (intros H; apply (proj1 (tolower_zero _)) in H; contradiction).
      rewrite (lower_unfold a).
      destruct (tolower (peek a) =? tolower (code c)) eqn:E1.
      * apply Z.eqb_eq in E1.
        assert (Ht : tolower (peek a) <> 0) by congruence.
        assert (Hp : peek a <> 0).
        { intros H. apply Ht. rewrite H. reflexivity. }
        apply Z.eqb_neq in Ht, Hp. rewrite Ht, Hp, IH, E1.
        split; [intros H; now rewrite H | intros H; now inversion H].
      * apply Z.eqb_neq in E1. split; [lia |].
        destruct (peek a =? 0); [discriminate |].
        intros H. inversion H. contradiction.
Qed.

(** X1.  [boolValidator] accepts the token [on], committing 1, and the
    token [off], committing 0, and nothing else: any other token, also
    one in another case or with further characters, is refused and the
    entry is left as it is; the comparison never leaves the literals. *)
Theorem boolValidator_on_off (conf : configuration) (key v : string) :
  (cstr v = "on" /\
   boolValidator conf key (PStr v)
   = Ret VALIDATE_OK (set_target conf (TVal 1)))
  \/ (cstr v = "off" /\
      boolValidator conf key (PStr v)
      = Ret VALIDATE_OK (set_target conf (TVal 0)))
  \/ (cstr v <> "on" /\ cstr v <> "off" /\
      boolValidator conf key (PStr v) = Ret VALIDATE_WRONG conf).
Proof.
  rewrite boolValidator_spec.
  destruct (String.eqb_spec (cstr v) "on") as [E1 | E1]; [now left |].
  destruct (String.eqb_spec (cstr v) "off") as [E2 | E2].
  - right. now left.
  - right. right. auto.
Qed.

(** X2.  [stringValidator] never refuses a token.  It commits the null
    pointer exactly for the tokens that equal [NULL] up to the case of
    their letters (a longer or shorter token is an ordinary string), and
    a copy of the token otherwise; the name, the arity, the validator and
    the display kind of the entry stay as they were. *)
Theorem stringValidator_null_sentinel (conf : configuration)
    (key v : string) :
  exists conf',
    stringValidator conf key (PStr v) = Ret VALIDATE_OK conf'
    /\ name conf' = name conf /\ args conf' = args conf
    /\ validator conf' = validator conf /\ format conf' = format conf
    /\ (lower v = lower "NULL" -> target conf' = TPtr None)
    /\ (lower v <> lower "NULL" -> target conf' = TPtr (Some (cstr v))).
Proof.
  unfold stringValidator.
  assert (Hn : strncasecmp v WHEAT_STR_NULL (sizeof_literal WHEAT_STR_NULL) = 0
               <-> lower v = lower "NULL")
    by apply (strncasecmp_whole "NULL" v).
  destruct (ptr_set (target conf) && negb (helper_set (helper conf)));
    destruct (strncasecmp v WHEAT_STR_NULL (sizeof_literal WHEAT_STR_NULL)
              =? 0) eqn:E;
    eexists; (split; [reflexivity |]);
    cbn [name args validator format target set_target set_helper];
    do 4 (split; [reflexivity |]).
  - apply Z.eqb_eq in E. apply Hn in E.
    split; [reflexivity | intros H; contradiction].
  - apply Z.eqb_neq in E.
    split; [intros H; exfalso; apply E; now apply Hn | reflexivity].
  - apply Z.eqb_eq in E. apply Hn in E.
    split; [reflexivity | intros H; contradiction].
  - apply Z.eqb_neq in E.
    split; [intros H; exfalso; apply E; now apply Hn | reflexivity].
Qed.

(** X3.  [unsignedIntValidator] refuses, without touching the entry, every
    token that holds a character other than a digit or that is longer
    than ten characters.  A token of digits that denotes at most
    [INT_MAX] is taken at its value: it is refused when the entry has a
    non-zero ceiling below it, and committed otherwise; every token of at
    most nine digits, the empty one and those with leading zeros
    included, is of that kind. *)
Theorem unsignedIntValidator_decides (conf : configuration)
    (key v : string) (h : Z) :
  helper_int (helper conf) = Some h ->
  (all_digits v = false \/ (10 < strlen v)%nat ->
   unsignedIntValidator conf key (PStr v) = Ret VALIDATE_WRONG conf)
  /\ (all_digits v = true -> (strlen v <= 10)%nat -> numeric v <= INT_MAX ->
      unsignedIntValidator conf key (PStr v)
      = if negb (h =? 0) && (numeric v >? h)
        then Ret VALIDATE_WRONG conf
        else Ret VALIDATE_OK (set_target conf (TVal (numeric v))))
  /\ (all_digits v = true -> (strlen v <= 9)%nat ->
      0 <= numeric v <= INT_MAX).
Proof.
  intros Hh. split; [| split].
  - intros Hbad. rewrite (unsignedIntValidator_spec conf key v h Hh).
    destruct Hbad as [Hd | Hl].
    + now rewrite Hd.
    + replace (strlen v <=? 10)%nat with false
        by (symmetry; apply Nat.leb_gt; lia).
      now rewrite andb_false_r.
  - intros Hd Hl Hv. now apply unsignedIntValidator_in_range.
  - intros Hd Hl. unfold numeric.
    destruct (digits_value_bound (cstr v) 0) as [H1 H2]; [lia |].
    split; [exact H1 |].
    assert (H9 : 10 ^ Z.of_nat (strlen (cstr v)) <= 10 ^ 9).
    { apply Z.pow_le_mono_r; [lia |].
      assert (strlen (cstr v) <= strlen v)%nat.
      { clear. induction v as [| c r IH]; simpl; [lia |].
        destruct (code c =? 0) eqn:E; simpl; [lia |]. rewrite E. lia. }
      lia. }
    unfold INT_MAX. lia.
Qed.

Lemma unsignedIntValidator_decides_witness :
  unsignedIntValidator (nth 3 (configTable sample) nested_conf)
    "worker-number" (PStr "0512")
  = Ret VALIDATE_OK
      (set_target (nth 3 (configTable sample) nested_conf) (TVal 512)).
Proof.
  apply (proj1 (proj2 (unsignedIntValidator_decides
                         (nth 3 (configTable sample) nested_conf)
                         "worker-number" "0512" 1024 eq_refl)));
    vm_compute; [reflexivity | lia | discriminate].
Defined.

Lemma enum_scan_sentinel (val : string) (rest : list enumIdName)
    (i j : nat) (e : enumIdName) :
  nth_error rest j = Some e -> e_name e = None ->
  enum_scan val rest i = Some None
  \/ exists r, (i <= r < i + j)%nat /\ enum_scan val rest i = Some (Some r).
Proof.
  revert i j. induction rest as [| e0 rest IH]; intros i j Hn He.
  - destruct j; discriminate.
  - cbn [enum_scan]. destruct j as [| j].
    + simpl in Hn. inversion Hn; subst. rewrite He. now left.
    + simpl in Hn. destruct (e_name e0) as [n0 |]; [| now left].
      destruct (strncasecmp val n0 (strlen n0) =? 0).
      * right. exists i. split; [lia | reflexivity].
      * destruct (IH (S i) j Hn He) as [H | [r [Hr H]]]; [now left |].
        right. exists r. split; [lia | exact H].
Qed.

(** X4.  When the table of an enum entry has a sentinel at or behind the
    helper pointer, [enumValidator] stays inside the table on every
    input: it either refuses the input and leaves the entry as it is, or
    commits an element in front of the sentinel. *)
Theorem enumValidator_sentinel_bounds (conf : configuration)
    (key val : string) (tbl : list enumIdName) (start s : nat)
    (e : enumIdName) :
  helper conf = HEnum (at_ tbl start) ->
  (start <= s)%nat ->
  nth_error tbl s = Some e ->
  e_name e = None ->
  enumValidator conf key (PStr val) = Ret VALIDATE_WRONG conf
  \/ exists k, (start <= k < s)%nat /\
       enumValidator conf key (PStr val)
       = Ret VALIDATE_OK (set_target conf (TEnum (at_ tbl k))).
Proof.
  intros Hh Hs Hn He. unfold enumValidator. rewrite Hh. cbn [arr off at_].
  destruct (enum_scan_sentinel val (skipn start tbl) start (s - start) e)
    as [H | [r [Hr H]]]; auto.
  - rewrite nth_error_skipn. replace (start + (s - start))%nat with s by lia.
    exact Hn.
  - rewrite H. now left.
  - rewrite H. right. exists r. split; [lia | reflexivity].
Qed.

Lemma enumValidator_sentinel_bounds_witness :
  enumValidator (nth 6 (configTable sample) nested_conf) "logfile-level"
    (PStr "Foo")
  = Ret VALIDATE_WRONG (nth 6 (configTable sample) nested_conf)
  \/ exists k, (0 <= k < 4)%nat /\
       enumValidator (nth 6 (configTable sample) nested_conf) "logfile-level"
         (PStr "Foo")
       = Ret VALIDATE_OK
           (set_target (nth 6 (configTable sample) nested_conf)
                       (TEnum (at_ (Verbose sample) k))).
Proof.
  apply (enumValidator_sentinel_bounds
           (nth 6 (configTable sample) nested_conf) "logfile-level" "Foo"
           (Verbose sample) 0 4 {| id := -1; e_name := None |}).
  - reflexivity.
  - lia.
  - reflexivity.
  - reflexivity.
Defined.

(** X5.  [getConfiguration] does not see the case of the letters of the
    query: two queries that differ in case only resolve to the same
    entry, or both to none. *)
Theorem getConfiguration_case_insensitive (confs : list configuration)
    (q q' : string) :
  lower q = lower q' -> getConfiguration confs q = getConfiguration confs q'.
Proof.
  intros H. unfold getConfiguration. now apply lookup_from_lower.
Qed.

Lemma getConfiguration_case_insensitive_witness :
  getConfiguration (configTable sample) "Stat-Port"
  = getConfiguration (configTable sample) "stat-port".
Proof.
  apply (getConfiguration_case_insensitive (configTable sample)
           "Stat-Port" "stat-port").
  reflexivity.
Defined.

(** X6.  [enumValidator] does not see the case of the letters of the
    input: two inputs that differ in case only are both refused, or both
    commit the same element, or both leave the table. *)
Theorem enumValidator_case_insensitive (conf : configuration)
    (key key' v v' : string) :
  lower v = lower v' ->
  enumValidator conf key (PStr v) = enumValidator conf key' (PStr v').
Proof.
  intros H. unfold enumValidator.
  destruct (helper conf) as [| z | p]; try reflexivity.
  now rewrite (enum_scan_lower v v' _ _ H).
Qed.

Lemma enumValidator_case_insensitive_witness :
  enumValidator (nth 6 (configTable sample) nested_conf) "logfile-level"
    (PStr "Warning")
  = enumValidator (nth 6 (configTable sample) nested_conf) "logfile-level"
      (PStr "WARNING").
Proof.
  apply (enumValidator_case_insensitive
           (nth 6 (configTable sample) nested_conf)
           "logfile-level" "logfile-level" "Warning" "WARNING").
  reflexivity.
Defined.

(** X7.  In every state of the shipped registry the full name of an
    entry, written in any case, resolves to that entry: no entry is
    hidden behind an earlier one whose name begins with its name. *)
Theorem full_name_resolves_to_its_entry (K : constants)
    (confs : list configuration) (k : nat) (conf : configuration)
    (q : string) :
  registry_ok K confs ->
  nth_error confs k = Some conf ->
  lower q = lower (name conf) ->
  getConfiguration confs q = Some (k, conf).
Proof.
  intros Hok Hn Hq. unfold getConfiguration.
  rewrite (lookup_from_lower confs q (name conf) 0 Hq).
  now apply (own_name_lookup K).
Qed.

Lemma full_name_resolves_to_its_entry_witness :
  getConfiguration (configTable sample) "LOGFILE"
  = Some (5%nat, nth 5 (configTable sample) nested_conf).
Proof.
  apply (full_name_resolves_to_its_entry sample (configTable sample) 5
           (nth 5 (configTable sample) nested_conf) "LOGFILE").
  - apply configTable_ok.
  - reflexivity.
  - reflexivity.
Defined.

(* ================================================================== *)
(** ** The line loop on every text *)
(* ================================================================== *)

Lemma scan_block_pos_upper (rest : list string) (pos : nat)
    (l : list string) :
  (snd (scan_block rest pos l) <= pos + List.length rest)%nat.
Proof.
  revert pos l. induction rest as [| ln rest IH]; intros pos l; simpl.
  - lia.
  - destruct (scan_line (wstrStrip ln blanks) false l) as [l' |]; simpl.
    + specialize (IH (S pos) l'). lia.
    + lia.
Qed.

Lemma handleList_upper (lines : list string) (i count : nat) :
  (i < count)%nat -> (snd (handleList lines i count) < count)%nat.
Proof.
  intros Hi. unfold handleList.
  pose proof (scan_block_pos_upper
                (skipn (S i) (firstn count lines)) (S i) []) as H.
  rewrite length_skipn, length_firstn in H.
  destruct (scan_block (skipn (S i) (firstn count lines)) (S i) [])
    as [l pos].
  simpl in *. lia.
Qed.

(** Where the body of the loop ends, inside the text: on a line at or
    behind the one it started on, with one of three reasons when it
    halts. *)
Lemma loop_body_bounds (K : constants) (lines : list string) (count i : nat)
    (confs : list configuration) :
  (i < count)%nat ->
  match loop_body K lines count i confs with
  | Continue i1 _ _ => (i <= i1 < count)%nat
  | LoadErr i1 err _ => (i <= i1 < count)%nat /\ load_error err
  | Fault _ _ => True
  end.
Proof.
  intros Hi. unfold loop_body, load_error.
  destruct ((peek (wstrStrip (nth i lines "") blanks) =? 35)
            || (peek (wstrStrip (nth i lines "") blanks) =? 0)
            || (peek (wstrStrip (nth i lines "") blanks) =? 32)); [lia |].
  destruct (getConfiguration confs _) as [[k conf] |]; [| split; [lia | auto]].
  pose proof (handleList_index lines i count) as Hlo.
  pose proof (handleList_upper lines i count Hi) as Hup.
  destruct (handleList lines i count) as [l i'].
  destruct ((_ =? 1)%nat && is_list_format (format conf)); simpl in *.
  - destruct (_ && _); [split; [lia | auto] |].
    destruct (call_validator _ _ _) as [[|] c' | u];
      first [lia | exact I | split; [lia | auto]].
  - destruct (negb (_ =? args conf) && _); [split; [lia | auto] |].
    destruct (call_validator _ _ _) as [[|] c' | u];
      first [lia | exact I | split; [lia | auto]].
Qed.

Lemma line_loop_halt_bounds (K : constants) (fuel : nat)
    (lines : list string) (count i : nat) (confs c : list configuration)
    (n : nat) (err : string) :
  snd (line_loop K fuel lines count i confs) = Halted n err c ->
  (i < n <= count)%nat /\ load_error err.
Proof.
  revert i confs. induction fuel as [| fuel IH]; intros i confs; simpl.
  - discriminate.
  - destruct (count <=? i)%nat eqn:Ec.
    + destruct (fillServerConfig confs); discriminate.
    + apply Nat.leb_gt in Ec.
      pose proof (loop_body_bounds K lines count i confs Ec) as Hb.
      destruct (loop_body K lines count i confs) as [i1 c1 b | i1 e b | u b].
      * specialize (IH (S i1) c1).
        destruct (line_loop K fuel lines count (S i1) c1) as [tr o].
        simpl in *. intros H. apply IH in H. destruct H as [H He].
        split; [lia | exact He].
      * simpl. intros H. inversion H; subst. destruct Hb as [Hb He].
        split; [lia | exact He].
      * discriminate.
Qed.

(** X8.  When [applyConfig] halts, the line number of its diagnostic lies
    between 1 and the number of lines of the text, so the line it prints,
    [lines[i]], is a line of the text; and the reason is one of
    [Unknown configuration name], [Incorrect args] and
    [Validate Failed]. *)
Theorem applyConfig_diagnostic_in_text (K : constants) (config : string)
    (confs c : list configuration) (n : nat) (err : string) :
  snd (applyConfig K config confs) = Halted n err c ->
  (1 <= n <= List.length (wstrNewSplit config (ascii_of_nat 10)))%nat
  /\ load_error err.
Proof.
  unfold applyConfig. intros H. apply line_loop_halt_bounds in H.
  destruct H as [H He]. split; [lia | exact He].
Qed.

Lemma applyConfig_diagnostic_in_text_witness :
  (1 <= 2 <= List.length
             (wstrNewSplit ("port 80" ++ newline ++ "daemon maybe")
                           (ascii_of_nat 10)))%nat
  /\ load_error "Validate Failed".
Proof.
  apply (applyConfig_diagnostic_in_text sample
           ("port 80" ++ newline ++ "daemon maybe") (configTable sample)
           (store (configTable sample) 2
                  (set_target (nth 2 (configTable sample) nested_conf)
                              (TVal 80)))).
  vm_compute. reflexivity.
Defined.

Lemma line_loop_skipped (K : constants) (lines : list string)
    (confs : list configuration) (fuel i : nat) :
  Forall skipped_line lines ->
  (List.length lines - i < fuel)%nat ->
  line_loop K fuel lines (List.length lines) i confs
  = (map (fun j => (j, Skipped)) (seq i (List.length lines - i)),
     match fillServerConfig confs with
     | Some srv => Loaded confs srv
     | None => Aborted BadPointer confs
     end).
Proof.
  intros Hs. revert i. induction fuel as [| fuel IH]; intros i Hf; [lia |].
  rewrite line_loop_unfold.
  destruct (List.length lines <=? i)%nat eqn:Ec.
  - apply Nat.leb_le in Ec.
    replace (List.length lines - i)%nat with 0%nat by lia.
    destruct (fillServerConfig confs); reflexivity.
  - apply Nat.leb_gt in Ec.
    assert (Hb : loop_body K lines (List.length lines) i confs
                 = Continue i confs Skipped).
    { unfold loop_body. rewrite Forall_forall in Hs.
      destruct (Hs (nth i lines "")) as [H | H];
        [apply nth_In; lia | rewrite H; reflexivity |].
      rewrite H. now rewrite orb_true_r. }
    rewrite Hb, IH by lia.
    replace (List.length lines - i)%nat
      with (S (List.length lines - S i)) by lia.
    reflexivity.
Qed.

(** X9.  On the shipped registry a text that holds only empty lines and
    comment lines, the empty text included, changes nothing:
    [applyConfig] passes over every line, leaves each entry with the
    value it had, and ends loaded with the flat structure filled from
    those values. *)
Theorem applyConfig_comments_only (K : constants) (config : string)
    (confs : list configuration) :
  registry_ok K confs ->
  Forall skipped_line (wstrNewSplit config (ascii_of_nat 10)) ->
  exists srv,
    applyConfig K config confs
    = (map (fun j => (j, Skipped))
           (seq 0 (List.length (wstrNewSplit config (ascii_of_nat 10)))),
       Loaded confs srv)
    /\ fillServerConfig confs = Some srv.
Proof.
  intros Hok H. destruct (registry_filled K confs Hok) as [srv Hfill].
  exists srv. split; [| exact Hfill].
  unfold applyConfig.
  rewrite (line_loop_skipped K _ confs _ 0 H) by lia.
  rewrite Nat.sub_0_r, Hfill. reflexivity.
Qed.

Lemma applyConfig_comments_only_witness :
  exists srv,
    applyConfig sample ("# settings" ++ newline ++ "   " ++ newline)
                (configTable sample)
    = (map (fun j => (j, Skipped))
           (seq 0 (List.length
                     (wstrNewSplit
                        ("# settings" ++ newline ++ "   " ++ newline)
                        (ascii_of_nat 10)))),
       Loaded (configTable sample) srv)
    /\ fillServerConfig (configTable sample) = Some srv.
Proof.
  apply (applyConfig_comments_only sample
           ("# settings" ++ newline ++ "   " ++ newline) (configTable sample)).
  - apply configTable_ok.
  - change (Forall skipped_line ["# settings"; "   "; ""]).
    apply Forall_cons; [left; reflexivity |].
    apply Forall_cons; [right; reflexivity |].
    apply Forall_cons; [right; reflexivity |].
    apply Forall_nil.
Defined.










(* ================================================================== *)
(** ** One text behind another *)
(* ================================================================== *)

Lemma pieces_app (sep : ascii) (a b : string) :
  pieces sep (a ++ String sep b)
  = (fst (pieces sep a), (snd (pieces sep a) ++ all_pieces sep b)%list).
Proof.
  unfold all_pieces. induction a as [| c a IH]; cbn [append pieces].
  - destruct (pieces sep b) as [t ts]. now rewrite Ascii.eqb_refl.
  - rewrite IH. destruct (pieces sep a) as [t ts]. cbn [fst snd].
    destruct (Ascii.eqb c sep); reflexivity.
Qed.

Lemma wstrNewSplit_app (sep : ascii) (a b : string) :
  wstrNewSplit (a ++ String sep b) sep
  = (all_pieces sep a ++ all_pieces sep b)%list.
Proof.
  unfold wstrNewSplit. rewrite pieces_app.
  destruct (a ++ String sep b) eqn:E.
  - destruct a; discriminate.
  - unfold all_pieces. destruct (pieces sep a). reflexivity.
Qed.

Lemma wstrNewSplit_pieces (sep : ascii) (s : string) :
  nonempty s = true -> wstrNewSplit s sep = all_pieces sep s.
Proof.
  destruct s; [discriminate | reflexivity].
Qed.

Lemma line_loop_snd (K : constants) (fuel : nat) (lines : list string)
    (count i : nat) (confs : list configuration) :
  snd (line_loop K (S fuel) lines count i confs)
  = if (count <=? i)%nat then
      match fillServerConfig confs with
      | Some srv => Loaded confs srv
      | None => Aborted BadPointer confs
      end
    else
      match loop_body K lines count i confs with
      | Continue i1 confs1 _ => snd (line_loop K fuel lines count (S i1) confs1)
      | LoadErr i1 err _ => Halted (i1 + 1) err confs
      | Fault u _ => Aborted u confs
      end.
Proof.
  rewrite line_loop_unfold. destruct (count <=? i)%nat.
  - destruct (fillServerConfig confs); reflexivity.
  - destruct (loop_body K lines count i confs) as [i1 c1 b | i1 e b | u b];
      try reflexivity.
    destruct (line_loop K fuel lines count (S i1) c1). reflexivity.
Qed.

(** More fuel than lines are left does not change what the loop does. *)
Lemma line_loop_fuel (K : constants) (f1 f2 : nat) (lines : list string)
    (count i : nat) (confs : list configuration) :
  (count - i < f1)%nat -> (count - i < f2)%nat ->
  line_loop K f1 lines count i confs = line_loop K f2 lines count i confs.
Proof.
  revert f2 i confs. induction f1 as [| f1 IH]; intros f2 i confs H1 H2;
    [lia |].
  destruct f2 as [| f2]; [lia |].
  rewrite !line_loop_unfold. destruct (count <=? i)%nat eqn:Ec; [reflexivity |].
  apply Nat.leb_gt in Ec.
  destruct (loop_body K lines count i confs) as [i1 c1 b | i1 e b | u b] eqn:E;
    try reflexivity.
  apply loop_body_index in E.
  rewrite (IH f2 (S i1) c1) by lia. reflexivity.
Qed.

(** On the shipped registry the body of the loop looks at its own line
    only, and ends on that line. *)
Lemma loop_body_local (K : constants) (lines lines' : list string)
    (count count' i j : nat) (confs : list configuration) :
  registry_ok K confs ->
  nth i lines "" = nth j lines' "" ->
  loop_body K lines' count' j confs
  = match loop_body K lines count i confs with
    | Continue _ c b => Continue j c b
    | LoadErr _ e b => LoadErr j e b
    | Fault u b => Fault u b
    end.
Proof.
  intros Hok Hl. unfold loop_body. rewrite Hl.
  destruct ((peek (wstrStrip (nth j lines' "") blanks) =? 35)
            || (peek (wstrStrip (nth j lines' "") blanks) =? 0)
            || (peek (wstrStrip (nth j lines' "") blanks) =? 32));
    [reflexivity |].
  destruct (getConfiguration confs _) as [[k conf] |] eqn:Eg; [| reflexivity].
  apply getConfiguration_nth in Eg.
  destruct (registry_entry K confs k conf Hok Eg) as [c0 [_ [_ [Hc _]]]].
  rewrite (consistent_not_list conf Hc), andb_false_r. cbn [negb andb].
  destruct (negb (_ =? args conf) && negb (_ =? _)); [reflexivity |].
  destruct (call_validator conf _ _) as [[|] conf' | u]; reflexivity.
Qed.

Lemma loop_body_own_index (K : constants) (lines : list string)
    (count i : nat) (confs : list configuration) :
  registry_ok K confs ->
  match loop_body K lines count i confs with
  | Continue i1 _ _ => i1 = i
  | LoadErr i1 _ _ => i1 = i
  | Fault _ _ => True
  end.
Proof.
  intros Hok.
  pose proof (loop_body_local K lines lines count count i i confs Hok eq_refl)
    as H.
  destruct (loop_body K lines count i confs); inversion H; auto.
Qed.

(** The loop over the lines [rest] behind the lines [pre] does what it
    does over [rest] alone, with the line numbers moved on. *)
Lemma line_loop_shift (K : constants) (fuel : nat) (pre rest : list string)
    (j : nat) (confs : list configuration) :
  registry_ok K confs ->
  snd (line_loop K fuel (pre ++ rest)
         (List.length pre + List.length rest) (List.length pre + j) confs)
  = shift_outcome (List.length pre)
      (snd (line_loop K fuel rest (List.length rest) j confs)).
Proof.
  revert j confs. induction fuel as [| fuel IH]; intros j confs Hok;
    [reflexivity |].
  rewrite !line_loop_snd.
  replace (List.length pre + List.length rest <=? List.length pre + j)%nat
    with (List.length rest <=? j)%nat.
  2:{ destruct (List.length rest <=? j)%nat eqn:E; symmetry.
      - apply Nat.leb_le in E. apply Nat.leb_le. lia.
      - apply Nat.leb_gt in E. apply Nat.leb_gt. lia. }
  destruct (List.length rest <=? j)%nat.
  - destruct (fillServerConfig confs); reflexivity.
  - assert (Hn : nth j rest "" = nth (List.length pre + j) (pre ++ rest) "")
      by (symmetry; apply app_nth2_plus).
    rewrite (loop_body_local K rest (pre ++ rest) (List.length rest)
               (List.length pre + List.length rest) j
               (List.length pre + j) confs Hok Hn).
    pose proof (loop_body_registry K rest (List.length rest) j confs Hok) as Hr.
    pose proof (loop_body_own_index K rest (List.length rest) j confs Hok)
      as Hi.
    destruct (loop_body K rest (List.length rest) j confs)
      as [i1 c1 b | i1 e b | u b].
    + subst i1. destruct Hr as [Hok1 _].
      replace (S (List.length pre + j)) with (List.length pre + S j)%nat
        by lia.
      now apply IH.
    + subst i1. cbn [shift_outcome]. f_equal. lia.
    + reflexivity.
Qed.

(** When the loop over [l1] alone runs to its end, the loop over [l1]
    followed by [l2] goes on with [l2] on the registry [l1] left. *)
Lemma line_loop_prefix (K : constants) (l1 l2 : list string)
    (confs1 : list configuration) (srv1 : globalServer) (fuel fuel' j : nat)
    (confs : list configuration) :
  registry_ok K confs ->
  (j <= List.length l1)%nat ->
  (List.length l1 - j < fuel)%nat ->
  (List.length l1 + List.length l2 - j < fuel')%nat ->
  snd (line_loop K fuel l1 (List.length l1) j confs) = Loaded confs1 srv1 ->
  snd (line_loop K fuel' (l1 ++ l2)
         (List.length l1 + List.length l2) j confs)
  = shift_outcome (List.length l1)
      (snd (line_loop K (S (List.length l2)) l2 (List.length l2) 0 confs1)).
Proof.
  revert fuel' j confs. induction fuel as [| fuel IH];
    intros fuel' j confs Hok Hj Hf Hf' Hrun; [lia |].
  destruct fuel' as [| fuel']; [lia |].
  rewrite line_loop_snd in Hrun.
  destruct (List.length l1 <=? j)%nat eqn:Ec.
  - apply Nat.leb_le in Ec.
    destruct (fillServerConfig confs); [| discriminate].
    inversion Hrun; subst confs1.
    assert (Ej : j = (List.length l1 + 0)%nat) by lia. rewrite Ej.
    rewrite (line_loop_shift K _ l1 l2 0 confs Hok).
    rewrite (line_loop_fuel K (S fuel') (S (List.length l2))) by lia.
    reflexivity.
  - apply Nat.leb_gt in Ec.
    rewrite line_loop_snd.
    replace (List.length l1 + List.length l2 <=? j)%nat with false
      by (symmetry; apply Nat.leb_gt; lia).
    assert (Hn : nth j l1 "" = nth j (l1 ++ l2) "")
      by (symmetry; now apply app_nth1).
    rewrite (loop_body_local K l1 (l1 ++ l2) (List.length l1)
               (List.length l1 + List.length l2) j j confs Hok Hn).
    pose proof (loop_body_registry K l1 (List.length l1) j confs Hok) as Hr.
    pose proof (loop_body_own_index K l1 (List.length l1) j confs Hok) as Hi.
    destruct (loop_body K l1 (List.length l1) j confs)
      as [i1 c1 b | i1 e b | u b]; try discriminate.
    subst i1. destruct Hr as [Hok1 _].
    apply (IH fuel' (S j) c1 Hok1); [lia | lia | lia | exact Hrun].
Qed.

Lemma all_pieces_run (K : constants) (t : string)
    (confs : list configuration) :
  snd (line_loop K (S (List.length (all_pieces (ascii_of_nat 10) t)))
         (all_pieces (ascii_of_nat 10) t)
         (List.length (all_pieces (ascii_of_nat 10) t)) 0 confs)
  = snd (applyConfig K t confs).
Proof.
  unfold applyConfig. destruct t as [| c t]; [| reflexivity].
  change (snd (line_loop K 2 [""] (List.length [""]) 0 confs)
          = snd (line_loop K 1 [] (List.length (@nil string)) 0 confs)).
  rewrite (line_loop_skipped K [""] confs 2 0).
  - rewrite (line_loop_skipped K [] confs 1 0).
    + reflexivity.
    + constructor.
    + simpl. lia.
  - constructor; [right; reflexivity | constructor].
  - simpl. lia.
Qed.

(** On the shipped registry, the load of a text [t1], a newline and a
    text [t2], when [t1] alone loads, is the load of [t2] on the registry
    [t1] leaves. *)
Lemma applyConfig_app (K : constants) (t1 t2 : string)
    (confs confs1 : list configuration) (srv1 : globalServer) :
  registry_ok K confs ->
  snd (applyConfig K t1 confs) = Loaded confs1 srv1 ->
  snd (applyConfig K (t1 ++ String (ascii_of_nat 10) t2) confs)
  = shift_outcome (List.length (all_pieces (ascii_of_nat 10) t1))
      (snd (applyConfig K t2 confs1)).
Proof.
  intros Hok H1. rewrite <- (all_pieces_run K t1) in H1.
  rewrite <- (all_pieces_run K t2).
  unfold applyConfig. rewrite wstrNewSplit_app, length_app.
  apply (line_loop_prefix K _ _ confs1 srv1
           (S (List.length (all_pieces (ascii_of_nat 10) t1))) _ 0 confs);
    auto; lia.
Qed.

(** X12.  [loadConfigFile] hands [applyConfig] the text of the file, a
    newline and the text of the command line.  On the shipped registry,
    when the file alone loads, this is the load of the command line on the
    registry the file leaves: the entries hold what the file committed
    unless a line of the command line commits them again, and a
    diagnostic of the command line counts its lines behind those of the
    file. *)
Theorem applyConfig_file_then_options (K : constants) (f o : string)
    (confs confs1 : list configuration) (srv1 : globalServer) :
  registry_ok K confs ->
  snd (applyConfig K f confs) = Loaded confs1 srv1 ->
  snd (applyConfig K (config_text (Some f) (Some o)) confs)
  = shift_outcome (List.length (all_pieces (ascii_of_nat 10) f))
      (snd (applyConfig K o confs1)).
Proof.
  intros Hok H1. cbn [config_text]. now apply (applyConfig_app K f o confs confs1 srv1).
Qed.

Lemma applyConfig_file_then_options_witness :
  snd (applyConfig sample
         (config_text (Some ("port 80" ++ newline ++ "daemon on"))
                      (Some "daemon maybe"))
         (configTable sample))
  = shift_outcome
      (List.length (all_pieces (ascii_of_nat 10)
                      ("port 80" ++ newline ++ "daemon on")))
      (snd (applyConfig sample "daemon maybe"
              (store (store (configTable sample) 2
                        (set_target (nth 2 (configTable sample) nested_conf)
                                    (TVal 80)))
                     7 (set_target (nth 7 (configTable sample) nested_conf)
                                   (TVal 1))))).
Proof.
  eapply (applyConfig_file_then_options sample
            ("port 80" ++ newline ++ "daemon on") "daemon maybe"
            (configTable sample)).
  - apply configTable_ok.
  - vm_compute. reflexivity.
Defined.

(** X13.  What the command line sets wins over the file.  On the shipped
    registry, when the file loads and the command line is one line
    [name value] that the validator of the entry accepts on the registry
    the file leaves, the load succeeds and the entry holds what the
    validator committed for that line, whatever the file committed for
    it; the other entries hold what the file left. *)
Theorem option_overrides_file (K : constants) (f v : string)
    (confs confs1 : list configuration) (srv1 : globalServer) (k : nat)
    (conf conf' : configuration) :
  registry_ok K confs ->
  snd (applyConfig K f confs) = Loaded confs1 srv1 ->
  nth_error confs1 k = Some conf ->
  token_ok v = true ->
  call_validator conf (name conf) (PStr v) = Ret VALIDATE_OK conf' ->
  exists srv,
    snd (applyConfig K
           (config_text (Some f) (Some (name conf ++ String " "%char v)))
           confs)
    = Loaded (store confs1 k conf') srv.
Proof.
  intros Hok H1 Hn Htok Hval.
  assert (Hok1 : registry_ok K confs1).
  { unfold applyConfig in H1.
    eapply (proj2 (line_loop_registry K _ _ _ _ _ Hok)).
    rewrite H1. reflexivity. }
  destruct (registry_entry K confs1 k conf Hok1 Hn) as [c0 [_ [_ [Hc _]]]].
  destruct (registry_entry_facts K confs1 k conf Hok1 Hn)
    as [Hname [Hargs _]].
  pose proof (own_name_lookup K confs1 k conf Hok1 Hn) as Hget.
  destruct (call_validator_preserves conf conf' _ _ Hc Hval)
    as [Hd' [Hc' Hk']].
  assert (Hok2 : registry_ok K (store confs1 k conf')).
  { destruct Hok1 as [Hd1 [Hc1 Hk1]]. split; [| split].
    - rewrite (store_decl confs1 k conf conf' Hn Hd'). exact Hd1.
    - now apply store_Forall.
    - now apply store_Forall. }
  destruct (registry_filled K _ Hok2) as [srv Hfill].
  exists srv. cbn [config_text].
  rewrite (applyConfig_app K f _ confs confs1 srv1 Hok H1).
  rewrite (apply_one_line K confs1 _ _ k conf Hname Htok Hget Hargs).
  rewrite Hval. cbn [snd]. rewrite Hfill. reflexivity.
Qed.

Lemma option_overrides_file_witness :
  exists srv,
    snd (applyConfig sample
           (config_text (Some "port 80")
              (Some (name (nth 2 (configTable sample) nested_conf)
                     ++ String " "%char "8080")))
           (configTable sample))
    = Loaded
        (store (store (configTable sample) 2
                  (set_target (nth 2 (configTable sample) nested_conf)
                              (TVal 80)))
               2 (set_target (nth 2 (configTable sample) nested_conf)
                             (TVal 8080)))
        srv.
Proof.
  refine (option_overrides_file sample "port 80" "8080" (configTable sample)
            (store (configTable sample) 2
               (set_target (nth 2 (configTable sample) nested_conf) (TVal 80)))
            _ 2
            (set_target (nth 2 (configTable sample) nested_conf) (TVal 80))
            (set_target (nth 2 (configTable sample) nested_conf) (TVal 8080))
            (configTable_ok sample) _ _ _ _).
  - vm_compute. reflexivity.
  - reflexivity.
  - reflexivity.
  - reflexivity.
Defined.

(* ================================================================== *)
(** ** The formatter on a list, and the two commands that print *)
(* ================================================================== *)


Lemma string_app_nil_r (s : string) : s ++ EmptyString = s.
Proof.
  induction s as [| c s IH]; simpl; [reflexivity | now rewrite IH].
Qed.

(** While the items fit, the loop of the list formatter appends each one
    with its tab and goes on behind it. *)
Lemma format_items_run (pre rest : list string) (len : nat) (buf : string)
    (ret : Z) :
  Z.of_nat len < size_max ->
  (String.length buf + String.length (tabbed pre) < len)%nat ->
  format_items (pre ++ rest)%list len (Z.of_nat (String.length buf)) buf ret
  = format_items rest len
      (Z.of_nat (String.length (buf ++ tabbed pre))) (buf ++ tabbed pre)
      (last_written ret pre).
Proof.
  intros Hlen. revert buf ret.
  induction pre as [| it pre IH]; intros buf ret Hfit.
  - cbn [tabbed last_written app]. rewrite string_app_nil_r. reflexivity.
  - cbn [tabbed] in Hfit. rewrite string_length_app in Hfit.
    cbn [String.length] in Hfit.
    cbn [app format_items tabbed last_written]. cbv zeta.
    assert (Hout : String.length (cstr it ++ String (ascii_of_nat 9) "")
                   = S (String.length (cstr it))).
    { rewrite string_length_app. cbn [String.length]. lia. }
    rewrite Hout.
    destruct (len =? 0)%nat eqn:H0; [apply Nat.eqb_eq in H0; lia |].
    rewrite Z.min_l by lia.
    destruct (Z.of_nat len
              <? Z.of_nat (String.length buf)
                 + Z.of_nat (S (String.length (cstr it))) + 1) eqn:Hover;
      [apply Z.ltb_lt in Hover; lia |].
    rewrite Z.mod_small by (unfold size_max in *; lia).
    destruct (Z.of_nat (S (String.length (cstr it)))
              >? Z.of_nat len - Z.of_nat (String.length buf)) eqn:Hgt;
      [rewrite Z.gtb_ltb in Hgt; apply Z.ltb_lt in Hgt; lia |].
    rewrite !Nat2Z.id.
    rewrite (substring_whole buf) by lia.
    rewrite <- Hout at 2. rewrite (substring_whole (cstr it ++ _)) by lia.
    assert (Hpos : Z.of_nat (String.length buf)
                   + Z.of_nat (S (String.length (cstr it)))
                   = Z.of_nat (String.length
                                 (buf ++ cstr it ++ String (ascii_of_nat 9) "")))
      by (rewrite string_length_app, Hout; lia).
    rewrite Hpos. rewrite IH.
    + rewrite !string_app_assoc. reflexivity.
    + rewrite string_length_app, Hout. lia.
Qed.

(** X14.  A list whose rendering fits the buffer is written in full: the
    buffer holds the name, a colon and a blank, then every item followed
    by a tab, and the value returned is the length of what the last
    [snprintf] wrote (the last item and its tab, or the header of an
    empty list), not the length of the line. *)
Theorem list_format_fits (conf : configuration) (items : list string)
    (len : nat) :
  format conf = LIST_FORMAT ->
  target conf = TList items ->
  Z.of_nat len < size_max ->
  (String.length (cstr (name conf) ++ ": " ++ tabbed items) < len)%nat ->
  constructConfigFormat conf len
  = Formatted
      (last_written (Z.of_nat (String.length (cstr (name conf) ++ ": ")))
         items)
      (cstr (name conf) ++ ": " ++ tabbed items).
Proof.
  intros Hf Ht Hlen Hfit.
  rewrite <- string_app_assoc in Hfit. rewrite string_length_app in Hfit.
  unfold constructConfigFormat. rewrite Hf, Ht. unfold snprintf.
  rewrite substring_whole by lia.
  pose proof (format_items_run items [] len (cstr (name conf) ++ ": ")
                (Z.of_nat (String.length (cstr (name conf) ++ ": ")))
                Hlen Hfit) as Hrun.
  rewrite app_nil_r in Hrun. rewrite Hrun. cbn [format_items].
  rewrite string_app_assoc. reflexivity.
Qed.

Lemma list_format_fits_witness :
  constructConfigFormat (set_target list_entry (TList ["alpha"; "beta"])) 255
  = Formatted 5
      ("mylist: alpha" ++ String (ascii_of_nat 9)
         ("beta" ++ String (ascii_of_nat 9) "")).
Proof.
  exact (list_format_fits (set_target list_entry (TList ["alpha"; "beta"]))
           ["alpha"; "beta"] 255 eq_refl eq_refl eq_refl
           ltac:(vm_compute; lia)).
Defined.

(** X15.  The list formatter hands every [snprintf] the full length of
    the buffer, whatever was written before.  So the first item that,
    with its tab, does not leave room for the closing NUL behind what is
    already in the buffer is written past the end of the buffer. *)
Theorem list_format_item_past_buffer (conf : configuration)
    (pre rest : list string) (it : string) (len : nat) :
  format conf = LIST_FORMAT ->
  target conf = TList (pre ++ it :: rest)%list ->
  Z.of_nat len < size_max ->
  (String.length (cstr (name conf) ++ ": " ++ tabbed pre) < len)%nat ->
  (len <= String.length (cstr (name conf) ++ ": " ++ tabbed pre)
          + S (String.length (cstr it)))%nat ->
  constructConfigFormat conf len = FmtFault WritePastBuffer.
Proof.
  intros Hf Ht Hlen Hfit Hover.
  rewrite <- string_app_assoc in Hfit, Hover.
  assert (Hhead : (2 <= String.length (cstr (name conf) ++ ": "))%nat)
    by (rewrite string_length_app; cbn [String.length]; lia).
  pose proof Hfit as Hfit'. rewrite string_length_app in Hfit'.
  unfold constructConfigFormat. rewrite Hf, Ht. unfold snprintf.
  rewrite substring_whole by lia.
  rewrite (format_items_run pre (it :: rest) len _ _ Hlen Hfit').
  cbn [format_items]. cbv zeta.
  assert (Hout : String.length (cstr it ++ String (ascii_of_nat 9) "")
                 = S (String.length (cstr it)))
    by (rewrite string_length_app; cbn [String.length]; lia).
  rewrite Hout.
  destruct (len =? 0)%nat eqn:H0; [apply Nat.eqb_eq in H0; lia |].
  pose proof (string_length_app (cstr (name conf) ++ ": ") (tabbed pre))
    as Hwhole.
  replace (Z.of_nat len <? _) with true; [reflexivity |].
  symmetry. apply Z.ltb_lt. lia.
Qed.

Lemma list_format_item_past_buffer_witness :
  constructConfigFormat
    (set_target list_entry (TList ["alpha"; "beta"; "gamma"])) 18
  = FmtFault WritePastBuffer.
Proof.
  exact (list_format_item_past_buffer
           (set_target list_entry (TList ["alpha"; "beta"; "gamma"]))
           ["alpha"] ["gamma"] "beta" 18 eq_refl eq_refl eq_refl
           ltac:(vm_compute; lia) ltac:(vm_compute; lia)).
Defined.

(** An entry of the registry is formatted without a fault: the value
    returned is the length of the whole line, the buffer holds what fits
    in front of the closing NUL. *)
Lemma constructConfigFormat_entry (c : configuration) (len : nat) :
  kind_ok c ->
  exists out,
    constructConfigFormat c len
    = Formatted (Z.of_nat (String.length out)) (substring 0 (len - 1) out).
Proof.
  unfold kind_ok, constructConfigFormat, target_ptr, target_val, target_enum,
    snprintf.
  intros Hk.
  destruct (format c), (target c) as [p | v | l | p]; try contradiction;
    try (eexists; reflexivity).
  destruct Hk as [_ [e [n [Hde _]]]]. rewrite Hde. eexists. reflexivity.
Qed.




Lemma log_entries_registry (level : Z) (confs : list configuration) :
  Forall kind_ok confs ->
  exists msgs,
    log_entries level confs = Logged msgs
    /\ List.length msgs = List.length confs
    /\ forall k conf,
         nth_error confs k = Some conf ->
         exists ret buf,
           constructConfigFormat conf 255 = Formatted ret buf
           /\ nth_error msgs k = Some (level, cstr buf).
Proof.
  induction confs as [| c confs IH]; intros Hk.
  - exists []. split; [reflexivity | split; [reflexivity |]].
    intros [| k] conf H; discriminate H.
  - inversion Hk as [| c' confs' Hc Hrest]; subst.
    destruct (IH Hrest) as [msgs [Hlog [Hlen Hnth]]].
    destruct (constructConfigFormat_entry c 255 Hc) as [out Hout].
    exists ((level, cstr (substring 0 (255 - 1) out)) :: msgs).
    cbn [log_entries]. rewrite Hout, Hlog.
    split; [reflexivity | split; [cbn [List.length]; now rewrite Hlen |]].
    intros [| k] conf H.
    + inversion H; subst conf. do 2 eexists. split; [exact Hout | reflexivity].
    + exact (Hnth k conf H).
Qed.

(** X17.  In a state of the shipped registry [printServerConfig] logs one
    message for each entry, in the order of the registry, between a
    banner and a closing line, all at the one level that [test] selects;
    the message of an entry is what [configCommand] leaves in its buffer
    when it is asked for the entry by its full name. *)
Theorem printServerConfig_dump (K : constants) (test : Z)
    (confs : list configuration) :
  registry_ok K confs ->
  exists msgs,
    printServerConfig K test confs = Logged msgs
    /\ List.length msgs = (List.length confs + 2)%nat
    /\ Forall (fun m => fst m = if test =? 0 then WHEAT_DEBUG K
                                else WHEAT_NOTICE K) msgs
    /\ forall k conf,
         nth_error confs k = Some conf ->
         exists ret buf,
           configCommand confs (name conf) = Formatted ret buf
           /\ option_map snd (nth_error msgs (S k)) = Some (cstr buf).
Proof.
  intros Hok. unfold printServerConfig. cbv zeta.
  set (level := if test =? 0 then WHEAT_DEBUG K else WHEAT_NOTICE K).
  destruct (log_entries_registry level confs (proj2 (proj2 Hok)))
    as [msgs [Hlog [Hlen Hnth]]].
  rewrite Hlog. eexists. split; [reflexivity |].
  assert (Hlevel : Forall (fun m : Z * string => fst m = level) msgs).
  { apply Forall_forall. intros m Hin.
    destruct (In_nth_error _ _ Hin) as [k Hk].
    assert (Hlt : (k < List.length confs)%nat)
      by (rewrite <- Hlen; apply nth_error_Some; congruence).
    destruct (nth_error confs k) as [conf |] eqn:Hc;
      [| apply nth_error_None in Hc; lia].
    destruct (Hnth k conf Hc) as [ret [buf [_ Hm]]].
    rewrite Hk in Hm. inversion Hm. reflexivity. }
  split; [| split].
  - cbn [List.length]. rewrite length_app, Hlen. cbn [List.length]. lia.
  - constructor; [reflexivity |]. apply Forall_app. split; [exact Hlevel |].
    constructor; [reflexivity | constructor].
  - intros k conf Hc.
    destruct (Hnth k conf Hc) as [ret [buf [Hfmt Hm]]].
    exists ret, buf. split.
    + unfold configCommand.
      rewrite (own_name_lookup K confs k conf Hok Hc). exact Hfmt.
    + cbn [nth_error]. rewrite nth_error_app1
        by (apply nth_error_Some; congruence).
      rewrite Hm. reflexivity.
Qed.

Lemma printServerConfig_dump_witness :
  exists msgs,
    printServerConfig sample 1 (configTable sample) = Logged msgs
    /\ List.length msgs = (List.length (configTable sample) + 2)%nat
    /\ Forall (fun m => fst m = if 1 =? 0 then WHEAT_DEBUG sample
                                else WHEAT_NOTICE sample) msgs
    /\ forall k conf,
         nth_error (configTable sample) k = Some conf ->
         exists ret buf,
           configCommand (configTable sample) (name conf) = Formatted ret buf
           /\ option_map snd (nth_error msgs (S k)) = Some (cstr buf).
Proof.
  exact (printServerConfig_dump sample 1 (configTable sample)
           (configTable_ok sample)).
Defined.

(* ================================================================== *)
(** ** What lies behind the line the load stops at *)
(* ================================================================== *)

(** On the shipped registry a loop that does not come to its end over the
    lines [l1] stops in the same way when more lines follow. *)
Lemma line_loop_stops_prefix (K : constants) (l1 l2 : list string)
    (fuel fuel' j : nat) (confs : list configuration) :
  registry_ok K confs ->
  (j <= List.length l1)%nat ->
  (List.length l1 - j < fuel)%nat ->
  (List.length l1 + List.length l2 - j < fuel')%nat ->
  (forall confs1 srv1,
     snd (line_loop K fuel l1 (List.length l1) j confs)
     <> Loaded confs1 srv1) ->
  snd (line_loop K fuel' (l1 ++ l2)
         (List.length l1 + List.length l2) j confs)
  = snd (line_loop K fuel l1 (List.length l1) j confs).
Proof.
  revert fuel' j confs. induction fuel as [| fuel IH];
    intros fuel' j confs Hok Hj Hf Hf' Hrun; [lia |].
  destruct fuel' as [| fuel']; [lia |].
  rewrite line_loop_snd in Hrun. rewrite (line_loop_snd K fuel l1).
  destruct (List.length l1 <=? j)%nat eqn:Ec.
  - destruct (registry_filled K confs Hok) as [srv Hfill].
    rewrite Hfill in Hrun. exfalso. exact (Hrun confs srv eq_refl).
  - apply Nat.leb_gt in Ec.
    rewrite line_loop_snd.
    replace (List.length l1 + List.length l2 <=? j)%nat with false
      by (symmetry; apply Nat.leb_gt; lia).
    assert (Hn : nth j l1 "" = nth j (l1 ++ l2) "")
      by (symmetry; now apply app_nth1).
    rewrite (loop_body_local K l1 (l1 ++ l2) (List.length l1)
               (List.length l1 + List.length l2) j j confs Hok Hn).
    pose proof (loop_body_registry K l1 (List.length l1) j confs Hok) as Hr.
    pose proof (loop_body_own_index K l1 (List.length l1) j confs Hok) as Hi.
    destruct (loop_body K l1 (List.length l1) j confs)
      as [i1 c1 b | i1 e b | u b].
    + subst i1. destruct Hr as [Hok1 _].
      apply (IH fuel' (S j) c1 Hok1); [lia | lia | lia | exact Hrun].
    + subst i1. reflexivity.
    + reflexivity.
Qed.

(** X18.  On the shipped registry a load that does not come to its end,
    because of a bad line or of a fault, is not changed by any text that
    follows: the outcome of the longer text is the same diagnostic with
    the same line number, or the same fault, over the same registry. *)
Theorem applyConfig_stops_at_first_error (K : constants) (t1 t2 : string)
    (confs : list configuration) :
  registry_ok K confs ->
  (forall confs1 srv1, snd (applyConfig K t1 confs) <> Loaded confs1 srv1) ->
  snd (applyConfig K (t1 ++ String (ascii_of_nat 10) t2) confs)
  = snd (applyConfig K t1 confs).
Proof.
  intros Hok H1. rewrite <- (all_pieces_run K t1) in H1 |- *.
  unfold applyConfig. rewrite wstrNewSplit_app, length_app.
  apply (line_loop_stops_prefix K _ _
           (S (List.length (all_pieces (ascii_of_nat 10) t1))) _ 0 confs);
    auto; lia.
Qed.

Lemma applyConfig_stops_at_first_error_witness :
  snd (applyConfig sample
         ("daemon on" ++ String (ascii_of_nat 10) "port abc"
          ++ String (ascii_of_nat 10) "port 80")
         (configTable sample))
  = snd (applyConfig sample
           ("daemon on" ++ String (ascii_of_nat 10) "port abc")
           (configTable sample)).
Proof.
  refine (applyConfig_stops_at_first_error sample
            ("daemon on" ++ String (ascii_of_nat 10) "port abc") "port 80"
            (configTable sample) (configTable_ok sample) _).
  intros confs1 srv1. vm_compute. discriminate.
Defined.
